(** * ntp-time-sync: a shallow embedding of [src/NtpTimeSync.ts]

    The development follows the current revision of the module (the one
    with the [maxRetries] option).  Conventions of the embedding:

    - a [Date] is represented by its [getTime()], an integer number of
      milliseconds since the Unix epoch ([Z]);
    - a JavaScript [number] that the statistics engine computes is an exact
      rational, extended with [Infinity], [-Infinity] and [NaN]; the
      rounding of IEEE 754 doubles is not part of this idealisation, and
      the result of [Math.sqrt] is a real number;
    - the packet encoder is the one place whose behaviour is decided by the
      binary64 representation itself ([Number.prototype.toString(2)]
      prints it); there the arithmetic is done on primitive floats;
    - a string is a list of ASCII characters;
    - the wall clock and the network are oracles: the [n]-th read of the
      clock and the outcome of the exchange with a server in the [n]-th
      round are given by the environment. *)

From Stdlib Require Import ZArith QArith Qabs Qminmax Qpower Qround.
From Stdlib Require Import Reals Qreals Lia Lqa Bool Ascii String List.
From Stdlib Require DecimalString.
From Stdlib Require Import Sorting.Permutation Sorting.Sorted.
From Stdlib Require Floats.PrimFloat Floats.SpecFloat Floats.FloatOps.
From Stdlib Require Numbers.Cyclic.Int63.Uint63.
Import ListNotations.

Set Implicit Arguments.
Set Warnings "-register-all".

(** ** ECMAScript values used by the module *)

Module JS.

Definition str := list ascii.
Definition of_string (s : string) : str := list_ascii_of_string s.

Inductive number :=
| Num (q : Q)
| Infinity (negative : bool)
| NaN.

Definition is_zero (q : Q) : bool := Qeq_bool q 0.
Definition is_neg (q : Q) : bool := negb (Qle_bool 0 q).

(** ToBoolean on a number: [0] and [NaN] are falsy. *)
Definition truthy (n : number) : bool :=
  match n with
  | Num q => negb (is_zero q)
  | Infinity _ => true
  | NaN => false
  end.

Definition neg (a : number) : number :=
  match a with
  | Num q => Num (- q)
  | Infinity s => Infinity (negb s)
  | NaN => NaN
  end.

Definition add (a b : number) : number :=
  match a, b with
  | Num x, Num y => Num (x + y)
  | Infinity s, Infinity s' => if Bool.eqb s s' then Infinity s else NaN
  | Infinity s, Num _ => Infinity s
  | Num _, Infinity s => Infinity s
  | _, _ => NaN
  end.

Definition sub (a b : number) : number := add a (neg b).

Definition mul (a b : number) : number :=
  match a, b with
  | Num x, Num y => Num (x * y)
  | Infinity s, Infinity s' => Infinity (xorb s s')
  | Infinity s, Num y | Num y, Infinity s =>
      if is_zero y then NaN else Infinity (xorb s (is_neg y))
  | _, _ => NaN
  end.

(** Division; every divisor of the module is a non-negative quantity
    (a length, [2] or [1000]), so a zero divisor is [+0]. *)
Definition div (a b : number) : number :=
  match a, b with
  | Num x, Num y =>
      if is_zero y
      then (if is_zero x then NaN else Infinity (is_neg x))
      else Num (x / y)
  | Infinity s, Num y => Infinity (xorb s (is_neg y))
  | Num _, Infinity _ => Num 0
  | _, _ => NaN
  end.

(** The result of [Math.sqrt]. *)
Inductive real :=
| RNum (r : R)
| RInfinity
| RNaN.

Definition Math_sqrt (a : number) : real :=
  match a with
  | Num q => if is_neg q then RNaN else RNum (sqrt (Q2R q))
  | Infinity false => RInfinity
  | Infinity true => RNaN
  | NaN => RNaN
  end.

(** [Math.pow(2, e)] for an integer exponent. *)
Definition Math_pow2 (e : Z) : Q := 2 ^ e.

(** ToIntegerOrInfinity on a finite number: truncation towards zero. *)
Definition truncate (q : Q) : Z :=
  if Qle_bool 0 q then Qfloor q else Qceiling q.

(** [Array.prototype.slice(0, stop)]: a negative [stop] counts from the
    end of the array. *)
Definition slice0 {A} (l : list A) (stop : Z) : list A :=
  if (stop <? 0)%Z
  then firstn (Z.to_nat (Z.max (Z.of_nat (length l) + stop) 0)) l
  else firstn (Z.to_nat stop) l.

Definition len {A} (l : list A) : Z := Z.of_nat (length l).

(** *** Strings *)

Definition str_eqb (a b : str) : bool :=
  if list_eq_dec ascii_dec a b then true else false.

(** [s.split(sep)] for a one-character separator: never empty. *)
Fixpoint split (sep : ascii) (s : str) : list str :=
  match s with
  | [] => [[]]
  | c :: rest =>
      if Ascii.eqb c sep then [] :: split sep rest
      else match split sep rest with
           | [] => [[c]]
           | piece :: pieces => (c :: piece) :: pieces
           end
  end.

(** [s.split(sep, limit)] *)
Definition split_limit (sep : ascii) (limit : nat) (s : str) : list str :=
  firstn limit (split sep s).

(** [s.substring(0, stop)] and [s.substr(start, length)] *)
Definition substring0 (s : str) (stop : Z) : str :=
  firstn (Z.to_nat (Z.max 0 stop)) s.

Definition substr (s : str) (start length : nat) : str :=
  firstn length (skipn start s).

(** [char.repeat(count)] *)
Definition repeat_str (char : str) (count : Z) : str :=
  concat (repeat char (Z.to_nat count)).

Inductive Side := Left | Right.

(** The static method [pad(string, length, char, side)]. *)
Definition pad (string : str) (length : Z) (char : str) (side : Side) : str :=
  match side with
  | Left => substring0 (repeat_str char length) (length - len string) ++ string
  | Right => string ++ substring0 (repeat_str char length) (length - len string)
  end.

(** StrWhiteSpaceChar, within ASCII. *)
Definition is_white (c : ascii) : bool :=
  let n := nat_of_ascii c in
  ((9 <=? n) && (n <=? 13) || (n =? 32))%nat.

Fixpoint trim_left (s : str) : str :=
  match s with
  | c :: rest => if is_white c then trim_left rest else s
  | [] => []
  end.

Definition trim (s : str) : str := rev (trim_left (rev (trim_left s))).

(** The value of a digit in a radix up to 16. *)
Definition digit (radix : Z) (c : ascii) : option Z :=
  let n := Z.of_nat (nat_of_ascii c) in
  let v := (if (48 <=? n) && (n <=? 57) then Some (n - 48)
            else if (97 <=? n) && (n <=? 102) then Some (n - 87)
            else if (65 <=? n) && (n <=? 70) then Some (n - 55)
            else None)%Z in
  match v with
  | Some d => if (d <? radix)%Z then Some d else None
  | None => None
  end.

(** The longest prefix of digits: its value, its length, the rest. *)
Fixpoint span_digits (radix : Z) (s : str) (acc : Z) (count : nat) : Z * nat * str :=
  match s with
  | c :: rest =>
      match digit radix c with
      | Some d => span_digits radix rest (radix * acc + d)%Z (S count)
      | None => (acc, count, s)
      end
  | [] => (acc, count, [])
  end.

(** ExponentPart, or nothing; [None] when the rest is not one. *)
Definition exponent_part (s : str) : option Z :=
  match s with
  | [] => Some 0%Z
  | c :: rest =>
      if Ascii.eqb c "e" || Ascii.eqb c "E" then
        let '(negative, rest) :=
          match rest with
          | s :: rest' =>
              if Ascii.eqb s "-" then (true, rest')
              else if Ascii.eqb s "+" then (false, rest')
              else (false, rest)
          | [] => (false, rest)
          end in
        match span_digits 10 rest 0 0 with
        | (_, O, _) => None
        | (e, _, []) => Some (if negative then - e else e)%Z
        | _ => None
        end
      else None
  end.

(** StrUnsignedDecimalLiteral *)
Definition unsigned_decimal (s : str) : number :=
  if str_eqb s (of_string "Infinity") then Infinity false
  else
    let '(ip, ni, rest) := span_digits 10 s 0 0 in
    let '(mantissa, nf, rest, dot) :=
      match rest with
      | c :: rest' =>
          if Ascii.eqb c "."
          then let '(m, nf, rest'') := span_digits 10 rest' ip 0 in (m, nf, rest'', true)
          else (ip, O, rest, false)
      | [] => (ip, O, rest, false)
      end in
    match (ni + nf)%nat, exponent_part rest with
    | S _, Some e => Num (inject_Z mantissa * 10 ^ (e - Z.of_nat nf))
    | _, _ => NaN
    end.

(** [Number(s)] on a string: StringToNumber, with exact values. *)
Definition StringToNumber (s : str) : number :=
  match trim s with
  | [] => Num 0
  | c :: rest =>
      if Ascii.eqb c "-" then neg (unsigned_decimal rest)
      else if Ascii.eqb c "+" then unsigned_decimal rest
      else
        let radix :=
          match rest with
          | x :: _ =>
              if negb (Ascii.eqb c "0") then None
              else if Ascii.eqb x "x" || Ascii.eqb x "X" then Some 16%Z
              else if Ascii.eqb x "o" || Ascii.eqb x "O" then Some 8%Z
              else if Ascii.eqb x "b" || Ascii.eqb x "B" then Some 2%Z
              else None
          | [] => None
          end in
        match radix with
        | Some r =>
            match span_digits r (tl rest) 0 0 with
            | (_, O, _) => NaN
            | (v, _, []) => Num (inject_Z v)
            | _ => NaN
            end
        | None => unsigned_decimal (c :: rest)
        end
  end.

(** [Number(x)] where [x] is a string or [undefined]. *)
Definition Number_ (x : option str) : number :=
  match x with
  | Some s => StringToNumber s
  | None => NaN
  end.

(** [n.toString(2)] for an integer [n]. *)
Fixpoint bits (p : positive) (acc : str) : str :=
  match p with
  | xH => "1"%char :: acc
  | xO p' => bits p' ("0"%char :: acc)
  | xI p' => bits p' ("1"%char :: acc)
  end.

Definition toString2 (n : Z) : str :=
  match n with
  | Z0 => ["0"%char]
  | Zpos p => bits p []
  | Zneg p => "-"%char :: bits p []
  end.

(** The binary digits at the head of a string. *)
Fixpoint binaryPrefix (s : str) (acc : option Z) : option Z :=
  match s with
  | c :: rest =>
      if Ascii.eqb c "0" then binaryPrefix rest (Some (2 * match acc with Some a => a | None => 0 end)%Z)
      else if Ascii.eqb c "1" then binaryPrefix rest (Some (2 * match acc with Some a => a | None => 0 end + 1)%Z)
      else acc
  | [] => acc
  end.

(** [parseInt(s, 2)] *)
Definition parseInt2 (s : str) : number :=
  let s := trim_left s in
  let '(negative, s) :=
    match s with
    | c :: rest =>
        if Ascii.eqb c "-" then (true, rest)
        else if Ascii.eqb c "+" then (false, rest)
        else (false, s)
    | [] => (false, s)
    end in
  match binaryPrefix s None with
  | Some v => Num (inject_Z (if negative then - v else v))
  | None => NaN
  end.

(** [x >>> 0] on an integer: ToUint32. *)
Definition toUint32 (x : Z) : Z := (x mod 2 ^ 32)%Z.

(** [l[i] = v] for an index within the array. *)
Fixpoint assign {A} (l : list A) (i : nat) (v : A) : list A :=
  match l, i with
  | [], _ => []
  | _ :: rest, O => v :: rest
  | x :: rest, S i' => x :: assign rest i' v
  end.

(** [Buffer.from(array)]: every entry is taken modulo 256, and an entry
    that is not a finite number becomes 0. *)
Definition Buffer_from (l : list number) : list Z :=
  map (fun n => match n with
                | Num q => (truncate q mod 256)%Z
                | _ => 0%Z
                end) l.

(** *** Doubles, for the packet encoder *)

Definition double := PrimFloat.float.

(** The double of an integer of magnitude below 2^53. *)
Definition double_of_Z (z : Z) : double :=
  match z with
  | Zneg p => PrimFloat.opp (PrimFloat.of_uint63 (Uint63.of_Z (Zpos p)))
  | _ => PrimFloat.of_uint63 (Uint63.of_Z z)
  end.

(** The digits after the point of [m / 2^width] (with [m < 2^width]),
    without the trailing zeros. *)
Fixpoint fraction_bits (width : nat) (m : Z) : str :=
  match width with
  | O => []
  | S w =>
      if (m =? 0)%Z then []
      else (if (m <? 2 ^ Z.of_nat w)%Z then "0"%char else "1"%char)
             :: fraction_bits w (m mod 2 ^ Z.of_nat w)
  end.

(** [x.toString(2)] on a double: the digits of the exact binary
    expansion of its value. *)
Definition double_toString2 (x : double) : str :=
  match FloatOps.Prim2SF x with
  | SpecFloat.S754_zero _ => ["0"%char]
  | SpecFloat.S754_infinity negative =>
      (if negative then ["-"%char] else []) ++ of_string "Infinity"
  | SpecFloat.S754_nan => of_string "NaN"
  | SpecFloat.S754_finite negative m e =>
      (if negative then ["-"%char] else []) ++
      (if (0 <=? e)%Z then toString2 (Zpos m * 2 ^ e)
       else
         let integer := (Zpos m / 2 ^ (- e))%Z in
         let fraction := (Zpos m mod 2 ^ (- e))%Z in
         toString2 integer ++
         (if (fraction =? 0)%Z then []
          else "."%char :: fraction_bits (Z.to_nat (- e)) fraction))
  end.

End JS.

Import JS.

(** ** Errors and results *)

Inductive Error :=
| InvalidOption (key : str)              (* "Invalid option: <key>" *)
| TypeError                              (* raised by the runtime *)
| Timeout                                (* "Timeout waiting for NTP response." *)
| SendError                              (* the error handed to the send callback *)
| FormatVersion (expected got : Z)       (* "Format error: Expected version ..." *)
| StratumError                           (* "Stratum error: Remote clock is unsynchronized" *)
| DistanceError                          (* "Distance error: Root distance too large" *)
| OriginFromFuture                       (* "Format error: Origin timestamp is from the future" *)
| ConnectionError (retries : Z).         (* "Connection error: Unable to get any NTP response after <n> retries" *)

Inductive result (A : Type) :=
| Ok (a : A)
| Throw (e : Error).
Arguments Ok {A} a.
Arguments Throw {A} e.

Definition bind {A B} (r : result A) (k : A -> result B) : result B :=
  match r with
  | Ok a => k a
  | Throw e => Throw e
  end.

Notation "x <- r ;; k" := (bind r (fun x => k))
  (at level 61, r at next level, right associativity).

Fixpoint mapM {A B} (f : A -> result B) (l : list A) : result (list B) :=
  match l with
  | [] => Ok []
  | a :: rest => b <- f a ;; bs <- mapM f rest ;; Ok (b :: bs)
  end.

(** ** Option objects *)

(** The values an options object is made of.  An object is the list of
    its own enumerable properties, in insertion order. *)
Inductive Value :=
| VUndefined
| VNull
| VBool (b : bool)
| VNumber (n : number)
| VString (s : str)
| VDate (time : Z)
| VArray (items : list Value)
| VObject (fields : list (str * Value)).

Definition index_key (i : nat) : str :=
  of_string (DecimalString.NilZero.string_of_uint (Nat.to_uint i)).

Definition indexed (items : list Value) : list (str * Value) :=
  combine (map index_key (seq 0 (length items))) items.

Definition has_key (key : str) (fields : list (str * Value)) : bool :=
  existsb (fun kv => str_eqb (fst kv) key) fields.

Definition lookup (key : str) (fields : list (str * Value)) : Value :=
  match find (fun kv => str_eqb (fst kv) key) fields with
  | Some kv => snd kv
  | None => VUndefined
  end.

Definition length_key : str := of_string "length".

(** [Object.entries(v)] *)
Definition entries (v : Value) : result (list (str * Value)) :=
  match v with
  | VUndefined | VNull => Throw TypeError
  | VObject fields => Ok fields
  | VArray items => Ok (indexed items)
  | VString s => Ok (indexed (map (fun c => VString [c]) s))
  | _ => Ok []
  end.

(** [key in v]: a [TypeError] on a primitive.  Inherited properties
    (those of [Object.prototype] and the like) are not modelled. *)
Definition in_ (key : str) (v : Value) : result bool :=
  match v with
  | VObject fields => Ok (has_key key fields)
  | VArray items => Ok (has_key key (indexed items) || str_eqb key length_key)
  | VDate _ => Ok false
  | _ => Throw TypeError
  end.

(** [v[key]] *)
Definition get (key : str) (v : Value) : result Value :=
  match v with
  | VUndefined | VNull => Throw TypeError
  | VObject fields => Ok (lookup key fields)
  | VArray items =>
      Ok (if str_eqb key length_key
          then VNumber (Num (inject_Z (Z.of_nat (length items))))
          else lookup key (indexed items))
  | VString s =>
      Ok (if str_eqb key length_key
          then VNumber (Num (inject_Z (Z.of_nat (length s))))
          else lookup key (indexed (map (fun c => VString [c]) s)))
  | _ => Ok VUndefined
  end.

(** ToBoolean *)
Definition truthy_value (v : Value) : bool :=
  match v with
  | VUndefined | VNull => false
  | VBool b => b
  | VNumber n => truthy n
  | VString s => negb (str_eqb s [])
  | _ => true
  end.

Definition isArray (v : Value) : bool :=
  match v with VArray _ => true | _ => false end.

(** [typeof v === "object" && v !== null] *)
Definition isObject (v : Value) : bool :=
  match v with VObject _ | VArray _ | VDate _ => true | _ => false end.

(** The callback of [recursiveResolveOptions] once [key in options]
    holds; [optionsKey] is [options[key]] and [recur] the recursive call
    [recursiveResolveOptions(options[key], defaults[key])]. *)
Definition resolveEntry (defaults : Value) (key : str) (optionsKey : Value)
           (recur : result Value) : result (str * Value) :=
  known <- in_ key defaults ;;
  (* option is invalid *)
  if negb known then Throw (InvalidOption key)
  else if isArray optionsKey then Ok (key, optionsKey)
  else if isObject optionsKey then r <- recur ;; Ok (key, r)
  else Ok (key, optionsKey).

(** [recursiveResolveOptions(options, defaults)]: the entries of
    [defaults] are mapped one by one, and the property [key] is searched
    in [options]. *)
Fixpoint recursiveResolveOptions (options defaults : Value) {struct options}
  : result Value :=
  es <- entries defaults ;;
  mergedConfig <-
    mapM (fun kv : str * Value =>
            let (key, value) := kv in
            match options with
            | VObject fields =>
                (fix search (fs : list (str * Value)) : result (str * Value) :=
                   match fs with
                   | [] => Ok (key, value)      (* option was not defined in input *)
                   | (k, v) :: rest =>
                       if str_eqb k key
                       then resolveEntry defaults key v (recursiveResolveOptions v value)
                       else search rest
                   end) fields
            | VArray items =>
                if str_eqb key length_key
                then resolveEntry defaults key
                       (VNumber (Num (inject_Z (Z.of_nat (length items))))) (Ok VUndefined)
                else
                (fix search (i : nat) (its : list Value) : result (str * Value) :=
                   match its with
                   | [] => Ok (key, value)
                   | v :: rest =>
                       if str_eqb (index_key i) key
                       then resolveEntry defaults key v (recursiveResolveOptions v value)
                       else search (S i) rest
                   end) O items
            | VDate _ => Ok (key, value)
            | _ => Throw TypeError
            end) es ;;
  Ok (VObject mergedConfig).

Definition prop (s : string) : str := of_string s.
Definition num (z : Z) : Value := VNumber (Num (inject_Z z)).

Definition NtpTimeSyncDefaultOptions : Value :=
  VObject [
    (prop "servers",
       VArray (map (fun h => VString (of_string h))
                   ["0.pool.ntp.org"; "1.pool.ntp.org"; "2.pool.ntp.org"; "3.pool.ntp.org"]%string));
    (prop "sampleCount", num 8);
    (prop "replyTimeout", num 3000);
    (prop "maxRetries", num 3);
    (prop "ntpDefaults",
       VObject [
         (prop "port", num 123);
         (prop "version", num 4);
         (prop "tolerance", VNumber (Num (15 # 1000000)));
         (prop "minPoll", num 4);
         (prop "maxPoll", num 17);
         (prop "maxDispersion", num 16);
         (prop "minDispersion", VNumber (Num (5 # 1000)));
         (prop "maxDistance", num 1);
         (prop "maxStratum", num 16);
         (prop "precision", num (-18));
         (prop "referenceDate", VDate (-2208988800000))
       ])
  ].

(** [mergedConfig.ntpDefaults.port] *)
Definition ntpDefaultsPort (mergedConfig : Value) : result Value :=
  d <- get (prop "ntpDefaults") mergedConfig ;; get (prop "port") d.

(** The object [{ host: host, port: port }] *)
Definition endpoint (host : str) (port : Value) : Value :=
  VObject [(prop "host", VString host); (prop "port", port)].

(** The callback of [serverConfig.map]: one configured server string. *)
Definition resolveServer (mergedConfig : Value) (server : Value) : result Value :=
  match server with
  | VString s =>
      let host := nth 0 (split_limit ":" 2 s) [] in
      let port := Number_ (nth_error (split_limit ":" 2 s) 1) in
      port' <- (if truthy port then Ok (VNumber port) else ntpDefaultsPort mergedConfig) ;;
      Ok (endpoint host port')
  | _ => Throw TypeError
  end.

(** [{...mergedConfig, servers: v}] *)
Definition withServers (mergedConfig : list (str * Value)) (v : Value) : list (str * Value) :=
  if has_key (prop "servers") mergedConfig
  then map (fun kv => if str_eqb (fst kv) (prop "servers") then (fst kv, v) else kv) mergedConfig
  else mergedConfig ++ [(prop "servers", v)].

(** [new NtpTimeSync(options)]: the value of [this._options]. *)
Definition constructor (options : Value) : result Value :=
  let options := match options with VUndefined => VObject [] | _ => options end in
  s <- get (prop "servers") options ;;
  d <- get (prop "servers") NtpTimeSyncDefaultOptions ;;
  let serverConfig := if truthy_value s then s else d in
  mergedConfig <- recursiveResolveOptions options NtpTimeSyncDefaultOptions ;;
  match serverConfig, mergedConfig with
  | VArray items, VObject fields =>
      servers <- mapM (resolveServer mergedConfig) items ;;
      Ok (VObject (withServers fields (VArray servers)))
  | _, _ => Throw TypeError
  end.

(** ** Configuration and packets *)

Module NtpDefaults.
Record t := {
  port : Z;
  version : Z;
  tolerance : Q;
  minPoll : Z;
  maxPoll : Z;
  maxDispersion : Q;
  minDispersion : Q;
  maxDistance : Q;
  maxStratum : Z;
  precision : Z;
  referenceDate : Z
}.
End NtpDefaults.

Record ServerEndpoint := {
  host : str;
  port : Z
}.

(** [NtpTimeSyncOptions]: the resolved options of an instance. *)
Record NtpTimeSyncOptions := {
  servers : list ServerEndpoint;
  sampleCount : Z;
  replyTimeout : Z;
  maxRetries : Z;
  ntpDefaults : NtpDefaults.t
}.

(** [new Date("Jan 01 1900 GMT").getTime()] *)
Definition referenceDate1900 : Z := (-2208988800000)%Z.

Definition defaultNtpDefaults : NtpDefaults.t := {|
  NtpDefaults.port := 123;
  NtpDefaults.version := 4;
  NtpDefaults.tolerance := 15 # 1000000;
  NtpDefaults.minPoll := 4;
  NtpDefaults.maxPoll := 17;
  NtpDefaults.maxDispersion := 16;
  NtpDefaults.minDispersion := 5 # 1000;
  NtpDefaults.maxDistance := 1;
  NtpDefaults.maxStratum := 16;
  NtpDefaults.precision := -18;
  NtpDefaults.referenceDate := referenceDate1900
|}.

Definition defaultServers : list ServerEndpoint :=
  map (fun h => {| host := of_string h; port := 123 |})
      ["0.pool.ntp.org"; "1.pool.ntp.org"; "2.pool.ntp.org"; "3.pool.ntp.org"]%string.

Definition defaultOptions : NtpTimeSyncOptions := {|
  servers := defaultServers;
  sampleCount := 8;
  replyTimeout := 3000;
  maxRetries := 3;
  ntpDefaults := defaultNtpDefaults
|}.

(** The resolved options read off the object built by the constructor,
    when every field has the declared type (the integer fields hold
    integers). *)
Definition asQ (v : Value) : option Q :=
  match v with
  | VNumber (Num q) => Some q
  | _ => None
  end.

Definition asZ (v : Value) : option Z :=
  match v with
  | VNumber (Num q) => if (Qden q =? 1)%positive then Some (Qnum q) else None
  | _ => None
  end.

Definition asDate (v : Value) : option Z :=
  match v with
  | VDate t => Some t
  | _ => None
  end.

Definition field {A} (read : Value -> option A) (name : string) (v : Value) : option A :=
  match get (prop name) v with
  | Ok x => read x
  | Throw _ => None
  end.

Definition option_bind {A B} (o : option A) (k : A -> option B) : option B :=
  match o with
  | Some a => k a
  | None => None
  end.

Fixpoint option_all {A} (l : list (option A)) : option (list A) :=
  match l with
  | [] => Some []
  | o :: rest =>
      option_bind o (fun a => option_bind (option_all rest) (fun r => Some (a :: r)))
  end.

Definition readEndpoint (v : Value) : option ServerEndpoint :=
  option_bind (field (fun x => match x with VString s => Some s | _ => None end) "host" v)
    (fun h => option_bind (field asZ "port" v)
    (fun p => Some {| host := h; port := p |})).

Definition readNtpDefaults (v : Value) : option NtpDefaults.t :=
  option_bind (field asZ "port" v) (fun port =>
  option_bind (field asZ "version" v) (fun version =>
  option_bind (field asQ "tolerance" v) (fun tolerance =>
  option_bind (field asZ "minPoll" v) (fun minPoll =>
  option_bind (field asZ "maxPoll" v) (fun maxPoll =>
  option_bind (field asQ "maxDispersion" v) (fun maxDispersion =>
  option_bind (field asQ "minDispersion" v) (fun minDispersion =>
  option_bind (field asQ "maxDistance" v) (fun maxDistance =>
  option_bind (field asZ "maxStratum" v) (fun maxStratum =>
  option_bind (field asZ "precision" v) (fun precision =>
  option_bind (field asDate "referenceDate" v) (fun referenceDate =>
  Some {| NtpDefaults.port := port;
          NtpDefaults.version := version;
          NtpDefaults.tolerance := tolerance;
          NtpDefaults.minPoll := minPoll;
          NtpDefaults.maxPoll := maxPoll;
          NtpDefaults.maxDispersion := maxDispersion;
          NtpDefaults.minDispersion := minDispersion;
          NtpDefaults.maxDistance := maxDistance;
          NtpDefaults.maxStratum := maxStratum;
          NtpDefaults.precision := precision;
          NtpDefaults.referenceDate := referenceDate |}))))))))))).

Definition readOptions (v : Value) : option NtpTimeSyncOptions :=
  option_bind (field (fun x => match x with
                               | VArray items => option_all (map readEndpoint items)
                               | _ => None
                               end) "servers" v) (fun servers =>
  option_bind (field asZ "sampleCount" v) (fun sampleCount =>
  option_bind (field asZ "replyTimeout" v) (fun replyTimeout =>
  option_bind (field asZ "maxRetries" v) (fun maxRetries =>
  option_bind (field readNtpDefaults "ntpDefaults" v) (fun ntpDefaults =>
  Some {| servers := servers;
          sampleCount := sampleCount;
          replyTimeout := replyTimeout;
          maxRetries := maxRetries;
          ntpDefaults := ntpDefaults |}))))).

(** [new NtpTimeSync(options).options] *)
Definition newNtpTimeSync (options : Value) : result (option NtpTimeSyncOptions) :=
  v <- constructor options ;; Ok (readOptions v).

(** [NtpReceivedPacket]: the fields of the parsed reply the module reads,
    and the destination timestamp stamped on receipt. *)
Module Packet.
Record t := {
  leapIndicator : Z;
  version : Z;
  stratum : Z;
  precision : Z;
  rootDelay : Z;
  rootDispersion : Z;
  originTimestamp : Z;
  receiveTimestamp : Z;
  transmitTimestamp : Z;
  destinationTimestamp : Z
}.
End Packet.

Record SampleData := {
  data : Packet.t;
  offset : Q;
  delay : Q;
  dispersion : Q
}.

(** [NtpTimeResult], the result of [getTime]. *)
Module NtpTimeResult.
Record t := {
  now : option Z;            (* [None] is an invalid [Date] *)
  offset : number;
  precision : real
}.
End NtpTimeResult.

(** ** Response validation *)

Section Engine.

Variable options : NtpTimeSyncOptions.

Let defaults := ntpDefaults options.

(** [acceptResponse]; [now] is the value of [new Date().getTime()] read
    by the last check. *)
Definition acceptResponse (now : Z) (data : Packet.t) : result unit :=
  if (Packet.version data >? NtpDefaults.version defaults)%Z
  then Throw (FormatVersion (NtpDefaults.version defaults) (Packet.version data))
  else
  if (Packet.leapIndicator data =? 3)%Z
     || (Packet.stratum data >=? NtpDefaults.maxStratum defaults)%Z
  then Throw StratumError
  else
  let rootDelay :=
    inject_Z (Packet.rootDelay data - NtpDefaults.referenceDate defaults) / 1000 in
  let rootDispersion :=
    inject_Z (Packet.rootDispersion data - NtpDefaults.referenceDate defaults) / 1000 in
  if Qle_bool (NtpDefaults.maxDispersion defaults) (rootDelay / 2 + rootDispersion)
  then Throw DistanceError
  else
  if (Packet.originTimestamp data >? now)%Z
  then Throw OriginFromFuture
  else Ok tt.

(** ** Samples: the body of the [forEach] of [collectSamples] *)

Definition sampleOf (data : Packet.t) : SampleData :=
  let offsetSign : Q :=
    if (Packet.transmitTimestamp data >? Packet.destinationTimestamp data)%Z
    then 1 else -1 in
  let offset :=
    ((Qabs (inject_Z (Packet.receiveTimestamp data - Packet.originTimestamp data))
      + Qabs (inject_Z (Packet.transmitTimestamp data - Packet.destinationTimestamp data)))
     / 2) * offsetSign in
  let delay :=
    Qmax (inject_Z (Packet.destinationTimestamp data - Packet.originTimestamp data
                    - (Packet.receiveTimestamp data - Packet.transmitTimestamp data)))
         (Math_pow2 (NtpDefaults.precision defaults)) in
  let dispersion :=
    Math_pow2 (Packet.precision data)
    + Math_pow2 (NtpDefaults.precision defaults)
    + NtpDefaults.tolerance defaults
      * inject_Z (Packet.destinationTimestamp data - Packet.originTimestamp data) in
  {| data := data; offset := offset; delay := delay; dispersion := dispersion |}.

(** [samples.sort((a, b) => a.delay - b.delay)]: the sort of the
    runtime is stable; an element is placed before the first element
    whose delay is not smaller. *)
Fixpoint insertByDelay (x : SampleData) (l : list SampleData) : list SampleData :=
  match l with
  | [] => [x]
  | y :: ys =>
      if Qle_bool (delay x) (delay y) then x :: l else y :: insertByDelay x ys
  end.

Definition sortByDelay (l : list SampleData) : list SampleData :=
  fold_right insertByDelay [] l.

(** ** The network and the clock *)

(** The outcome of [getNetworkTime] for one server: the promise is
    rejected, or resolved with the parsed reply (destination timestamp
    included); [checkedAt] is the clock read by [acceptResponse] when it
    runs on that reply. *)
Inductive Exchange :=
| Rejected (e : Error)
| Resolved (data : Packet.t) (checkedAt : Z).

Record Env := {
  network : nat -> ServerEndpoint -> Exchange;
  clock : nat -> Z
}.

Variable env : Env.

(** [getNetworkTime(...).then(data => { acceptResponse(data); return data })]
    in round [round]. *)
Definition timePromise (round : nat) (server : ServerEndpoint) : result Packet.t :=
  match network env round server with
  | Rejected e => Throw e
  | Resolved data checkedAt => _ <- acceptResponse checkedAt data ;; Ok data
  end.

(** [.filter(result => !(result instanceof Error))] *)
Fixpoint notErrors (l : list (result Packet.t)) : list Packet.t :=
  match l with
  | [] => []
  | Ok d :: rest => d :: notErrors rest
  | Throw _ :: rest => notErrors rest
  end.

(** The state of the [do ... while] loop of [collectSamples] when it is
    left: the rounds started so far, [ntpResults] and [retry]. *)
Record LoopExit := {
  roundsDone : nat;
  ntpResults : list Packet.t;
  retry : Z
}.

(** The [do ... while] loop; [round] counts the rounds already run.
    [None]: the loop is still running when the fuel is spent. *)
Fixpoint collectLoop (fuel : nat) (numSamples : Z)
         (round : nat) (ntpResults : list Packet.t) (retry : Z) : option LoopExit :=
  match fuel with
  | O => None
  | S fuel' =>
      let timePromises := map (timePromise round) (servers options) in
      let ntpResults := notErrors (map Ok ntpResults ++ timePromises) in
      let retry := if (len ntpResults =? 0)%Z then (retry + 1)%Z else retry in
      if (len ntpResults <? numSamples)%Z && (retry <? maxRetries options)%Z
      then collectLoop fuel' numSamples (S round) ntpResults retry
      else Some {| roundsDone := S round; ntpResults := ntpResults; retry := retry |}
  end.

(** [collectSamples(numSamples)], started when [round] rounds have been
    run; returns the number of rounds run afterwards and the selected
    samples or the error thrown. *)
Definition collectSamples (fuel : nat) (numSamples : Z) (round : nat)
  : option (nat * result (list SampleData)) :=
  match collectLoop fuel numSamples round [] 0 with
  | None => None
  | Some x =>
      Some (roundsDone x,
            if (len (ntpResults x) =? 0)%Z
            then Throw (ConnectionError (retry x))
            else
              let samples := map sampleOf (ntpResults x) in
              Ok (slice0 (sortByDelay samples) numSamples))
  end.

(** ** Aggregation *)

Definition avg (values : list number) : number :=
  let sum := fold_left (fun sum value => add sum value) values (Num 0) in
  div sum (Num (inject_Z (len values))).

Definition stdDev (values : list number) : real :=
  let avg_ := avg values in
  let squareDiffs :=
    map (fun value => let diff := sub value avg_ in mul diff diff) values in
  Math_sqrt (avg squareDiffs).

(** [date.setUTCMilliseconds(date.getUTCMilliseconds() + ms)] on a date
    whose time value is [t]: the milliseconds field is replaced by the
    integer part of the argument. *)
Definition addMilliseconds (t : Z) (ms : number) : option Z :=
  match add (Num (inject_Z (t mod 1000))) ms with
  | Num q => Some (t - t mod 1000 + truncate q)%Z
  | _ => None
  end.

(** The module-level variables [lastPoll] and [lastResult], shared by
    all instances of the process, and the use made of the environment
    so far. *)
Record Process := {
  lastPoll : option Z;
  lastResult : option (number * real);
  rounds : nat;
  reads : nat
}.

Definition Qlt_bool (a b : Q) : bool := negb (Qle_bool b a).

(** The guard [!force && lastPoll && Date.now() - lastPoll < ...]: the
    clock is read only when the first two operands are truthy. *)
Definition cacheIsFresh (force : bool) (p : Process) : bool * Process :=
  if force then (false, p)
  else match lastPoll p with
       | None => (false, p)
       | Some lp =>
           if (lp =? 0)%Z then (false, p)
           else
             let t := clock env (reads p) in
             (Qlt_bool (inject_Z (t - lp))
                       (Math_pow2 (NtpDefaults.minPoll defaults) * 1000),
              {| lastPoll := lastPoll p; lastResult := lastResult p;
                 rounds := rounds p; reads := S (reads p) |})
       end.

(** [getTime(force)]; [None] when the retry loop outlives the fuel. *)
Definition getTime (fuel : nat) (force : bool) (p : Process)
  : option (result NtpTimeResult.t * Process) :=
  let (fresh, p) := cacheIsFresh force p in
  if fresh then
    let date := clock env (reads p) in
    let p := {| lastPoll := lastPoll p; lastResult := lastResult p;
                rounds := rounds p; reads := S (reads p) |} in
    match lastResult p with
    | None => Some (Throw TypeError, p)
    | Some (offset, precision) =>
        Some (Ok {| NtpTimeResult.now := addMilliseconds date offset;
                    NtpTimeResult.offset := offset; NtpTimeResult.precision := precision |}, p)
    end
  else
    match collectSamples fuel (sampleCount options) (rounds p) with
    | None => None
    | Some (rounds', Throw e) =>
        Some (Throw e, {| lastPoll := lastPoll p; lastResult := lastResult p;
                          rounds := rounds'; reads := reads p |})
    | Some (rounds', Ok samples) =>
        let offset' :=
          div (fold_left (fun acc item => add acc (Num (offset item))) samples (Num 0))
              (Num (inject_Z (len samples))) in
        let precision' := stdDev (map (fun sample => Num (offset sample)) samples) in
        let poll := clock env (reads p) in
        let date := clock env (S (reads p)) in
        Some (Ok {| NtpTimeResult.now := addMilliseconds date offset';
                    NtpTimeResult.offset := offset'; NtpTimeResult.precision := precision' |},
              {| lastPoll := Some poll; lastResult := Some (offset', precision');
                 rounds := rounds'; reads := S (S (reads p)) |})
    end.

(** ** The packet encoder *)

(** The string first stored in [ntpData[0]]: leap indicator, version and
    mode in binary, left-padded to 2, 3 and 3 digits. *)
Definition flagsDigits (leapIndicator ntpVersion mode : Z) : str :=
  pad (toString2 (toUint32 leapIndicator)) 2 ["0"%char] Left
  ++ pad (toString2 (toUint32 ntpVersion)) 3 ["0"%char] Left
  ++ pad (toString2 (toUint32 mode)) 3 ["0"%char] Left.

(** The number [seconds * Math.pow(2, 32)], a double. *)
Definition ntpTimestampNumber (now : Z) : double :=
  let baseTime := (now - NtpDefaults.referenceDate defaults)%Z in
  let seconds := PrimFloat.div (double_of_Z baseTime) (double_of_Z 1000) in
  PrimFloat.mul seconds (double_of_Z (2 ^ 32)).

(** The string [ntpTimestamp] once padded. *)
Definition ntpTimestamp (now : Z) : str :=
  pad (double_toString2 (ntpTimestampNumber now)) 64 ["0"%char] Left.

(** [createPacket(leapIndicator = 3, ntpVersion = null, mode = 3)];
    [now] is the value of [new Date().getTime()]. *)
Definition createPacket (now : Z) (leapIndicator ntpVersion mode : option Z) : list Z :=
  let leapIndicator := match leapIndicator with Some x => x | None => 3%Z end in
  let mode := match mode with Some x => x | None => 3%Z end in
  let ntpVersion :=
    match ntpVersion with
    | Some v => if (v =? 0)%Z then NtpDefaults.version defaults else v
    | None => NtpDefaults.version defaults
    end in
  (* generate NTP packet *)
  let ntpData := repeat (Num 0) 48 in
  let ntpData := assign ntpData 0 (parseInt2 (flagsDigits leapIndicator ntpVersion mode)) in
  (* origin timestamp *)
  let ntpTimestamp := ntpTimestamp now in
  let ntpData := assign ntpData 24 (parseInt2 (substr ntpTimestamp 0 8)) in
  let ntpData := assign ntpData 25 (parseInt2 (substr ntpTimestamp 8 8)) in
  let ntpData := assign ntpData 26 (parseInt2 (substr ntpTimestamp 16 8)) in
  let ntpData := assign ntpData 27 (parseInt2 (substr ntpTimestamp 24 8)) in
  let ntpData := assign ntpData 28 (parseInt2 (substr ntpTimestamp 32 8)) in
  let ntpData := assign ntpData 29 (parseInt2 (substr ntpTimestamp 40 8)) in
  let ntpData := assign ntpData 30 (parseInt2 (substr ntpTimestamp 48 8)) in
  let ntpData := assign ntpData 31 (parseInt2 (substr ntpTimestamp 56 8)) in
  (* transmit timestamp *)
  let ntpData := assign ntpData 40 (parseInt2 (substr ntpTimestamp 0 8)) in
  let ntpData := assign ntpData 41 (parseInt2 (substr ntpTimestamp 8 8)) in
  let ntpData := assign ntpData 42 (parseInt2 (substr ntpTimestamp 16 8)) in
  let ntpData := assign ntpData 43 (parseInt2 (substr ntpTimestamp 24 8)) in
  let ntpData := assign ntpData 44 (parseInt2 (substr ntpTimestamp 32 8)) in
  let ntpData := assign ntpData 45 (parseInt2 (substr ntpTimestamp 40 8)) in
  let ntpData := assign ntpData 46 (parseInt2 (substr ntpTimestamp 48 8)) in
  let ntpData := assign ntpData 47 (parseInt2 (substr ntpTimestamp 56 8)) in
  Buffer_from ntpData.

End Engine.

(** ** The retry loop, round by round *)

Section Rounds.

Variable options : NtpTimeSyncOptions.
Variable env : Env.
Variable numSamples : Z.
Variable start : nat.      (* rounds run before [collectSamples] is called *)

(** The replies accepted in one round. *)
Definition accepted (round : nat) : list Packet.t :=
  notErrors (map (timePromise options env round) (servers options)).

(** The replies accumulated after [i] rounds of the call. *)
Fixpoint pool (i : nat) : list Packet.t :=
  match i with
  | O => []
  | S j => pool j ++ accepted (start + j)
  end.

(** The retry counter after [i] rounds: the rounds that left the pool
    empty. *)
Fixpoint retries (i : nat) : Z :=
  match i with
  | O => 0%Z
  | S j => if (len (pool (S j)) =? 0)%Z then (retries j + 1)%Z else retries j
  end.

(** The condition of the [while], evaluated after [i] rounds. *)
Definition continues (i : nat) : bool :=
  (len (pool i) <? numSamples)%Z && (retries i <? maxRetries options)%Z.

(** The state in which the loop is left when it is left after [k] rounds. *)
Definition exitAfter (k : nat) : LoopExit :=
  {| roundsDone := start + k; ntpResults := pool k; retry := retries k |}.

End Rounds.

(** ** [now] and the calls made in a process *)

Section Facade.

Variable options : NtpTimeSyncOptions.
Variable env : Env.

(** [now(force)]: the clock is read on entry, and the date read then is
    moved by the offset of the result of [getTime]. *)
Definition now (fuel : nat) (force : bool) (p : Process)
  : option (result (option Z) * Process) :=
  let now := clock env (reads p) in
  let p := {| lastPoll := lastPoll p; lastResult := lastResult p;
              rounds := rounds p; reads := S (reads p) |} in
  match getTime options env fuel force p with
  | None => None
  | Some (Throw e, q) => Some (Throw e, q)
  | Some (Ok timeResult, q) =>
      Some (Ok (addMilliseconds now (NtpTimeResult.offset timeResult)), q)
  end.

End Facade.

(** The states of the module-level variables that calls of [getTime] and
    [now], by any instances, lead to in a process. *)
Inductive reachable (env : Env) : Process -> Prop :=
| reachable_start :
    reachable env {| lastPoll := None; lastResult := None; rounds := 0; reads := 0 |}
| reachable_getTime options fuel force p r q :
    reachable env p ->
    getTime options env fuel force p = Some (r, q) ->
    reachable env q
| reachable_now options fuel force p r q :
    reachable env p ->
    now options env fuel force p = Some (r, q) ->
    reachable env q.

(** ** [getInstance] and the module-level [singleton] *)

(** An instance of the class: objects are told apart by the order of
    their allocation. *)
Record NtpTimeSync := {
  identity : nat;
  _options : Value
}.

Record Registry := {
  singleton : option NtpTimeSync;
  allocated : nat
}.

(** [new NtpTimeSync(options)] *)
Definition new (options : Value) (st : Registry) : result NtpTimeSync * Registry :=
  match constructor options with
  | Ok v =>
      (Ok {| identity := allocated st; _options := v |},
       {| singleton := singleton st; allocated := S (allocated st) |})
  | Throw e => (Throw e, st)
  end.

(** [NtpTimeSync.getInstance(options = {})] *)
Definition getInstance (options : Value) (st : Registry) : result NtpTimeSync * Registry :=
  let options := match options with VUndefined => VObject [] | _ => options end in
  match singleton st with
  | None =>
      match new options st with
      | (Ok created, st') =>
          (Ok created, {| singleton := Some created; allocated := allocated st' |})
      | (Throw e, st') => (Throw e, st')
      end
  | Some instance => (Ok instance, st)
  end.

(** The calls a program makes to obtain instances, and what they return. *)
Inductive Obtain :=
| ByGetInstance (options : Value)
| ByNew (options : Value).

Fixpoint obtain (calls : list Obtain) (st : Registry)
  : list (Obtain * result NtpTimeSync) :=
  match calls with
  | [] => []
  | ByGetInstance options :: rest =>
      let (r, st') := getInstance options st in
      (ByGetInstance options, r) :: obtain rest st'
  | ByNew options :: rest =>
      let (r, st') := new options st in
      (ByNew options, r) :: obtain rest st'
  end.

Definition emptyRegistry : Registry := {| singleton := None; allocated := 0 |}.

(** ** [getNetworkTime]: one exchange, callback by callback *)








(** ** Concrete environments *)

Definition goodReply : Packet.t := {|
  Packet.leapIndicator := 0;
  Packet.version := 4;
  Packet.stratum := 2;
  Packet.precision := -20;
  Packet.rootDelay := referenceDate1900 + 10;
  Packet.rootDispersion := referenceDate1900 + 20;
  Packet.originTimestamp := 1700000000000;
  Packet.receiveTimestamp := 1700000000035;
  Packet.transmitTimestamp := 1700000000036;
  Packet.destinationTimestamp := 1700000000020
|}.

(** A reply like [goodReply] from a server that reports stratum 16. *)
Definition stratum16Reply : Packet.t := {|
  Packet.leapIndicator := 0;
  Packet.version := 4;
  Packet.stratum := 16;
  Packet.precision := -20;
  Packet.rootDelay := referenceDate1900 + 10;
  Packet.rootDispersion := referenceDate1900 + 20;
  Packet.originTimestamp := 1700000000000;
  Packet.receiveTimestamp := 1700000000035;
  Packet.transmitTimestamp := 1700000000036;
  Packet.destinationTimestamp := 1700000000020
|}.

(** Every server answers every request. *)
Definition envUp : Env := {|
  network := fun _ _ => Resolved goodReply 1700000000021;
  clock := fun n => (1700000000100 + Z.of_nat n)%Z
|}.

(** The servers answer the requests of the first round only. *)
Definition envOnce : Env := {|
  network := fun round _ =>
               match round with
               | O => Resolved goodReply 1700000000021
               | S _ => Rejected Timeout
               end;
  clock := fun n => (1700000000100 + Z.of_nat n)%Z
|}.

(** No server ever answers. *)
Definition envDown : Env := {|
  network := fun _ _ => Rejected Timeout;
  clock := fun n => (1700000000100 + Z.of_nat n)%Z
|}.

Definition oneServer (sampleCount maxRetries : Z) : NtpTimeSyncOptions := {|
  servers := [{| host := of_string "0.pool.ntp.org"; port := 123 |}];
  sampleCount := sampleCount;
  replyTimeout := 3000;
  maxRetries := maxRetries;
  ntpDefaults := defaultNtpDefaults
|}.

(** An instant of November 2025, one millisecond after a full second. *)
Definition sampleInstant : Z := 1762041600001%Z.

(** 7 February 2036, 06:28:16 UTC: 2^32 seconds after the reference date. *)
Definition era1Instant : Z := 2085978496000%Z.

(** A process that has not polled yet. *)
Definition newProcess : Process := {|
  lastPoll := None;
  lastResult := None;
  rounds := 0;
  reads := 0
|}.

(** The properties of the default options object. *)
Definition defaultFields : list (str * Value) :=
  match NtpTimeSyncDefaultOptions with
  | VObject fields => fields
  | _ => []
  end.

(** ** The properties as the specification words them *)

Module Spec.

(** Selection: the samples in ascending order of delay. *)
Definition byDelay (a b : SampleData) : Prop := delay a <= delay b.

(** Arithmetic mean and population standard deviation. *)
Definition sum (l : list Q) : Q := fold_right Qplus 0 l.

Definition mean (l : list Q) : Q := sum l / inject_Z (len l).

Definition variance (l : list Q) : Q :=
  mean (map (fun x => (x - mean l) * (x - mean l)) l).

Definition stddev (l : list Q) : R := sqrt (Q2R (variance l)).

(** The per-sample formulas. *)
Definition sign (d : Packet.t) : Q :=
  if (Packet.destinationTimestamp d <? Packet.transmitTimestamp d)%Z then 1 else -1.

Definition offset (d : Packet.t) : Q :=
  sign d
  * (Qabs (inject_Z (Packet.receiveTimestamp d) - inject_Z (Packet.originTimestamp d))
     + Qabs (inject_Z (Packet.transmitTimestamp d) - inject_Z (Packet.destinationTimestamp d)))
  / 2.

Definition delay (precisionExp : Z) (d : Packet.t) : Q :=
  Qmax (inject_Z (Packet.destinationTimestamp d) - inject_Z (Packet.originTimestamp d)
        - (inject_Z (Packet.receiveTimestamp d) - inject_Z (Packet.transmitTimestamp d)))
       (2 ^ precisionExp).

(** The four grounds on which the validator rejects a reply. *)
Section Validator.
Variable options : NtpTimeSyncOptions.
Variable now : Z.
Variable d : Packet.t.

Let defaults := ntpDefaults options.

Definition rootDelaySeconds : Q :=
  (inject_Z (Packet.rootDelay d) - inject_Z (NtpDefaults.referenceDate defaults)) / 1000.

Definition rootDispersionSeconds : Q :=
  (inject_Z (Packet.rootDispersion d) - inject_Z (NtpDefaults.referenceDate defaults)) / 1000.

Definition versionTooHigh : Prop :=
  (NtpDefaults.version defaults < Packet.version d)%Z.

Definition unsynchronized : Prop :=
  Packet.leapIndicator d = 3%Z
  \/ (NtpDefaults.maxStratum defaults <= Packet.stratum d)%Z.

Definition tooDistant : Prop :=
  NtpDefaults.maxDispersion defaults <= rootDelaySeconds / 2 + rootDispersionSeconds.

Definition originInFuture : Prop :=
  (now < Packet.originTimestamp d)%Z.

Definition rejected : Prop :=
  versionTooHigh \/ unsynchronized \/ tooDistant \/ originInFuture.
End Validator.

(** The request timestamp: [round((nowMs - epochMs)/1000 * 2^32)], with
    the three readings of [round]. *)
Definition timestampExact (nowMs epochMs : Z) : Q :=
  inject_Z (nowMs - epochMs) / 1000 * inject_Z (2 ^ 32).

Definition timestampNearest (nowMs epochMs : Z) : Z :=
  Qfloor (timestampExact nowMs epochMs + (1 # 2)).

(** The number written by a string of binary digits. *)
Definition binaryValue (s : str) : Z :=
  fold_left (fun a c => (2 * a + (if Ascii.eqb c "1" then 1 else 0))%Z) s 0%Z.

Definition isBinary (s : str) : Prop :=
  Forall (fun c => c = "0"%char \/ c = "1"%char) s.

(** The [n] big-endian bytes of [v]. *)
Fixpoint bigEndian (n : nat) (v : Z) : list Z :=
  match n with
  | O => []
  | S n' => ((v / 2 ^ (8 * Z.of_nat n')) mod 256)%Z :: bigEndian n' v
  end.

End Spec.

(** * Properties *)

Lemma inject_Z_sub (a b : Z) : inject_Z (a - b) == inject_Z a - inject_Z b.
Proof.
  unfold Z.sub, Qminus. rewrite inject_Z_plus, inject_Z_opp. reflexivity.
Qed.

(** ** Response validator *)

Section ValidatorFacts.

Variable options : NtpTimeSyncOptions.

Lemma acceptResponse_cases (now : Z) (d : Packet.t) :
  (acceptResponse options now d = Ok tt /\ ~ Spec.rejected options now d)
  \/ ((exists e, acceptResponse options now d = Throw e) /\ Spec.rejected options now d).
Proof.
  unfold acceptResponse, Spec.rejected, Spec.versionTooHigh, Spec.unsynchronized,
    Spec.tooDistant, Spec.originInFuture, Spec.rootDelaySeconds,
    Spec.rootDispersionSeconds.
  destruct (Z.gtb_spec (Packet.version d) (NtpDefaults.version (ntpDefaults options)))
    as [Hv | Hv].
  { right. split; [eexists; reflexivity | left; lia]. }
  destruct (Z.eqb_spec (Packet.leapIndicator d) 3) as [Hl | Hl]; cbn [orb].
  { right. split; [eexists; reflexivity | right; left; left; exact Hl]. }
  destruct (Z.geb_spec (Packet.stratum d) (NtpDefaults.maxStratum (ntpDefaults options)))
    as [Hs | Hs].
  { right. split; [eexists; reflexivity | right; left; right; lia]. }
  match goal with
  | |- context [Qle_bool ?a ?b] => destruct (Qle_bool a b) eqn:Hd
  end.
  { right. split; [eexists; reflexivity |].
    right; right; left. apply Qle_bool_iff in Hd.
    rewrite !inject_Z_sub in Hd. exact Hd. }
  destruct (Z.gtb_spec (Packet.originTimestamp d) now) as [Ho | Ho].
  { right. split; [eexists; reflexivity | right; right; right; lia]. }
  left. split; [reflexivity |].
  intros [H | [[H | H] | [H | H]]]; try lia.
  rewrite <- !inject_Z_sub in H. apply Qle_bool_iff in H. congruence.
Qed.

(** C5. The validator rejects a reply exactly when its version exceeds
    the configured one, or its leap indicator is 3 or its stratum is at
    least [maxStratum], or half its root delay plus its root dispersion
    (in seconds from the reference date) reaches [maxDispersion], or
    its origin timestamp is later than the local time; otherwise the
    reply is accepted.  A reply of stratum 16 under [maxStratum = 16]
    is therefore rejected. *)
Theorem acceptResponse_rejects_iff (now : Z) (d : Packet.t) :
  ((exists e, acceptResponse options now d = Throw e) <-> Spec.rejected options now d)
  /\ (acceptResponse options now d = Ok tt <-> ~ Spec.rejected options now d)
  /\ (NtpDefaults.maxStratum (ntpDefaults options) = 16%Z ->
      Packet.stratum d = 16%Z ->
      exists e, acceptResponse options now d = Throw e).
Proof.
  destruct (acceptResponse_cases now d) as [[Hok Hn] | [[e He] Hr]].
  - repeat split; intros.
    + destruct H as [e He]. congruence.
    + contradiction.
    + exact Hn.
    + exact Hok.
    + exfalso. apply Hn. right; left; right.
      unfold Spec.unsynchronized. lia.
  - repeat split; intros; try eauto; try contradiction; try congruence.
Qed.

End ValidatorFacts.

(** ** Per-sample statistics *)

Section SampleFacts.

Variable options : NtpTimeSyncOptions.

Lemma Math_pow2_pos (e : Z) : 0 < Math_pow2 e.
Proof. unfold Math_pow2. apply Qpower_0_lt. reflexivity. Qed.

Lemma offsetSign_spec (d : Packet.t) :
  (if (Packet.transmitTimestamp d >? Packet.destinationTimestamp d)%Z then 1 else -1)
  = Spec.sign d.
Proof. unfold Spec.sign. rewrite Z.gtb_ltb. reflexivity. Qed.

(** C7. The sample computed from a reply has the offset
    [sign * (|receive - origin| + |transmit - destination|) / 2], where
    [sign] is [+1] when the transmit timestamp is later than the
    destination timestamp and [-1] otherwise (equality included), and
    the delay [max(destination - origin - (receive - transmit),
    2^precision)]; the delay is at least [2^precision] and positive. *)
Theorem sampleOf_formulas (d : Packet.t) :
  let s := sampleOf options d in
  let precisionExp := NtpDefaults.precision (ntpDefaults options) in
  data s = d
  /\ offset s == Spec.offset d
  /\ (Spec.sign d = (if (Packet.destinationTimestamp d <? Packet.transmitTimestamp d)%Z
                     then 1 else -1))
  /\ delay s == Spec.delay precisionExp d
  /\ 2 ^ precisionExp <= delay s
  /\ 0 < delay s.
Proof.
  cbn zeta. split; [reflexivity |]. split.
  { unfold sampleOf, Spec.offset; cbn [offset].
    rewrite offsetSign_spec, !inject_Z_sub.
    unfold Qdiv. ring. }
  split; [reflexivity |]. split.
  { unfold sampleOf, Spec.delay, Math_pow2; cbn [delay].
    rewrite !inject_Z_sub. reflexivity. }
  split.
  { unfold sampleOf; cbn [delay]. apply Q.le_max_r. }
  unfold sampleOf; cbn [delay].
  eapply Qlt_le_trans; [apply (Math_pow2_pos (NtpDefaults.precision (ntpDefaults options))) |].
  apply Q.le_max_r.
Qed.

End SampleFacts.

(** ** Selection of the best samples *)

Section SelectionFacts.

Variable options : NtpTimeSyncOptions.
Variable env : Env.

Lemma insertByDelay_perm (x : SampleData) (l : list SampleData) :
  Permutation (insertByDelay x l) (x :: l).
Proof.
  induction l as [| y ys IH]; cbn [insertByDelay].
  - apply Permutation_refl.
  - destruct (Qle_bool (delay x) (delay y)).
    + apply Permutation_refl.
    + apply perm_trans with (y :: x :: ys).
      * apply perm_skip, IH.
      * apply perm_swap.
Qed.

Lemma sortByDelay_perm (l : list SampleData) : Permutation (sortByDelay l) l.
Proof.
  induction l as [| x l IH]; cbn.
  - constructor.
  - eapply perm_trans; [apply insertByDelay_perm |].
    apply perm_skip, IH.
Qed.

Lemma byDelay_trans (a b c : SampleData) :
  Spec.byDelay a b -> Spec.byDelay b c -> Spec.byDelay a c.
Proof. unfold Spec.byDelay. apply Qle_trans. Qed.

Lemma insertByDelay_sorted (x : SampleData) (l : list SampleData) :
  StronglySorted Spec.byDelay l -> StronglySorted Spec.byDelay (insertByDelay x l).
Proof.
  induction 1 as [| y ys Hs IH Hall]; cbn [insertByDelay].
  - constructor; constructor.
  - destruct (Qle_bool (delay x) (delay y)) eqn:E.
    + apply Qle_bool_iff in E.
      constructor; [constructor; assumption |].
      constructor; [exact E |].
      eapply Forall_impl; [| exact Hall].
      intros z Hz. eapply byDelay_trans; [exact E | exact Hz].
    + assert (Hyx : Spec.byDelay y x).
      { unfold Spec.byDelay. apply Qlt_le_weak, Qnot_le_lt.
        intro H. apply Qle_bool_iff in H. congruence. }
      constructor; [exact IH |].
      eapply Permutation_Forall.
      * apply Permutation_sym, insertByDelay_perm.
      * constructor; assumption.
Qed.

Lemma sortByDelay_sorted (l : list SampleData) :
  StronglySorted Spec.byDelay (sortByDelay l).
Proof.
  induction l as [| x l IH]; cbn.
  - constructor.
  - apply insertByDelay_sorted, IH.
Qed.

Lemma in_skipn {A} (k : nat) (l : list A) (b : A) : In b (skipn k l) -> In b l.
Proof.
  intros H. rewrite <- (firstn_skipn k l). apply in_or_app. right. exact H.
Qed.

Lemma sorted_prefix_below_rest (k : nat) (l : list SampleData) :
  StronglySorted Spec.byDelay l ->
  forall a b, In a (firstn k l) -> In b (skipn k l) -> Spec.byDelay a b.
Proof.
  intros Hs. revert k.
  induction Hs as [| y ys Hs IH Hall]; intros k a b Ha Hb.
  - rewrite firstn_nil in Ha. contradiction.
  - destruct k as [| k]; [contradiction |].
    cbn in Ha, Hb. destruct Ha as [<- | Ha].
    + rewrite Forall_forall in Hall. apply Hall.
      apply (in_skipn _ _ _ Hb).
    + eapply IH; eassumption.
Qed.

Lemma slice0_firstn {A} (l : list A) (stop : Z) :
  (0 <= stop)%Z -> slice0 l stop = firstn (Z.to_nat stop) l.
Proof.
  intros H. unfold slice0.
  destruct (Z.ltb_spec stop 0); [lia | reflexivity].
Qed.

Lemma len_firstn {A} (l : list A) (stop : Z) :
  (0 <= stop)%Z -> len (firstn (Z.to_nat stop) l) = Z.min stop (len l).
Proof. intros H. unfold len. rewrite length_firstn. lia. Qed.

Lemma collectSamples_inv (fuel : nat) (numSamples : Z) (round n : nat)
      (r : result (list SampleData)) :
  collectSamples options env fuel numSamples round = Some (n, r) ->
  exists x,
    collectLoop options env fuel numSamples round [] 0 = Some x
    /\ n = roundsDone x
    /\ r = (if (len (ntpResults x) =? 0)%Z
            then Throw (ConnectionError (retry x))
            else Ok (slice0 (sortByDelay (map (sampleOf options) (ntpResults x)))
                            numSamples)).
Proof.
  unfold collectSamples.
  destruct (collectLoop options env fuel numSamples round [] 0) as [x |];
    [| discriminate].
  intros H. injection H as <- <-. exists x. repeat split.
Qed.

(** C8. The samples selected by a run of [collectSamples] are the first
    [sampleCount] elements of the list of all accepted samples put in
    ascending order of delay (a permutation of the accepted samples);
    their number is the minimum of [sampleCount] and the number of
    accepted samples, and no sample left out has a smaller delay than
    a selected one. *)
Theorem collectSamples_selects_prefix
        (fuel : nat) (numSamples : Z) (round n : nat) (samples : list SampleData) :
  (0 <= numSamples)%Z ->
  collectSamples options env fuel numSamples round = Some (n, Ok samples) ->
  exists accepted : list Packet.t,
    option_map (@ntpResults) (collectLoop options env fuel numSamples round [] 0)
      = Some accepted
    /\ let all := sortByDelay (map (sampleOf options) accepted) in
       Permutation all (map (sampleOf options) accepted)
       /\ StronglySorted Spec.byDelay all
       /\ samples = firstn (Z.to_nat numSamples) all
       /\ all = samples ++ skipn (Z.to_nat numSamples) all
       /\ len samples = Z.min numSamples (len accepted)
       /\ (forall a b, In a samples -> In b (skipn (Z.to_nat numSamples) all) ->
                       delay a <= delay b).
Proof.
  intros Hn H.
  destruct (collectSamples_inv _ _ _ H) as (x & Hx & _ & Hr).
  exists (ntpResults x). rewrite Hx. split; [reflexivity |].
  destruct (len (ntpResults x) =? 0)%Z; [discriminate |].
  injection Hr as ->. cbn zeta.
  rewrite slice0_firstn by assumption.
  split; [apply sortByDelay_perm |].
  split; [apply sortByDelay_sorted |].
  split; [reflexivity |].
  split; [symmetry; apply firstn_skipn |].
  split.
  - rewrite len_firstn by assumption. f_equal.
    unfold len. rewrite (Permutation_length (sortByDelay_perm _)), length_map.
    reflexivity.
  - intros a b Ha Hb.
    exact (sorted_prefix_below_rest _ (sortByDelay_sorted _) _ _ Ha Hb).
Qed.

End SelectionFacts.

(** ** Aggregation of the selected samples *)

Section AggregateFacts.

Lemma fold_add_Num (l : list Q) (a : Q) :
  fold_left (fun sum value => add sum value) (map Num l) (Num a)
  = Num (fold_left Qplus l a).
Proof.
  revert a. induction l as [| x l IH]; intros a; cbn; [reflexivity | apply IH].
Qed.

Lemma fold_add_offsets (samples : list SampleData) (a : Q) :
  fold_left (fun acc item => add acc (Num (offset item))) samples (Num a)
  = Num (fold_left Qplus (map (@offset) samples) a).
Proof.
  revert a. induction samples as [| x l IH]; intros a; cbn; [reflexivity | apply IH].
Qed.

Lemma fold_Qplus_sum (l : list Q) (a : Q) : fold_left Qplus l a == a + Spec.sum l.
Proof.
  revert a. induction l as [| x l IH]; intros a;
    unfold Spec.sum; cbn [fold_left fold_right].
  - ring.
  - rewrite IH. unfold Spec.sum. ring.
Qed.

Lemma len_pos {A} (l : list A) : l <> [] -> (0 < len l)%Z.
Proof. destruct l; [congruence | intros _; unfold len; cbn; lia]. Qed.

Lemma is_zero_len {A} (l : list A) : l <> [] -> is_zero (inject_Z (len l)) = false.
Proof.
  intros H. apply len_pos in H. unfold is_zero.
  destruct (Qeq_bool (inject_Z (len l)) 0) eqn:E; [| reflexivity].
  apply Qeq_bool_eq in E. unfold Qeq in E. cbn in E. lia.
Qed.

Lemma len_map {A B} (f : A -> B) (l : list A) : len (map f l) = len l.
Proof. unfold len. rewrite length_map. reflexivity. Qed.

Lemma avg_Num (l : list Q) :
  l <> [] -> avg (map Num l) = Num (fold_left Qplus l 0 / inject_Z (len l)).
Proof.
  intros H. unfold avg. rewrite fold_add_Num, len_map. unfold div.
  rewrite (is_zero_len H). reflexivity.
Qed.

Lemma code_mean (l : list Q) :
  fold_left Qplus l 0 / inject_Z (len l) == Spec.mean l.
Proof. unfold Spec.mean. rewrite fold_Qplus_sum. unfold Qdiv. ring. Qed.

Lemma sum_ext (f g : Q -> Q) (l : list Q) :
  (forall x, f x == g x) -> Spec.sum (map f l) == Spec.sum (map g l).
Proof.
  intros H. induction l as [| x l IH]; unfold Spec.sum; cbn [map fold_right];
    [reflexivity |].
  fold (Spec.sum (map f l)). fold (Spec.sum (map g l)).
  rewrite IH, H. reflexivity.
Qed.

Lemma mean_ext (f g : Q -> Q) (l : list Q) :
  (forall x, f x == g x) -> Spec.mean (map f l) == Spec.mean (map g l).
Proof.
  intros H. unfold Spec.mean. rewrite !len_map, (sum_ext f g l H). reflexivity.
Qed.

Lemma sum_squares_nonneg (m : Q) (l : list Q) :
  0 <= Spec.sum (map (fun x => (x - m) * (x - m)) l).
Proof.
  induction l as [| x l IH]; unfold Spec.sum; cbn [map fold_right];
    [apply Qle_refl |].
  fold (Spec.sum (map (fun x => (x - m) * (x - m)) l)).
  assert (H : 0 <= (x - m) * (x - m)).
  { generalize (Qsqr_nonneg (x - m)). cbn. intros H. exact H. }
  setoid_replace 0 with (0 + 0) at 1 by ring.
  apply Qplus_le_compat; assumption.
Qed.

Lemma variance_nonneg (l : list Q) : 0 <= Spec.variance l.
Proof.
  unfold Spec.variance, Spec.mean at 1. rewrite len_map.
  destruct l as [| x l].
  - cbn. discriminate.
  - apply Qle_shift_div_l.
    + assert (Hl : (0 < len (x :: l))%Z) by (apply len_pos; discriminate).
      unfold Qlt. cbn [inject_Z Qnum Qden]. lia.
    + rewrite Qmult_0_l. apply sum_squares_nonneg.
Qed.

(** The value computed by [stdDev] on finite numbers. *)
Lemma stdDev_Num (l : list Q) :
  l <> [] -> stdDev (map Num l) = RNum (Spec.stddev l).
Proof.
  intros H. unfold stdDev. rewrite (avg_Num H). rewrite map_map.
  set (m := fold_left Qplus l 0 / inject_Z (len l)).
  assert (Hmap : map (fun x => mul (sub (Num x) (Num m)) (sub (Num x) (Num m))) l
                 = map Num (map (fun x => (x + - m) * (x + - m)) l)).
  { rewrite map_map. reflexivity. }
  rewrite Hmap.
  assert (Hne : map (fun x => (x + - m) * (x + - m)) l <> []).
  { destruct l; [congruence | discriminate]. }
  rewrite (avg_Num Hne).
  assert (Hv : fold_left Qplus (map (fun x => (x + - m) * (x + - m)) l) 0
               / inject_Z (len (map (fun x => (x + - m) * (x + - m)) l))
               == Spec.variance l).
  { rewrite code_mean. unfold Spec.variance.
    apply mean_ext.
    intros x. unfold m. rewrite code_mean. unfold Qminus. reflexivity. }
  unfold Math_sqrt, is_neg.
  assert (Hpos : Qle_bool 0
            (fold_left Qplus (map (fun x => (x + - m) * (x + - m)) l) 0
             / inject_Z (len (map (fun x => (x + - m) * (x + - m)) l))) = true).
  { apply Qle_bool_iff. rewrite Hv. apply variance_nonneg. }
  rewrite Hpos. cbn [negb]. unfold Spec.stddev.
  rewrite (Qeq_eqR _ _ Hv). reflexivity.
Qed.

Lemma stddev_nonneg (l : list Q) : (0 <= Spec.stddev l)%R.
Proof. unfold Spec.stddev. apply sqrt_pos. Qed.

Lemma stddev_singleton (x : Q) : Spec.stddev [x] = 0%R.
Proof.
  unfold Spec.stddev.
  assert (H : Spec.variance [x] == 0).
  { unfold Spec.variance, Spec.mean, Spec.sum, len. cbn. field. }
  rewrite (Qeq_eqR _ _ H). unfold Q2R. cbn.
  rewrite Rmult_0_l. apply sqrt_0.
Qed.

End AggregateFacts.

(** ** The retry loop *)

Section RetryFacts.

Variable options : NtpTimeSyncOptions.
Variable env : Env.
Variable numSamples : Z.
Variable start : nat.

Local Abbreviation pool_ := (pool options env start).
Local Abbreviation retries_ := (retries options env start).
Local Abbreviation continues_ := (continues options env numSamples start).
Local Abbreviation exitAfter_ := (exitAfter options env start).

Lemma notErrors_app (a b : list (result Packet.t)) :
  notErrors (a ++ b) = notErrors a ++ notErrors b.
Proof.
  induction a as [| [d | e] a IH]; cbn; [reflexivity | f_equal; exact IH | exact IH].
Qed.

Lemma notErrors_Ok (l : list Packet.t) : notErrors (map Ok l) = l.
Proof. induction l as [| d l IH]; cbn; [reflexivity | f_equal; exact IH]. Qed.

(** One iteration of the loop, from the state reached after [i] rounds. *)
Lemma collectLoop_step (fuel i : nat) :
  collectLoop options env (S fuel) numSamples (start + i) (pool_ i) (retries_ i)
  = if continues_ (S i)
    then collectLoop options env fuel numSamples (start + S i) (pool_ (S i)) (retries_ (S i))
    else Some (exitAfter_ (S i)).
Proof.
  cbn [collectLoop]. rewrite notErrors_app, notErrors_Ok.
  change (pool_ i ++ notErrors (map (timePromise options env (start + i)) (servers options)))
    with (pool_ (S i)).
  change (if (len (pool_ (S i)) =? 0)%Z then (retries_ i + 1)%Z else retries_ i)
    with (retries_ (S i)).
  unfold continues at 1, exitAfter.
  rewrite Nat.add_succ_r. reflexivity.
Qed.

Lemma collectLoop_runs (m : nat) :
  forall i fuel,
    (forall j, (i < j <= i + m)%nat -> continues_ j = true) ->
    continues_ (S (i + m)) = false ->
    (m < fuel)%nat ->
    collectLoop options env fuel numSamples (start + i) (pool_ i) (retries_ i)
    = Some (exitAfter_ (S (i + m))).
Proof.
  induction m as [| m IH]; intros i fuel Hgo Hstop Hfuel;
    (destruct fuel as [| fuel]; [lia |]); rewrite collectLoop_step.
  - rewrite Nat.add_0_r in Hstop. rewrite Hstop. rewrite Nat.add_0_r. reflexivity.
  - rewrite (Hgo (S i)) by lia.
    replace (S (i + S m)) with (S (S i + m)) in * by lia.
    apply IH; [intros j Hj; apply Hgo; lia | exact Hstop | lia].
Qed.

Lemma collectLoop_sound (fuel : nat) :
  forall i x,
    collectLoop options env fuel numSamples (start + i) (pool_ i) (retries_ i) = Some x ->
    exists k, (i < k)%nat /\ x = exitAfter_ k /\ continues_ k = false
              /\ forall j, (i < j < k)%nat -> continues_ j = true.
Proof.
  induction fuel as [| fuel IH]; intros i x H; [discriminate |].
  rewrite collectLoop_step in H.
  destruct (continues_ (S i)) eqn:E.
  - destruct (IH _ _ H) as (k & Hk & Hx & Hstop & Hgo).
    exists k. split; [lia |]. split; [exact Hx |]. split; [exact Hstop |].
    intros j Hj. destruct (Nat.eq_dec j (S i)) as [-> | Hne]; [exact E |].
    apply Hgo. lia.
  - injection H as <-. exists (S i). repeat split; try assumption; lia.
Qed.

Lemma retries_nonempty (k : nat) :
  pool_ 1 <> [] -> retries_ k = 0%Z.
Proof.
  intros H.
  assert (Hp : forall j, (1 <= j)%nat -> pool_ j <> []).
  { induction j as [| j IHj]; [lia |]. intros _.
    destruct j as [| j]; [exact H |].
    change (pool_ (S (S j))) with (pool_ (S j) ++ accepted options env (start + S j)).
    intro Hnil. apply app_eq_nil in Hnil. apply (IHj ltac:(lia)). tauto. }
  induction k as [| k IHk]; [reflexivity |].
  change (retries_ (S k))
    with (if (len (pool_ (S k)) =? 0)%Z then (retries_ k + 1)%Z else retries_ k).
  assert (Hl : (0 < len (pool_ (S k)))%Z) by (apply len_pos, Hp; lia).
  destruct (Z.eqb_spec (len (pool_ (S k))) 0); [lia | exact IHk].
Qed.

(** C1 (as amended). A further round is started exactly while the
    replies accumulated over the rounds run so far are fewer than
    [numSamples] and the retry counter, which counts the rounds that
    left the pool empty, is below [maxRetries]: the loop leaves after
    the first round [k] at which this fails, with the accumulated
    replies, and it cannot leave otherwise.  In particular a first
    round that yields at least one reply but fewer than [numSamples] is
    followed by a second round when [maxRetries] is positive. *)
Theorem collectLoop_round_count :
  (forall k, (1 <= k)%nat ->
     (forall j, (1 <= j < k)%nat -> continues options env numSamples start j = true) ->
     continues options env numSamples start k = false ->
     forall fuel, (k <= fuel)%nat ->
       collectLoop options env fuel numSamples start [] 0
       = Some {| roundsDone := start + k;
                 ntpResults := pool options env start k;
                 retry := retries options env start k |})
  /\ (forall fuel x,
        collectLoop options env fuel numSamples start [] 0 = Some x ->
        exists k, (1 <= k)%nat
                  /\ x = {| roundsDone := start + k;
                            ntpResults := pool options env start k;
                            retry := retries options env start k |}
                  /\ continues options env numSamples start k = false
                  /\ forall j, (1 <= j < k)%nat ->
                               continues options env numSamples start j = true)
  /\ ((1 <= len (accepted options env start) < numSamples)%Z ->
      (0 < maxRetries options)%Z ->
      continues options env numSamples start 1 = true).
Proof.
  split; [| split].
  - intros k Hk Hgo Hstop fuel Hfuel.
    destruct k as [| k]; [lia |].
    generalize (@collectLoop_runs k 0 fuel). rewrite Nat.add_0_r. cbn [Nat.add].
    intros H. apply H; [intros j Hj; apply Hgo; lia | exact Hstop | lia].
  - intros fuel x H.
    generalize (@collectLoop_sound fuel 0 x). rewrite Nat.add_0_r.
    intros Hs. destruct (Hs H) as (k & Hk & Hx & Hstop & Hgo).
    exists k. split; [lia |]. split; [exact Hx |]. split; [exact Hstop |].
    intros j Hj. apply Hgo. lia.
  - intros Hlen Hmax.
    assert (Hne : pool_ 1 <> []).
    { cbn [pool app]. rewrite Nat.add_0_r.
      intro Hnil. rewrite Hnil in Hlen. cbn in Hlen. lia. }
    unfold continues. rewrite (retries_nonempty 1 Hne).
    cbn [pool app]. rewrite Nat.add_0_r.
    apply andb_true_intro. split; [apply Z.ltb_lt; lia | apply Z.ltb_lt; lia].
Qed.

End RetryFacts.

(** ** [getTime]: exhaustion, aggregation and the cache *)

Section GetTimeFacts.

Variable options : NtpTimeSyncOptions.
Variable env : Env.

Lemma cacheIsFresh_keeps (force : bool) (p : Process) :
  let q := snd (cacheIsFresh options env force p) in
  lastPoll q = lastPoll p /\ lastResult q = lastResult p /\ rounds q = rounds p.
Proof.
  unfold cacheIsFresh. destruct force; [cbn; auto |].
  destruct (lastPoll p) as [lp |] eqn:E; [| cbn; auto].
  destruct (lp =? 0)%Z; cbn; auto.
Qed.

Lemma getTime_fresh (fuel : nat) (force : bool) (p : Process) :
  fst (cacheIsFresh options env force p) = false ->
  getTime options env fuel force p
  = let q := snd (cacheIsFresh options env force p) in
    match collectSamples options env fuel (sampleCount options) (rounds q) with
    | None => None
    | Some (rounds', Throw e) =>
        Some (Throw e, {| lastPoll := lastPoll q; lastResult := lastResult q;
                          rounds := rounds'; reads := reads q |})
    | Some (rounds', Ok samples) =>
        let offset' :=
          div (fold_left (fun acc item => add acc (Num (offset item))) samples (Num 0))
              (Num (inject_Z (len samples))) in
        let precision' := stdDev (map (fun sample => Num (offset sample)) samples) in
        Some (Ok {| NtpTimeResult.now := addMilliseconds (clock env (S (reads q))) offset';
                    NtpTimeResult.offset := offset'; NtpTimeResult.precision := precision' |},
              {| lastPoll := Some (clock env (reads q));
                 lastResult := Some (offset', precision');
                 rounds := rounds'; reads := S (S (reads q)) |})
    end.
Proof.
  intros H. unfold getTime.
  destruct (cacheIsFresh options env force p) as [fresh q]. cbn in H. subst fresh.
  reflexivity.
Qed.

Section AllFail.

Variable numSamples : Z.
Variable start : nat.

Hypothesis allFail :
  forall round server, In server (servers options) ->
                       exists e, timePromise options env round server = Throw e.

Lemma accepted_allFail (round : nat) : accepted options env round = [].
Proof.
  unfold accepted.
  assert (H : forall l, incl l (servers options) ->
                        notErrors (map (timePromise options env round) l) = []).
  { induction l as [| s l IH]; intros Hl; [reflexivity |].
    cbn. destruct (allFail round s) as [e ->]; [apply Hl; left; reflexivity |].
    apply IH. intros x Hx. apply Hl. right. exact Hx. }
  apply H, incl_refl.
Qed.

Lemma pool_allFail (k : nat) : pool options env start k = [].
Proof.
  induction k as [| k IH]; [reflexivity |].
  cbn [pool]. rewrite IH, accepted_allFail. reflexivity.
Qed.

Lemma retries_allFail (k : nat) : retries options env start k = Z.of_nat k.
Proof.
  induction k as [| k IH]; [reflexivity |].
  cbn [retries]. rewrite pool_allFail, IH. cbn. lia.
Qed.

Lemma continues_allFail (k : nat) :
  (1 <= numSamples)%Z ->
  continues options env numSamples start k = (Z.of_nat k <? maxRetries options)%Z.
Proof.
  intros H. unfold continues. rewrite pool_allFail, retries_allFail.
  destruct (Z.ltb_spec (len (@nil Packet.t)) numSamples) as [_ | Hc];
    [reflexivity | cbn in Hc; lia].
Qed.

Lemma collectSamples_allFail (fuel : nat) :
  (1 <= numSamples)%Z ->
  (Z.max 1 (maxRetries options) <= Z.of_nat fuel)%Z ->
  collectSamples options env fuel numSamples start
  = Some ((start + Z.to_nat (Z.max 1 (maxRetries options)))%nat,
          Throw (ConnectionError (Z.max 1 (maxRetries options)))).
Proof.
  intros Hn Hfuel.
  set (K := Z.to_nat (Z.max 1 (maxRetries options))).
  assert (HK : (1 <= K)%nat) by (unfold K; lia).
  unfold collectSamples.
  generalize (@collectLoop_runs options env numSamples start (K - 1) 0 fuel).
  rewrite Nat.add_0_r. cbn [Nat.add pool retries].
  replace (S (K - 1)) with K by lia.
  intros H. rewrite H.
  - cbn [roundsDone ntpResults retry exitAfter].
    rewrite pool_allFail, retries_allFail.
    change (len (@nil Packet.t) =? 0)%Z with true. cbv iota.
    replace (Z.of_nat K) with (Z.max 1 (maxRetries options)) by (unfold K; lia).
    reflexivity.
  - intros j Hj. rewrite continues_allFail by assumption.
    apply Z.ltb_lt. unfold K in *. lia.
  - rewrite continues_allFail by assumption.
    apply Z.ltb_ge. unfold K. lia.
  - unfold K in *. lia.
Qed.

End AllFail.

(** C3 (as amended). When a network round is needed and every exchange
    of every round fails, whatever the errors of the exchanges are,
    [getTime] runs exactly [max(1, maxRetries)] rounds ([sampleCount]
    being at least 1) and rejects with the connection error that reports
    this count; the cache is left as it was.  And whenever [getTime]
    rejects after a network round, it rejects with a connection error: no
    error of a single exchange reaches the caller. *)
Theorem getTime_exhaustion (fuel : nat) (force : bool) (p : Process) :
  fst (cacheIsFresh options env force p) = false ->
  ((1 <= sampleCount options)%Z ->
   (forall round server, In server (servers options) ->
                         exists e, timePromise options env round server = Throw e) ->
   (Z.max 1 (maxRetries options) <= Z.of_nat fuel)%Z ->
   exists q,
     getTime options env fuel force p
     = Some (Throw (ConnectionError (Z.max 1 (maxRetries options))), q)
     /\ rounds q = (rounds p + Z.to_nat (Z.max 1 (maxRetries options)))%nat
     /\ lastPoll q = lastPoll p
     /\ lastResult q = lastResult p)
  /\ (forall e q,
        getTime options env fuel force p = Some (Throw e, q) ->
        exists n, e = ConnectionError n).
Proof.
  intros Hmiss. rewrite (getTime_fresh fuel force p Hmiss). cbn zeta.
  destruct (cacheIsFresh_keeps force p) as (Hlp & Hlr & Hr).
  split.
  - intros Hn Hfail Hfuel.
    rewrite (@collectSamples_allFail (sampleCount options) (rounds _) Hfail fuel Hn Hfuel).
    eexists. split; [reflexivity |]. cbn [rounds lastPoll lastResult].
    rewrite Hr. auto.
  - intros e q H.
    destruct (collectSamples options env fuel (sampleCount options)
                (rounds (snd (cacheIsFresh options env force p))))
      as [[n r] |] eqn:E; [| discriminate].
    destruct (collectSamples_inv _ _ _ _ _ E) as (x & _ & _ & Hres).
    destruct r as [samples | e']; [discriminate |].
    injection H as <- _.
    destruct (len (ntpResults x) =? 0)%Z; [| discriminate].
    injection Hres as ->. eexists. reflexivity.
Qed.

(** C6 (as amended). When the round selects a non-empty list of samples,
    the offset returned by [getTime] is the arithmetic mean of their
    offsets and the precision is the population standard deviation of
    their offsets (the square root of the mean squared deviation from the
    mean); the precision is not negative, and it is 0 when exactly one
    sample is selected. *)
Theorem getTime_aggregate (fuel : nat) (force : bool) (p : Process)
        (n : nat) (samples : list SampleData) :
  fst (cacheIsFresh options env force p) = false ->
  collectSamples options env fuel (sampleCount options)
    (rounds (snd (cacheIsFresh options env force p))) = Some (n, Ok samples) ->
  samples <> [] ->
  exists r q m,
    getTime options env fuel force p = Some (Ok r, q)
    /\ NtpTimeResult.offset r = Num m
    /\ m == Spec.mean (map (@offset) samples)
    /\ NtpTimeResult.precision r = RNum (Spec.stddev (map (@offset) samples))
    /\ (0 <= Spec.stddev (map (@offset) samples))%R
    /\ (length samples = 1%nat -> NtpTimeResult.precision r = RNum 0).
Proof.
  intros Hmiss Hc Hne.
  rewrite (getTime_fresh fuel force p Hmiss). cbn zeta. rewrite Hc.
  assert (Hne' : map (@offset) samples <> []).
  { destruct samples; [congruence | discriminate]. }
  eexists. eexists. exists (fold_left Qplus (map (@offset) samples) 0
                            / inject_Z (len (map (@offset) samples))).
  split; [reflexivity |]. cbn [NtpTimeResult.offset NtpTimeResult.precision].
  split.
  { rewrite fold_add_offsets, len_map. unfold div.
    rewrite (is_zero_len Hne). reflexivity. }
  split; [apply code_mean |].
  rewrite <- (map_map (@offset) Num).
  rewrite (stdDev_Num Hne').
  split; [reflexivity |].
  split; [apply stddev_nonneg |].
  intros H1. destruct samples as [| s [| s' rest]]; try discriminate.
  cbn [map]. rewrite stddev_singleton. reflexivity.
Qed.

End GetTimeFacts.

(** ** The cache *)

Section CacheFacts.

Variable env : Env.

Lemma addMilliseconds_integer (t k : Z) :
  addMilliseconds t (Num (inject_Z k)) = Some (t + k)%Z.
Proof.
  unfold addMilliseconds, add.
  assert (H : inject_Z (t mod 1000) + inject_Z k == inject_Z (t mod 1000 + k)).
  { rewrite inject_Z_plus. reflexivity. }
  f_equal. unfold truncate.
  destruct (Qle_bool 0 (inject_Z (t mod 1000) + inject_Z k)).
  - rewrite (Qfloor_comp _ _ H), Qfloor_Z. lia.
  - rewrite (Qceiling_comp _ _ H), Qceiling_Z. lia.
Qed.

Lemma default_poll_window :
  Math_pow2 (NtpDefaults.minPoll (ntpDefaults defaultOptions)) * 1000 == 16000.
Proof. reflexivity. Qed.

(** C4. Let a first call of [getTime] complete a network round, the clock
    read stored on completion being non-zero.  A call [getTime(false)]
    made next in the process, by any instance, whose clock read is less
    than [2^minPoll] seconds later than the stored one runs no network
    round and returns the offset and the precision of the first call; its
    [now] is a fresh read of the clock moved by the cached offset (the
    read plus the offset when the offset is an integer), and the cache
    is left as it was. *)
Theorem getTime_serves_cache
        (options1 options2 : NtpTimeSyncOptions) (fuel1 fuel2 : nat)
        (force1 : bool) (p0 p1 : Process) (r1 : NtpTimeResult.t) :
  fst (cacheIsFresh options1 env force1 p0) = false ->
  getTime options1 env fuel1 force1 p0 = Some (Ok r1, p1) ->
  let completed := clock env (reads (snd (cacheIsFresh options1 env force1 p0))) in
  completed <> 0%Z ->
  inject_Z (clock env (reads p1) - completed)
  < Math_pow2 (NtpDefaults.minPoll (ntpDefaults options2)) * 1000 ->
  exists r2 p2,
    getTime options2 env fuel2 false p1 = Some (Ok r2, p2)
    /\ rounds p2 = rounds p1
    /\ NtpTimeResult.offset r2 = NtpTimeResult.offset r1
    /\ NtpTimeResult.precision r2 = NtpTimeResult.precision r1
    /\ NtpTimeResult.now r2 = addMilliseconds (clock env (S (reads p1))) (NtpTimeResult.offset r1)
    /\ (forall k, NtpTimeResult.offset r1 = Num (inject_Z k) ->
                  NtpTimeResult.now r2 = Some (clock env (S (reads p1)) + k)%Z)
    /\ lastPoll p2 = lastPoll p1
    /\ lastResult p2 = lastResult p1.
Proof.
  intros Hmiss H completed Hnz Hwin.
  rewrite (getTime_fresh options1 env fuel1 force1 p0 Hmiss) in H. cbn zeta in H.
  fold completed in H. unfold completed in *. clear completed.
  remember (snd (cacheIsFresh options1 env force1 p0)) as q0 eqn:Hq0. clear Hq0 Hmiss.
  destruct (collectSamples options1 env fuel1 (sampleCount options1) (rounds q0))
    as [[n [samples | e]] |]; try discriminate.
  injection H as <- <-. cbn [reads] in Hwin.
  unfold getTime, cacheIsFresh. cbn [lastPoll lastResult rounds reads].
  destruct (Z.eqb_spec (clock env (reads q0)) 0) as [| _]; [contradiction |].
  assert (Hq : Qlt_bool (inject_Z (clock env (S (S (reads q0))) - clock env (reads q0)))
                        (Math_pow2 (NtpDefaults.minPoll (ntpDefaults options2)) * 1000)
               = true).
  { unfold Qlt_bool. apply negb_true_iff.
    destruct (Qle_bool _ _) eqn:E; [| reflexivity].
    apply Qle_bool_iff in E. exfalso. exact (Qlt_not_le _ _ Hwin E). }
  rewrite Hq. cbn [lastResult reads rounds lastPoll].
  eexists. eexists. split; [reflexivity |].
  cbn [rounds NtpTimeResult.offset NtpTimeResult.precision NtpTimeResult.now lastPoll lastResult reads].
  repeat (split; [reflexivity |]).
  split; [| split; reflexivity].
  intros k Hk. rewrite Hk. apply addMilliseconds_integer.
Qed.

End CacheFacts.

(** ** Option objects *)

Section OptionFacts.

Lemma str_eqb_refl (a : str) : str_eqb a a = true.
Proof. unfold str_eqb. destruct (list_eq_dec ascii_dec a a); congruence. Qed.

Lemma str_eqb_eq (a b : str) : str_eqb a b = true <-> a = b.
Proof. unfold str_eqb. destruct (list_eq_dec ascii_dec a b); split; congruence. Qed.

Lemma mapM_ext {A B} (f g : A -> result B) (l : list A) :
  (forall a, In a l -> f a = g a) -> mapM f l = mapM g l.
Proof.
  induction l as [| a l IH]; intros H; [reflexivity |].
  cbn. rewrite (H a) by (left; reflexivity).
  rewrite IH; [reflexivity |]. intros x Hx. apply H. right. exact Hx.
Qed.

Lemma has_key_fst (k : str) (fields : list (str * Value)) :
  has_key k fields = false -> forall kv, In kv fields -> str_eqb k (fst kv) = false.
Proof.
  unfold has_key. intros H kv Hin.
  destruct (str_eqb k (fst kv)) eqn:E; [| reflexivity].
  apply str_eqb_eq in E.
  assert (Hex : existsb (fun kv0 => str_eqb (fst kv0) k) fields = true).
  { apply existsb_exists. exists kv. split; [exact Hin |].
    rewrite E. apply str_eqb_refl. }
  congruence.
Qed.

(** The search of [key] among the properties of an options object does
    not see a property of another name. *)
Lemma search_skips (defaults : Value) (key : str) (value : Value)
      (k : str) (v : Value) (before after : list (str * Value)) :
  str_eqb k key = false ->
  (fix search (fs : list (str * Value)) : result (str * Value) :=
     match fs with
     | [] => Ok (key, value)
     | (k', v') :: rest =>
         if str_eqb k' key
         then resolveEntry defaults key v' (recursiveResolveOptions v' value)
         else search rest
     end) (before ++ (k, v) :: after)
  = (fix search (fs : list (str * Value)) : result (str * Value) :=
       match fs with
       | [] => Ok (key, value)
       | (k', v') :: rest =>
           if str_eqb k' key
           then resolveEntry defaults key v' (recursiveResolveOptions v' value)
           else search rest
       end) (before ++ after).
Proof.
  intros Hk. induction before as [| [k' v'] before IH]; cbn [app].
  - rewrite Hk. reflexivity.
  - destruct (str_eqb k' key); [reflexivity | exact IH].
Qed.

Lemma recursiveResolveOptions_unfold (fields : list (str * Value)) (defaults : Value) :
  recursiveResolveOptions (VObject fields) defaults
  = (es <- entries defaults ;;
     mergedConfig <-
       mapM (fun kv : str * Value =>
               let (key, value) := kv in
               (fix search (fs : list (str * Value)) : result (str * Value) :=
                  match fs with
                  | [] => Ok (key, value)
                  | (k, v) :: rest =>
                      if str_eqb k key
                      then resolveEntry defaults key v (recursiveResolveOptions v value)
                      else search rest
                  end) fields) es ;;
     Ok (VObject mergedConfig)).
Proof. reflexivity. Qed.

Lemma lookup_skips (key k : str) (v : Value) (before after : list (str * Value)) :
  str_eqb k key = false ->
  lookup key (before ++ (k, v) :: after) = lookup key (before ++ after).
Proof.
  intros Hk. unfold lookup.
  induction before as [| [k' v'] before IH]; cbn [app find fst].
  - rewrite Hk. reflexivity.
  - destruct (str_eqb k' key); [reflexivity | exact IH].
Qed.

Lemma Value_nested_ind (P : Value -> Prop) :
  P VUndefined -> P VNull -> (forall b, P (VBool b)) -> (forall n, P (VNumber n)) ->
  (forall s, P (VString s)) -> (forall t, P (VDate t)) ->
  (forall items, Forall P items -> P (VArray items)) ->
  (forall fields, Forall (fun kv => P (snd kv)) fields -> P (VObject fields)) ->
  forall v, P v.
Proof.
  intros HU HN HB HNum HS HD HA HO.
  fix IH 1. intros [| | b | n | s | t | items | fields].
  - exact HU.
  - exact HN.
  - apply HB.
  - apply HNum.
  - apply HS.
  - apply HD.
  - apply HA. induction items as [| v items IHitems]; constructor; [apply IH | exact IHitems].
  - apply HO. induction fields as [| [k v] fields IHfields]; constructor;
      [apply IH | exact IHfields].
Qed.

Lemma mapM_throws {A B} (f : A -> result B) (l : list A) (e : Error) :
  mapM f l = Throw e -> exists a, In a l /\ f a = Throw e.
Proof.
  induction l as [| a l IH]; cbn; [discriminate |].
  destruct (f a) as [b | e'] eqn:E; cbn.
  - destruct (mapM f l) as [bs | e'']; cbn; [discriminate |].
    intros H. injection H as ->. destruct IH as (x & Hx & Hfx); [reflexivity |].
    exists x. split; [right; exact Hx | exact Hfx].
  - intros H. injection H as ->. exists a. split; [left; reflexivity | exact E].
Qed.

(** A key taken from the entries of [defaults] is in [defaults]. *)
Lemma entry_is_known (defaults : Value) (es : list (str * Value)) (kv : str * Value) :
  entries defaults = Ok es -> In kv es ->
  in_ (fst kv) defaults = Ok true \/ in_ (fst kv) defaults = Throw TypeError.
Proof.
  assert (Hkey : forall fs, In kv fs -> has_key (fst kv) fs = true).
  { intros fs Hin. unfold has_key. apply existsb_exists.
    exists kv. split; [exact Hin | apply str_eqb_refl]. }
  destruct defaults as [| | b | n | s | t | items | fields]; cbn [entries in_];
    intros He Hin; try discriminate; try (injection He as <-).
  - contradiction.
  - contradiction.
  - right. reflexivity.
  - contradiction.
  - left. rewrite (Hkey _ Hin). reflexivity.
  - left. rewrite (Hkey _ Hin). reflexivity.
Qed.

Lemma resolveEntry_never_invalid (defaults : Value) (es : list (str * Value))
      (key : str) (value optionsKey : Value) (recur : result Value) (k : str) :
  entries defaults = Ok es -> In (key, value) es ->
  recur <> Throw (InvalidOption k) ->
  resolveEntry defaults key optionsKey recur <> Throw (InvalidOption k).
Proof.
  intros He Hin Hrec. unfold resolveEntry.
  generalize (entry_is_known defaults (key, value) He Hin). cbn [fst].
  intros [-> | ->]; cbn [bind negb]; [| discriminate].
  destruct (isArray optionsKey); [discriminate |].
  destruct (isObject optionsKey); [| discriminate].
  destruct recur as [r | e]; cbn [bind]; [discriminate |].
  intros H. apply Hrec. congruence.
Qed.

Lemma entries_throws (defaults : Value) (e : Error) :
  entries defaults = Throw e -> e = TypeError.
Proof. destruct defaults; cbn [entries]; congruence. Qed.

(** [Object.fromEntries] returns an object. *)
Lemma recursiveResolveOptions_object (options defaults merged : Value) :
  recursiveResolveOptions options defaults = Ok merged ->
  exists fields, merged = VObject fields.
Proof.
  destruct options; cbn [recursiveResolveOptions];
    (destruct (entries defaults) as [es | e]; cbn [bind]; [| discriminate]);
    match goal with
    | |- context [mapM ?f es] => destruct (mapM f es) as [mergedConfig | e]
    end; cbn [bind]; try discriminate;
    intros H; injection H as <-; eexists; reflexivity.
Qed.

(** The check [!(key in defaults)] never fires: no options object makes
    [recursiveResolveOptions] throw "Invalid option". *)
Lemma recursiveResolveOptions_never_invalid (options : Value) :
  forall defaults k, recursiveResolveOptions options defaults <> Throw (InvalidOption k).
Proof.
  induction options as [| | b | n | s | t | items IH | fields IH] using Value_nested_ind;
    intros defaults k; cbn [recursiveResolveOptions];
    (destruct (entries defaults) as [es | e] eqn:He; cbn [bind];
     [| apply entries_throws in He; subst e; discriminate]);
    match goal with
    | |- context [mapM ?f es] => destruct (mapM f es) as [merged | e] eqn:Hm
    end; cbn [bind]; try discriminate;
    intros Heq; injection Heq as ->;
    apply mapM_throws in Hm; destruct Hm as ([key value] & Hin & Hm);
    try discriminate.
  - destruct (str_eqb key length_key).
    + revert Hm. apply (resolveEntry_never_invalid _ _ _ _ He Hin). discriminate.
    + revert Hm. generalize 0%nat.
      induction IH as [| v items Hv _ IHitems]; intros i; [discriminate |].
      destruct (str_eqb (index_key i) key).
      * apply (resolveEntry_never_invalid _ _ _ _ He Hin). apply Hv.
      * apply IHitems.
  - revert Hm.
    induction IH as [| [k' v] fields Hv _ IHfields]; [discriminate |].
    destruct (str_eqb k' key).
    + apply (resolveEntry_never_invalid _ _ _ _ He Hin). apply Hv.
    + apply IHfields.
Qed.

(** Without options, and with the one unknown option [foo], the instance
    has the default options; the two tests of the repository on server
    ports hold. *)
Lemma newNtpTimeSync_defaults :
  newNtpTimeSync VUndefined = Ok (Some defaultOptions)
  /\ newNtpTimeSync (VObject [(prop "foo", num 1)]) = Ok (Some defaultOptions)
  /\ newNtpTimeSync (VObject [(prop "servers", VArray [VString (of_string "0.pool.ntp.org")])])
     = Ok (Some (oneServer 8 3))
  /\ option_map (fun o => map port (servers o))
        (match newNtpTimeSync
                 (VObject [(prop "servers",
                            VArray [VString (of_string "0.pool.ntp.org:54321")])])
         with Ok o => o | Throw _ => None end)
     = Some [54321%Z].
Proof. repeat split; vm_compute; reflexivity. Qed.

(** C2 (what the code does). A property of the options object whose name
    is not a key of the defaults is never looked at: the merge and the
    construction give the same result with and without it, wherever the
    property stands in the object; in particular the construction with
    the one unknown option [foo] succeeds, with the default options. *)
Theorem unknown_option_is_ignored
        (k : str) (v : Value) (before after : list (str * Value)) :
  in_ k NtpTimeSyncDefaultOptions = Ok false ->
  recursiveResolveOptions (VObject (before ++ (k, v) :: after)) NtpTimeSyncDefaultOptions
  = recursiveResolveOptions (VObject (before ++ after)) NtpTimeSyncDefaultOptions
  /\ constructor (VObject (before ++ (k, v) :: after)) = constructor (VObject (before ++ after))
  /\ constructor (VObject [(prop "foo", num 1)]) = constructor (VObject [])
  /\ exists options, constructor (VObject [(prop "foo", num 1)]) = Ok options.
Proof.
  intros Hk.
  assert (Hmerge :
    recursiveResolveOptions (VObject (before ++ (k, v) :: after)) NtpTimeSyncDefaultOptions
    = recursiveResolveOptions (VObject (before ++ after)) NtpTimeSyncDefaultOptions).
  { rewrite !recursiveResolveOptions_unfold.
    destruct (entries NtpTimeSyncDefaultOptions) as [es | e] eqn:Ees; [| reflexivity].
    cbn [bind].
    rewrite (mapM_ext
               (fun kv : str * Value =>
                  let (key, value) := kv in
                  (fix search (fs : list (str * Value)) : result (str * Value) :=
                     match fs with
                     | [] => Ok (key, value)
                     | (k0, v0) :: rest =>
                         if str_eqb k0 key
                         then resolveEntry NtpTimeSyncDefaultOptions key v0
                                (recursiveResolveOptions v0 value)
                         else search rest
                     end) (before ++ (k, v) :: after))
               (fun kv : str * Value =>
                  let (key, value) := kv in
                  (fix search (fs : list (str * Value)) : result (str * Value) :=
                     match fs with
                     | [] => Ok (key, value)
                     | (k0, v0) :: rest =>
                         if str_eqb k0 key
                         then resolveEntry NtpTimeSyncDefaultOptions key v0
                                (recursiveResolveOptions v0 value)
                         else search rest
                     end) (before ++ after))); [reflexivity |].
    intros [key value] Hin. apply search_skips.
    assert (Hk' : has_key k es = false).
    { revert Ees Hk. unfold NtpTimeSyncDefaultOptions. cbn [entries in_].
      intros Ees Hk. congruence. }
    exact (has_key_fst _ _ Hk' _ Hin). }
  split; [exact Hmerge |].
  split.
  { unfold constructor. rewrite Hmerge.
    cbn [get]. rewrite lookup_skips; [reflexivity |].
    destruct (str_eqb k (prop "servers")) eqn:E; [| reflexivity].
    apply str_eqb_eq in E. subst k. vm_compute in Hk. discriminate Hk. }
  split; [reflexivity |].
  eexists. reflexivity.
Qed.

End OptionFacts.

(** ** Server endpoints *)

Section EndpointFacts.

Lemma split_no_sep (sep : ascii) (s : str) :
  ~ In sep s -> split sep s = [s].
Proof.
  induction s as [| c s IH]; intros H; [reflexivity |].
  cbn [split].
  destruct (Ascii.eqb_spec c sep) as [-> | _]; [exfalso; apply H; left; reflexivity |].
  rewrite IH; [reflexivity |]. intro Hin. apply H. right. exact Hin.
Qed.

Lemma split_app (sep : ascii) (a rest : str) :
  ~ In sep a -> split sep (a ++ sep :: rest) = a :: split sep rest.
Proof.
  induction a as [| c a IH]; intros H; cbn [app split].
  - rewrite Ascii.eqb_refl. reflexivity.
  - destruct (Ascii.eqb_spec c sep) as [-> | _]; [exfalso; apply H; left; reflexivity |].
    rewrite IH; [reflexivity |]. intro Hin. apply H. right. exact Hin.
Qed.

Lemma split_limit_host_port (h seg : str) :
  ~ In ":"%char h -> ~ In ":"%char seg ->
  split_limit ":" 2 (h ++ ":"%char :: seg) = [h; seg].
Proof.
  intros Hh Hs. unfold split_limit.
  rewrite split_app by assumption. rewrite split_no_sep by assumption. reflexivity.
Qed.

Lemma split_limit_more (h seg tail : str) :
  ~ In ":"%char h -> ~ In ":"%char seg ->
  split_limit ":" 2 (h ++ ":"%char :: seg ++ ":"%char :: tail) = [h; seg].
Proof.
  intros Hh Hs. unfold split_limit.
  rewrite split_app by assumption. rewrite split_app by assumption.
  destruct (split ":" tail); reflexivity.
Qed.

Lemma mapM_ok {A B} (f : A -> result B) (l : list A) :
  (forall a, In a l -> exists b, f a = Ok b) -> exists bs, mapM f l = Ok bs.
Proof.
  induction l as [| a l IH]; intros H; [eexists; reflexivity |].
  destruct (H a) as [b Hb]; [left; reflexivity |].
  destruct IH as [bs Hbs]; [intros x Hx; apply H; right; exact Hx |].
  exists (b :: bs). cbn. rewrite Hb. cbn. rewrite Hbs. reflexivity.
Qed.

Variable mergedConfig : Value.
Variable defaultPort : Value.
Hypothesis defaultPort_read : ntpDefaultsPort mergedConfig = Ok defaultPort.

Lemma resolveServer_value (s : str) :
  resolveServer mergedConfig (VString s)
  = Ok (endpoint (nth 0 (split_limit ":" 2 s) [])
                 (if truthy (Number_ (nth_error (split_limit ":" 2 s) 1))
                  then VNumber (Number_ (nth_error (split_limit ":" 2 s) 1))
                  else defaultPort)).
Proof.
  unfold resolveServer.
  destruct (truthy (Number_ (nth_error (split_limit ":" 2 s) 1)));
    [reflexivity | rewrite defaultPort_read; reflexivity].
Qed.

(** C10. The port of the endpoint resolved from a server string is the
    default port [ntpDefaults.port] when the string has no [:], and also
    when the segment after the first [:] is converted by [Number] to 0 or
    to [NaN] (as for [host:0] and [host:abc], which get port 123 under
    the default options); what follows a second [:] is ignored; so when
    the default port is itself a non-zero number, the resolved port is
    never 0, and the resolution of a list of server strings by the
    constructor never fails (given the merged options, whose default
    port can be read). *)
Theorem resolveServer_port :
  (forall s, ~ In ":"%char s ->
             resolveServer mergedConfig (VString s) = Ok (endpoint s defaultPort))
  /\ (forall h seg,
        ~ In ":"%char h -> ~ In ":"%char seg ->
        truthy (Number_ (Some seg)) = false ->
        resolveServer mergedConfig (VString (h ++ ":"%char :: seg))
        = Ok (endpoint h defaultPort))
  /\ (forall n, truthy n = false <-> (n = NaN \/ exists q, n = Num q /\ q == 0))
  /\ (forall h seg tail,
        ~ In ":"%char h -> ~ In ":"%char seg ->
        resolveServer mergedConfig (VString (h ++ ":"%char :: seg ++ ":"%char :: tail))
        = resolveServer mergedConfig (VString (h ++ ":"%char :: seg)))
  /\ (forall d, defaultPort = VNumber d -> truthy d = true ->
        forall s, exists h n,
          resolveServer mergedConfig (VString s) = Ok (endpoint h (VNumber n))
          /\ truthy n = true /\ n <> NaN /\ (forall q, n = Num q -> ~ q == 0))
  /\ resolveServer NtpTimeSyncDefaultOptions (VString (of_string "host:0"))
     = Ok (endpoint (of_string "host") (num 123))
  /\ resolveServer NtpTimeSyncDefaultOptions (VString (of_string "host:abc"))
     = Ok (endpoint (of_string "host") (num 123))
  /\ (forall options (l : list str),
        options <> VUndefined ->
        get (prop "servers") options = Ok (VArray (map VString l)) ->
        recursiveResolveOptions options NtpTimeSyncDefaultOptions = Ok mergedConfig ->
        exists fields servers,
          mergedConfig = VObject fields
          /\ mapM (resolveServer mergedConfig) (map VString l) = Ok servers
          /\ constructor options = Ok (VObject (withServers fields (VArray servers))))
  /\ (forall l : list str,
        exists options,
          constructor (VObject [(prop "servers", VArray (map VString l))]) = Ok options).
Proof.
  assert (Htruthy : forall n, truthy n = false <-> (n = NaN \/ exists q, n = Num q /\ q == 0)).
  { intros [q | b |]; cbn [truthy]; split.
    - intros H. right. exists q. split; [reflexivity |].
      apply negb_false_iff in H. apply Qeq_bool_eq. exact H.
    - intros [H | (q' & H & Hq)]; [discriminate |]. injection H as <-.
      apply negb_false_iff. unfold is_zero. apply Qeq_bool_iff. exact Hq.
    - discriminate.
    - intros [H | (q' & H & _)]; discriminate.
    - intros _. left. reflexivity.
    - reflexivity. }
  split; [| split; [| split; [| split; [| split; [| split; [| split; [| split]]]]]]].
  - intros s Hs. rewrite resolveServer_value.
    unfold split_limit. rewrite split_no_sep by assumption. reflexivity.
  - intros h seg Hh Hs Hf. rewrite resolveServer_value.
    rewrite split_limit_host_port by assumption.
    change (nth_error [h; seg] 1) with (Some seg).
    rewrite Hf. reflexivity.
  - exact Htruthy.
  - intros h seg tail Hh Hs. rewrite !resolveServer_value.
    rewrite split_limit_more by assumption.
    rewrite split_limit_host_port by assumption. reflexivity.
  - intros d Hd Ht s. rewrite resolveServer_value.
    destruct (truthy (Number_ (nth_error (split_limit ":" 2 s) 1))) eqn:E.
    + eexists. eexists. split; [reflexivity |]. split; [exact E |].
      split.
      * intro Hn. rewrite Hn in E. discriminate.
      * intros q Hq Hz. rewrite Hq in E. cbn in E.
        apply negb_true_iff in E. unfold is_zero in E.
        apply Qeq_bool_iff in Hz. congruence.
    + subst defaultPort. eexists. eexists. split; [reflexivity |]. split; [exact Ht |].
      split.
      * intro Hn. rewrite Hn in Ht. discriminate.
      * intros q Hq Hz. rewrite Hq in Ht. cbn in Ht.
        apply negb_true_iff in Ht. unfold is_zero in Ht.
        apply Qeq_bool_iff in Hz. congruence.
  - vm_compute. reflexivity.
  - vm_compute. reflexivity.
  - intros options l Hne Hs Hm.
    destruct (recursiveResolveOptions_object _ _ Hm) as [fields Hf].
    destruct (@mapM_ok _ _ (resolveServer mergedConfig) (map VString l)) as [servers Hsv].
    { intros a Ha. apply in_map_iff in Ha. destruct Ha as (s & <- & _).
      rewrite resolveServer_value. eexists. reflexivity. }
    exists fields, servers. split; [exact Hf |]. split; [exact Hsv |].
    unfold constructor.
    replace (match options with VUndefined => VObject [] | _ => options end)
      with options by (destruct options; congruence).
    rewrite Hs. cbn [bind].
    assert (Hd : exists d, get (prop "servers") NtpTimeSyncDefaultOptions = Ok d)
      by (eexists; reflexivity).
    destruct Hd as [d ->]. cbn [bind truthy_value].
    rewrite Hm. cbn [bind]. rewrite Hf in *. rewrite Hsv. reflexivity.
  - intros l. unfold constructor.
    assert (Hs : get (prop "servers") (VObject [(prop "servers", VArray (map VString l))])
                 = Ok (VArray (map VString l))) by reflexivity.
    rewrite Hs. cbn [bind].
    assert (Hd : exists d, get (prop "servers") NtpTimeSyncDefaultOptions = Ok d)
      by (eexists; reflexivity).
    destruct Hd as [d ->]. cbn [bind truthy_value].
    assert (Hm : exists fields,
               recursiveResolveOptions (VObject [(prop "servers", VArray (map VString l))])
                                       NtpTimeSyncDefaultOptions = Ok (VObject fields)
               /\ ntpDefaultsPort (VObject fields) = Ok (num 123)).
    { eexists. split; reflexivity. }
    destruct Hm as (fields & -> & Hp). cbn [bind].
    destruct (@mapM_ok _ _ (resolveServer (VObject fields)) (map VString l)) as [bs ->].
    + intros a Ha. apply in_map_iff in Ha. destruct Ha as (s & <- & _).
      unfold resolveServer. rewrite Hp.
      destruct (truthy (Number_ (nth_error (split_limit ":" 2 s) 1)));
        eexists; reflexivity.
    + eexists. reflexivity.
Qed.

End EndpointFacts.

(** ** The packet encoder *)

Section EncoderFacts.

Local Abbreviation step := (fun a c => (2 * a + (if Ascii.eqb c "1" then 1 else 0))%Z).

Lemma fold_binary (s : str) (a : Z) :
  fold_left step s a = (a * 2 ^ len s + Spec.binaryValue s)%Z.
Proof.
  unfold Spec.binaryValue. revert a.
  induction s as [| c s IH]; intros a.
  - cbn. lia.
  - cbn [fold_left]. rewrite IH, (IH (2 * 0 + _)%Z).
    unfold len. cbn [length]. rewrite Nat2Z.inj_succ, Z.pow_succ_r by lia.
    fold (len s). ring.
Qed.

Lemma binaryValue_app (a b : str) :
  Spec.binaryValue (a ++ b) = (Spec.binaryValue a * 2 ^ len b + Spec.binaryValue b)%Z.
Proof.
  unfold Spec.binaryValue at 1. rewrite fold_left_app, fold_binary.
  reflexivity.
Qed.

Lemma binaryValue_range (s : str) :
  (0 <= Spec.binaryValue s < 2 ^ len s)%Z.
Proof.
  induction s as [| c s IH] using rev_ind.
  - cbn. lia.
  - rewrite binaryValue_app. unfold len in *. rewrite length_app. cbn [length].
    rewrite Nat2Z.inj_add, Z.pow_add_r by lia.
    change (2 ^ Z.of_nat 1)%Z with 2%Z.
    assert (H : (0 <= Spec.binaryValue [c] <= 1)%Z).
    { unfold Spec.binaryValue. cbn. destruct (Ascii.eqb c "1"); lia. }
    nia.
Qed.

Lemma isBinary_app (a b : str) :
  Spec.isBinary a -> Spec.isBinary b -> Spec.isBinary (a ++ b).
Proof. unfold Spec.isBinary. intros. apply Forall_app. split; assumption. Qed.

Lemma bits_spec (p : positive) :
  forall acc,
    Spec.isBinary acc ->
    Spec.isBinary (bits p acc)
    /\ Spec.binaryValue (bits p acc) = (Zpos p * 2 ^ len acc + Spec.binaryValue acc)%Z
    /\ length (bits p acc) = (Pos.size_nat p + length acc)%nat.
Proof.
  induction p as [p IH | p IH |]; intros acc Hacc; cbn [bits Pos.size_nat].
  - destruct (IH ("1"%char :: acc)) as (Hb & Hv & Hl).
    { constructor; [right; reflexivity | exact Hacc]. }
    split; [exact Hb |]. split.
    + rewrite Hv. change ("1"%char :: acc) with (["1"%char] ++ acc).
      rewrite binaryValue_app. unfold len. cbn [length app].
      rewrite Nat2Z.inj_succ, Z.pow_succ_r by lia.
      change (Spec.binaryValue ["1"%char]) with 1%Z. lia.
    + rewrite Hl. cbn [length]. lia.
  - destruct (IH ("0"%char :: acc)) as (Hb & Hv & Hl).
    { constructor; [left; reflexivity | exact Hacc]. }
    split; [exact Hb |]. split.
    + rewrite Hv. change ("0"%char :: acc) with (["0"%char] ++ acc).
      rewrite binaryValue_app. unfold len. cbn [length app].
      rewrite Nat2Z.inj_succ, Z.pow_succ_r by lia.
      change (Spec.binaryValue ["0"%char]) with 0%Z. lia.
    + rewrite Hl. cbn [length]. lia.
  - split; [constructor; [right; reflexivity | exact Hacc] |]. split.
    + change ("1"%char :: acc) with (["1"%char] ++ acc).
      rewrite binaryValue_app. change (Spec.binaryValue ["1"%char]) with 1%Z. lia.
    + reflexivity.
Qed.

Lemma size_nat_bound (p : positive) (n : nat) :
  (Zpos p < 2 ^ Z.of_nat n)%Z -> (Pos.size_nat p <= n)%nat.
Proof.
  revert n. induction p as [p IH | p IH |]; intros n H; cbn [Pos.size_nat].
  - destruct n as [| n]; [cbn in H; lia |].
    rewrite Nat2Z.inj_succ, Z.pow_succ_r in H by lia.
    apply le_n_S, IH. lia.
  - destruct n as [| n]; [cbn in H; lia |].
    rewrite Nat2Z.inj_succ, Z.pow_succ_r in H by lia.
    apply le_n_S, IH. lia.
  - destruct n as [| n]; [cbn in H; lia | lia].
Qed.

Lemma isBinary_zeros (n : nat) : Spec.isBinary (repeat "0"%char n).
Proof. induction n; constructor; [left; reflexivity | assumption]. Qed.

Lemma binaryValue_zeros (n : nat) : Spec.binaryValue (repeat "0"%char n) = 0%Z.
Proof.
  induction n as [| n IH]; [reflexivity |].
  change (repeat "0"%char (S n)) with (["0"%char] ++ repeat "0"%char n).
  rewrite binaryValue_app, IH. change (Spec.binaryValue ["0"%char]) with 0%Z. lia.
Qed.

Lemma repeat_str_char (c : ascii) (n : Z) :
  repeat_str [c] n = repeat c (Z.to_nat n).
Proof.
  unfold repeat_str. induction (Z.to_nat n) as [| k IH]; [reflexivity |].
  cbn. f_equal. exact IH.
Qed.

Lemma firstn_repeat_le {A} (c : A) (k n : nat) :
  (k <= n)%nat -> firstn k (repeat c n) = repeat c k.
Proof.
  revert n. induction k as [| k IH]; intros n H; [reflexivity |].
  destruct n as [| n]; [lia |]. cbn. f_equal. apply IH. lia.
Qed.

(** Left padding with zeros of a string of binary digits no longer than
    the width: the width is reached and the number written is kept. *)
Lemma pad_binary (s : str) (width : nat) :
  Spec.isBinary s -> (length s <= width)%nat ->
  let padded := pad s (Z.of_nat width) ["0"%char] Left in
  Spec.isBinary padded /\ length padded = width
  /\ Spec.binaryValue padded = Spec.binaryValue s.
Proof.
  intros Hs Hl. cbn zeta. unfold pad, substring0. rewrite repeat_str_char.
  rewrite Nat2Z.id. unfold len.
  replace (Z.to_nat (Z.max 0 (Z.of_nat width - Z.of_nat (length s))))
    with (width - length s)%nat by lia.
  rewrite firstn_repeat_le by lia.
  split; [apply isBinary_app; [apply isBinary_zeros | exact Hs] |].
  split.
  - rewrite length_app, repeat_length. lia.
  - rewrite binaryValue_app, binaryValue_zeros. lia.
Qed.

Lemma binaryPrefix_binary (s : str) :
  Spec.isBinary s ->
  forall a, binaryPrefix s (Some a) = Some (fold_left step s a).
Proof.
  induction 1 as [| c s Hc Hs IH]; intros a; [reflexivity |].
  cbn [binaryPrefix fold_left].
  destruct Hc as [-> | ->]; cbn; rewrite IH; f_equal; f_equal; lia.
Qed.

Lemma parseInt2_binary (s : str) :
  Spec.isBinary s -> s <> [] ->
  parseInt2 s = Num (inject_Z (Spec.binaryValue s)).
Proof.
  intros Hs Hne. destruct Hs as [| c s Hc Hs]; [congruence |].
  destruct Hc as [-> | ->].
  - change (parseInt2 ("0"%char :: s))
      with (match binaryPrefix s (Some (2 * 0)%Z) with
            | Some v => Num (inject_Z v)
            | None => NaN
            end).
    rewrite (binaryPrefix_binary Hs). reflexivity.
  - change (parseInt2 ("1"%char :: s))
      with (match binaryPrefix s (Some (2 * 0 + 1)%Z) with
            | Some v => Num (inject_Z v)
            | None => NaN
            end).
    rewrite (binaryPrefix_binary Hs). reflexivity.
Qed.

Lemma truncate_integer (v : Z) : truncate (inject_Z v) = v.
Proof.
  unfold truncate. destruct (Qle_bool 0 (inject_Z v)); [apply Qfloor_Z | apply Qceiling_Z].
Qed.

Lemma in_firstn {A} (k : nat) (l : list A) (b : A) : In b (firstn k l) -> In b l.
Proof.
  intros H. rewrite <- (firstn_skipn k l). apply in_or_app. left. exact H.
Qed.

(** The byte read from the [i]-th group of 8 digits of a 64-digit string. *)
Lemma chunk_byte (ts : str) (i : nat) :
  Spec.isBinary ts -> length ts = 64%nat -> (i < 8)%nat ->
  Buffer_from [parseInt2 (substr ts (8 * i) 8)]
  = [((Spec.binaryValue ts / 2 ^ (8 * Z.of_nat (7 - i))) mod 256)%Z].
Proof.
  intros Hb Hl Hi. unfold substr.
  set (pre := firstn (8 * i) ts).
  set (chunk := firstn 8 (skipn (8 * i) ts)).
  set (post := skipn 8 (skipn (8 * i) ts)).
  assert (Hts : ts = pre ++ chunk ++ post).
  { unfold pre, chunk, post. rewrite firstn_skipn, firstn_skipn. reflexivity. }
  assert (Hlc : length chunk = 8%nat).
  { unfold chunk. rewrite length_firstn, length_skipn. lia. }
  assert (Hlp : length post = (8 * (7 - i))%nat).
  { unfold post. rewrite !length_skipn. lia. }
  assert (Hbc : Spec.isBinary chunk).
  { unfold chunk. unfold Spec.isBinary in *.
    apply Forall_forall. intros c Hc. rewrite Forall_forall in Hb. apply Hb.
    apply (in_skipn (8 * i)). apply (in_firstn 8). exact Hc. }
  rewrite (parseInt2_binary Hbc) by (intro E; rewrite E in Hlc; discriminate).
  cbn [Buffer_from map]. rewrite truncate_integer. f_equal.
  rewrite Hts at 1. rewrite !binaryValue_app.
  generalize (binaryValue_range chunk). generalize (binaryValue_range post).
  unfold len. rewrite length_app, Hlc, Hlp.
  rewrite Nat2Z.inj_add, Z.pow_add_r by lia.
  change (2 ^ Z.of_nat 8)%Z with 256%Z.
  replace (Z.of_nat (8 * (7 - i))) with (8 * Z.of_nat (7 - i))%Z by lia.
  set (P := (2 ^ (8 * Z.of_nat (7 - i)))%Z).
  assert (HP : (0 < P)%Z) by (unfold P; apply Z.pow_pos_nonneg; lia).
  intros Hpost Hchunk.
  replace (Spec.binaryValue pre * (256 * P)
           + (Spec.binaryValue chunk * P + Spec.binaryValue post))%Z
    with ((Spec.binaryValue pre * 256 + Spec.binaryValue chunk) * P
          + Spec.binaryValue post)%Z by ring.
  rewrite Z.div_add_l by lia.
  rewrite (Z.div_small (Spec.binaryValue post) P) by lia.
  rewrite Z.add_0_r, Z.add_comm, Z.mod_add by lia.
  reflexivity.
Qed.

End EncoderFacts.

Section EncoderLayout.

Variable options : NtpTimeSyncOptions.
Variable now : Z.

Lemma createPacket_shape (leapIndicator ntpVersion mode : option Z) :
  createPacket options now leapIndicator ntpVersion mode
  = Buffer_from
      ([parseInt2
          (flagsDigits
             (match leapIndicator with Some x => x | None => 3%Z end)
             (match ntpVersion with
              | Some v => if (v =? 0)%Z
                          then NtpDefaults.version (ntpDefaults options) else v
              | None => NtpDefaults.version (ntpDefaults options)
              end)
             (match mode with Some x => x | None => 3%Z end))]
       ++ repeat (Num 0) 23
       ++ map (fun i => parseInt2 (substr (ntpTimestamp options now) (8 * i) 8)) (seq 0 8)
       ++ repeat (Num 0) 8
       ++ map (fun i => parseInt2 (substr (ntpTimestamp options now) (8 * i) 8)) (seq 0 8)).
Proof. reflexivity. Qed.

Lemma flags_byte (a b c : Z) :
  (0 <= a < 4)%Z -> (0 <= b < 8)%Z -> (0 <= c < 8)%Z ->
  Buffer_from [parseInt2 (flagsDigits a b c)] = [(a * 64 + b * 8 + c)%Z].
Proof.
  intros Ha Hb Hc.
  assert (Ea : (a = 0 \/ a = 1 \/ a = 2 \/ a = 3)%Z) by lia.
  assert (Eb : (b = 0 \/ b = 1 \/ b = 2 \/ b = 3 \/ b = 4 \/ b = 5 \/ b = 6 \/ b = 7)%Z)
    by lia.
  assert (Ec : (c = 0 \/ c = 1 \/ c = 2 \/ c = 3 \/ c = 4 \/ c = 5 \/ c = 6 \/ c = 7)%Z)
    by lia.
  clear Ha Hb Hc.
  repeat (destruct Ea as [Ea | Ea]); subst a;
    repeat (destruct Eb as [Eb | Eb]); subst b;
      repeat (destruct Ec as [Ec | Ec]); subst c; vm_compute; reflexivity.
Qed.

(** The padded string of an integer timestamp below 2^64. *)
Lemma ntpTimestamp_digits (m : positive) (e : Z) :
  FloatOps.Prim2SF (ntpTimestampNumber options now) = SpecFloat.S754_finite false m e ->
  (0 <= e)%Z -> (Zpos m * 2 ^ e < 2 ^ 64)%Z ->
  Spec.isBinary (ntpTimestamp options now)
  /\ length (ntpTimestamp options now) = 64%nat
  /\ Spec.binaryValue (ntpTimestamp options now) = (Zpos m * 2 ^ e)%Z.
Proof.
  intros Hx He Hlt. unfold ntpTimestamp, double_toString2. rewrite Hx.
  destruct (Z.leb_spec 0 e) as [_ | Hc]; [| lia]. cbn [app].
  assert (Hpos : (0 < Zpos m * 2 ^ e)%Z).
  { apply Z.mul_pos_pos; [lia | apply Z.pow_pos_nonneg; lia]. }
  destruct (Zpos m * 2 ^ e)%Z as [| p | p] eqn:Ep; try lia.
  cbn [toString2].
  destruct (@bits_spec p []) as (Hb & Hv & Hl); [constructor |].
  assert (Hsize : (length (bits p []) <= 64)%nat).
  { rewrite Hl. cbn [length]. rewrite Nat.add_0_r.
    apply size_nat_bound. exact Hlt. }
  destruct (@pad_binary (bits p []) 64 Hb Hsize) as (Hpb & Hpl & Hpv).
  change (Z.of_nat 64) with 64%Z in *.
  split; [exact Hpb |]. split; [exact Hpl |].
  rewrite Hpv, Hv. cbn. lia.
Qed.

(** C9 (as amended). The encoder returns 48 bytes; bytes 24-31 and bytes
    40-47 are equal, and bytes 1-23 and 32-39 are zero.  Byte 0 is
    [leapIndicator * 64 + version * 8 + mode] when the three fields fit
    their 2, 3 and 3 bits.  Bytes 24-31 are the 8 big-endian bytes of the
    double [(now - referenceDate) / 1000 * 2^32] whenever this double is
    an integer below 2^64 of non-negative binary exponent. *)
Theorem createPacket_layout (leapIndicator ntpVersion mode : option Z) :
  let packet := createPacket options now leapIndicator ntpVersion mode in
  let li := match leapIndicator with Some x => x | None => 3%Z end in
  let vn := match ntpVersion with
            | Some v => if (v =? 0)%Z then NtpDefaults.version (ntpDefaults options) else v
            | None => NtpDefaults.version (ntpDefaults options)
            end in
  let md := match mode with Some x => x | None => 3%Z end in
  (length packet = 48%nat
   /\ firstn 8 (skipn 24 packet) = firstn 8 (skipn 40 packet)
   /\ firstn 23 (skipn 1 packet) = repeat 0%Z 23
   /\ firstn 8 (skipn 32 packet) = repeat 0%Z 8)
  /\ ((0 <= li < 4)%Z -> (0 <= vn < 8)%Z -> (0 <= md < 8)%Z ->
      firstn 1 packet = [(li * 64 + vn * 8 + md)%Z])
  /\ (forall (m : positive) (e : Z),
        FloatOps.Prim2SF (ntpTimestampNumber options now) = SpecFloat.S754_finite false m e ->
        (0 <= e)%Z -> (Zpos m * 2 ^ e < 2 ^ 64)%Z ->
        firstn 8 (skipn 24 packet) = Spec.bigEndian 8 (Zpos m * 2 ^ e)).
Proof.
  cbn zeta. rewrite createPacket_shape.
  split; [repeat split; reflexivity |].
  split.
  - intros Hl Hv Hm.
    exact (flags_byte Hl Hv Hm).
  - intros m e Hx He Hlt.
    destruct (ntpTimestamp_digits Hx He Hlt) as (Hb & Hl & Hv).
    change (firstn 8 (skipn 24 (Buffer_from ?l)))
      with (Buffer_from [parseInt2 (substr (ntpTimestamp options now) (8 * 0) 8)]
            ++ Buffer_from [parseInt2 (substr (ntpTimestamp options now) (8 * 1) 8)]
            ++ Buffer_from [parseInt2 (substr (ntpTimestamp options now) (8 * 2) 8)]
            ++ Buffer_from [parseInt2 (substr (ntpTimestamp options now) (8 * 3) 8)]
            ++ Buffer_from [parseInt2 (substr (ntpTimestamp options now) (8 * 4) 8)]
            ++ Buffer_from [parseInt2 (substr (ntpTimestamp options now) (8 * 5) 8)]
            ++ Buffer_from [parseInt2 (substr (ntpTimestamp options now) (8 * 6) 8)]
            ++ Buffer_from [parseInt2 (substr (ntpTimestamp options now) (8 * 7) 8)]).
    rewrite !(chunk_byte Hb Hl) by lia.
    rewrite Hv. reflexivity.
Qed.

End EncoderLayout.

(** * Further properties of the module *)

(** ** The retry loop: how many samples, how many rounds *)

Section RetryBounds.

Variable options : NtpTimeSyncOptions.
Variable env : Env.
Variable numSamples : Z.
Variable start : nat.

Local Abbreviation pool_ := (pool options env start).
Local Abbreviation retries_ := (retries options env start).
Local Abbreviation continues_ := (continues options env numSamples start).
Local Abbreviation exitAfter_ := (exitAfter options env start).

Lemma collectLoop_from_start (fuel : nat) (x : LoopExit) :
  collectLoop options env fuel numSamples start [] 0 = Some x ->
  exists k, (1 <= k)%nat /\ x = exitAfter_ k /\ continues_ k = false
            /\ forall j, (1 <= j < k)%nat -> continues_ j = true.
Proof.
  intros H.
  generalize (@collectLoop_sound options env numSamples start fuel 0 x).
  rewrite Nat.add_0_r. intros Hs.
  destruct (Hs H) as (k & Hk & Hx & Hstop & Hgo).
  exists k. split; [lia |]. split; [exact Hx |]. split; [exact Hstop |].
  intros j Hj. apply Hgo. lia.
Qed.

(** While the loop goes on, the retry counter is below the limit; it
    does not move once a reply is in the pool. *)
Lemma retries_below_limit (k : nat) :
  (1 <= k)%nat -> (1 <= maxRetries options)%Z ->
  (forall j, (1 <= j < k)%nat -> continues_ j = true) ->
  pool_ k <> [] -> (retries_ k < maxRetries options)%Z.
Proof.
  intros Hk Hmax Hgo Hne.
  destruct k as [| k]; [lia |].
  change (retries_ (S k))
    with (if (len (pool_ (S k)) =? 0)%Z then (retries_ k + 1)%Z else retries_ k).
  assert (Hl : (0 < len (pool_ (S k)))%Z) by (apply len_pos, Hne).
  destruct (Z.eqb_spec (len (pool_ (S k))) 0) as [E | _]; [lia |].
  destruct k as [| k]; [cbn; lia |].
  assert (Hc : continues_ (S k) = true) by (apply Hgo; lia).
  unfold continues in Hc. apply andb_prop in Hc. destruct Hc as [_ Hc].
  apply Z.ltb_lt in Hc. exact Hc.
Qed.

Lemma notErrors_length (l : list (result Packet.t)) :
  (length (notErrors l) <= length l)%nat.
Proof.
  induction l as [| [d | e] l IH]; cbn [notErrors length]; lia.
Qed.

Lemma pool_length_limit (k : nat) :
  (len (pool_ k) <= Z.of_nat k * len (servers options))%Z.
Proof.
  induction k as [| k IH]; [cbn; lia |].
  change (pool_ (S k)) with (pool_ k ++ accepted options env (start + k)).
  assert (H := notErrors_length
                 (map (timePromise options env (start + k)) (servers options))).
  rewrite length_map in H. fold (accepted options env (start + k)) in H.
  unfold len in *. rewrite length_app. nia.
Qed.

(** X1. When [maxRetries] is at least 1, a call of [collectSamples] that
    returns samples returns exactly [numSamples] of them: the loop is
    not left with fewer replies than asked for, however many rounds it
    takes.  As a round brings one reply for each server at most, the
    call has then run [numSamples / servers.length] rounds at least. *)
Theorem collectSamples_exact_count (fuel n : nat) (samples : list SampleData) :
  (1 <= maxRetries options)%Z ->
  (0 <= numSamples)%Z ->
  collectSamples options env fuel numSamples start = Some (n, Ok samples) ->
  len samples = numSamples
  /\ (exists x, collectLoop options env fuel numSamples start [] 0 = Some x
                /\ (numSamples <= len (ntpResults x))%Z)
  /\ (numSamples <= Z.of_nat (n - start) * len (servers options))%Z.
Proof.
  intros Hmax Hn H.
  destruct (@collectSamples_inv _ _ _ _ _ _ _ H) as (x & Hx & -> & Hr).
  destruct (@collectLoop_from_start _ _ Hx) as (k & Hk & -> & Hstop & Hgo).
  cbn [exitAfter ntpResults retry roundsDone] in *.
  destruct (Z.eqb_spec (len (pool_ k)) 0) as [E | E]; [discriminate |].
  assert (Hne : pool_ k <> []).
  { intro Hnil. apply E. rewrite Hnil. reflexivity. }
  assert (Hr' := @retries_below_limit k Hk Hmax Hgo Hne).
  assert (Hfull : (numSamples <= len (pool_ k))%Z).
  { unfold continues in Hstop. apply andb_false_iff in Hstop.
    destruct Hstop as [Hs | Hs]; [apply Z.ltb_ge in Hs; exact Hs |].
    apply Z.ltb_ge in Hs. lia. }
  split; [| split].
  - injection Hr as ->.
    rewrite slice0_firstn by assumption. rewrite len_firstn by assumption.
    unfold len at 1. rewrite (Permutation_length (sortByDelay_perm _)), length_map.
    fold (len (pool_ k)). lia.
  - exists (exitAfter_ k). split; [exact Hx | exact Hfull].
  - assert (Hlim := pool_length_limit k).
    replace (start + k - start)%nat with k by lia. lia.
Qed.

Lemma collectLoop_bounded (m : nat) :
  forall i fuel,
    continues_ (S (i + m)) = false ->
    (m < fuel)%nat ->
    exists x, collectLoop options env fuel numSamples (start + i) (pool_ i) (retries_ i)
              = Some x.
Proof.
  induction m as [| m IH]; intros i fuel Hstop Hfuel;
    (destruct fuel as [| fuel]; [lia |]); rewrite collectLoop_step.
  - rewrite Nat.add_0_r in Hstop. rewrite Hstop. eexists; reflexivity.
  - destruct (continues_ (S i)) eqn:E; [| eexists; reflexivity].
    apply IH; [| lia].
    replace (S (S i + m)) with (S (i + S m)) by lia. exact Hstop.
Qed.

Lemma pool_length_progress (perRound : Z) :
  (forall round, (perRound <= len (accepted options env round))%Z) ->
  forall k, (Z.of_nat k * perRound <= len (pool_ k))%Z.
Proof.
  intros Hacc. induction k as [| k IH]; [cbn; lia |].
  change (pool_ (S k)) with (pool_ k ++ accepted options env (start + k)).
  assert (H := Hacc (start + k)%nat).
  unfold len in *. rewrite length_app. nia.
Qed.

(** When every round brings at least [perRound] accepted replies, the
    call ends within [max(1, ceil(numSamples / perRound))] rounds and
    returns samples. *)
Lemma collectSamples_progress (fuel : nat) (perRound : Z) :
  (1 <= perRound)%Z ->
  (forall round, (perRound <= len (accepted options env round))%Z) ->
  (Z.to_nat (Z.max 1 ((numSamples + perRound - 1) / perRound)) <= fuel)%nat ->
  exists n samples,
    collectSamples options env fuel numSamples start = Some (n, Ok samples)
    /\ (start < n
                 <= start + Z.to_nat (Z.max 1 ((numSamples + perRound - 1) / perRound)))%nat.
Proof.
  intros Hper Hacc Hfuel.
  set (N := Z.to_nat (Z.max 1 ((numSamples + perRound - 1) / perRound))) in *.
  assert (HN : (1 <= N)%nat) by (unfold N; lia).
  assert (Hceil : (numSamples <= Z.of_nat N * perRound)%Z).
  { assert (Hdiv := Z.div_mod (numSamples + perRound - 1) perRound ltac:(lia)).
    assert (Hmod := Z.mod_pos_bound (numSamples + perRound - 1) perRound ltac:(lia)).
    unfold N. nia. }
  assert (Hstop : continues_ N = false).
  { unfold continues. apply andb_false_iff. left. apply Z.ltb_ge.
    assert (H := pool_length_progress Hacc N). lia. }
  destruct N as [| m] eqn:EN; [lia |].
  destruct (@collectLoop_bounded m 0 fuel) as [x Hx]; [exact Hstop | lia |].
  rewrite Nat.add_0_r in Hx. cbn [pool retries] in Hx.
  destruct (@collectLoop_from_start _ _ Hx) as (k & Hk & Hxk & Hstopk & Hgo).
  assert (Hle : (k <= S m)%nat).
  { destruct (Nat.le_gt_cases k (S m)) as [Hle | Hgt]; [exact Hle |].
    rewrite (Hgo (S m)) in Hstop by lia. discriminate. }
  unfold collectSamples. rewrite Hx. subst x. cbn [exitAfter roundsDone ntpResults retry].
  assert (Hpos : (0 < len (pool_ k))%Z).
  { assert (H := pool_length_progress Hacc k). nia. }
  destruct (Z.eqb_spec (len (pool_ k)) 0) as [E | _]; [lia |].
  eexists; eexists. split; [reflexivity | lia].
Qed.

End RetryBounds.

(** ** [getTime]: when it polls, and what it leaves in the cache *)

Section PollFacts.

Variable options : NtpTimeSyncOptions.
Variable env : Env.

Lemma collectSamples_advances (fuel : nat) (numSamples : Z) (round n : nat)
      (r : result (list SampleData)) :
  collectSamples options env fuel numSamples round = Some (n, r) ->
  (round < n)%nat.
Proof.
  intros H.
  destruct (@collectSamples_inv _ _ _ _ _ _ _ H) as (x & Hx & -> & _).
  destruct (@collectLoop_from_start _ _ _ _ _ _ Hx) as (k & Hk & -> & _).
  cbn [exitAfter roundsDone]. lia.
Qed.

Lemma collectSamples_error (fuel : nat) (numSamples : Z) (round n : nat) (e : Error) :
  collectSamples options env fuel numSamples round = Some (n, Throw e) ->
  exists retries, e = ConnectionError retries.
Proof.
  intros H.
  destruct (@collectSamples_inv _ _ _ _ _ _ _ H) as (x & _ & _ & Hr).
  destruct (len (ntpResults x) =? 0)%Z; [| discriminate].
  injection Hr as ->. eexists; reflexivity.
Qed.

(** The guard of [getTime] is false exactly when the call is forced,
    when nothing has been polled (or the stored clock read is 0), or
    when the clock has advanced by the poll window or more. *)
Lemma cacheIsFresh_false (force : bool) (p : Process) :
  fst (cacheIsFresh options env force p) = false <->
  (force = true \/ lastPoll p = None \/ lastPoll p = Some 0%Z
   \/ exists lp, lastPoll p = Some lp
                 /\ Math_pow2 (NtpDefaults.minPoll (ntpDefaults options)) * 1000
                    <= inject_Z (clock env (reads p) - lp)).
Proof.
  unfold cacheIsFresh.
  destruct force; [cbn; split; auto |].
  destruct (lastPoll p) as [lp |]; [| cbn; split; auto].
  destruct (Z.eqb_spec lp 0) as [-> | Hlp]; [cbn; split; auto |].
  cbn [fst]. unfold Qlt_bool. rewrite negb_false_iff, Qle_bool_iff.
  split.
  - intros H. right; right; right. exists lp. split; [reflexivity | exact H].
  - intros [H | [H | [H | (lp' & H & Hle)]]]; try discriminate.
    + injection H as ->. contradiction.
    + injection H as <-. exact Hle.
Qed.

(** X2. [getTime] runs at least one network round whenever it is forced,
    nothing is cached, or the cached poll is as old as the poll window
    [2^minPoll] seconds of the calling instance.  When the round
    succeeds the cache is replaced: [lastPoll] is the clock read made
    after the round, [lastResult] the new offset and precision, and the
    returned [now] is the next clock read moved by the new offset.  When
    it fails the cache is left as it was. *)
Theorem getTime_polls (fuel : nat) (force : bool) (p : Process)
        (r : result NtpTimeResult.t) (q : Process) :
  getTime options env fuel force p = Some (r, q) ->
  (force = true \/ lastPoll p = None \/ lastPoll p = Some 0%Z
   \/ exists lp, lastPoll p = Some lp
                 /\ Math_pow2 (NtpDefaults.minPoll (ntpDefaults options)) * 1000
                    <= inject_Z (clock env (reads p) - lp)) ->
  (rounds p < rounds q)%nat
  /\ (forall timeResult, r = Ok timeResult ->
        exists read,
          (reads p <= read <= S (reads p))%nat
          /\ reads q = S (S read)
          /\ lastPoll q = Some (clock env read)
          /\ lastResult q = Some (NtpTimeResult.offset timeResult,
                                  NtpTimeResult.precision timeResult)
          /\ NtpTimeResult.now timeResult
             = addMilliseconds (clock env (S read)) (NtpTimeResult.offset timeResult))
  /\ (forall e, r = Throw e ->
        lastPoll q = lastPoll p /\ lastResult q = lastResult p
        /\ exists retries, e = ConnectionError retries).
Proof.
  intros H Hstale. apply cacheIsFresh_false in Hstale.
  rewrite (@getTime_fresh options env fuel force p Hstale) in H. cbn zeta in H.
  destruct (cacheIsFresh_keeps options env force p) as (Hp & Hr & Hn).
  assert (Hreads : (reads p <= reads (snd (cacheIsFresh options env force p)) <= S (reads p))%nat).
  { unfold cacheIsFresh. destruct force; [cbn; lia |].
    destruct (lastPoll p) as [lp |]; [| cbn; lia].
    destruct (lp =? 0)%Z; cbn; lia. }
  remember (snd (cacheIsFresh options env force p)) as p0 eqn:Ep0.
  destruct (collectSamples options env fuel (sampleCount options) (rounds p0))
    as [[n [samples | e]] |] eqn:Ec; [| | discriminate].
  - injection H as <- <-. cbn [rounds lastPoll lastResult reads].
    split; [rewrite <- Hn; eapply collectSamples_advances; exact Ec |].
    split; [| intros e He; discriminate].
    intros timeResult Ht. injection Ht as <-.
    exists (reads p0). cbn [NtpTimeResult.offset NtpTimeResult.precision NtpTimeResult.now].
    repeat split; try reflexivity; lia.
  - injection H as <- <-. cbn [rounds lastPoll lastResult reads].
    split; [rewrite <- Hn; eapply collectSamples_advances; exact Ec |].
    split; [intros timeResult Ht; discriminate |].
    intros e' He. injection He as <-.
    split; [exact Hp |]. split; [exact Hr |].
    eapply collectSamples_error; exact Ec.
Qed.

End PollFacts.

(** ** The process-wide cache over any sequence of calls *)

Section ProcessFacts.

Variable env : Env.

Local Abbreviation entered p :=
  {| lastPoll := lastPoll p; lastResult := lastResult p;
     rounds := rounds p; reads := S (reads p) |}.

Lemma getTime_cached (options : NtpTimeSyncOptions) (fuel : nat) (force : bool)
      (p : Process) :
  fst (cacheIsFresh options env force p) = true ->
  getTime options env fuel force p
  = let q := snd (cacheIsFresh options env force p) in
    let q' := {| lastPoll := lastPoll q; lastResult := lastResult q;
                 rounds := rounds q; reads := S (reads q) |} in
    match lastResult q with
    | None => Some (Throw TypeError, q')
    | Some (offset, precision) =>
        Some (Ok {| NtpTimeResult.now := addMilliseconds (clock env (reads q)) offset;
                    NtpTimeResult.offset := offset;
                    NtpTimeResult.precision := precision |}, q')
    end.
Proof.
  intros H. unfold getTime.
  destruct (cacheIsFresh options env force p) as [fresh q]. cbn in H. subst fresh.
  reflexivity.
Qed.

Lemma cacheIsFresh_reads (options : NtpTimeSyncOptions) (force : bool) (p : Process) :
  (reads p <= reads (snd (cacheIsFresh options env force p)) <= S (reads p))%nat.
Proof.
  unfold cacheIsFresh. destruct force; [cbn; lia |].
  destruct (lastPoll p) as [lp |]; [| cbn; lia].
  destruct (lp =? 0)%Z; cbn; lia.
Qed.

Lemma cacheIsFresh_true_polled (options : NtpTimeSyncOptions) (force : bool) (p : Process) :
  fst (cacheIsFresh options env force p) = true -> lastPoll p <> None.
Proof.
  unfold cacheIsFresh. destruct force; [discriminate |].
  destruct (lastPoll p) as [lp |]; [discriminate | discriminate].
Qed.

(** One call of [getTime] from a state in which a stored poll comes with
    a stored result. *)
Lemma getTime_step (options : NtpTimeSyncOptions) (fuel : nat) (force : bool)
      (p : Process) (r : result NtpTimeResult.t) (q : Process) :
  (lastPoll p <> None -> lastResult p <> None) ->
  getTime options env fuel force p = Some (r, q) ->
  (lastPoll q <> None -> lastResult q <> None)
  /\ (forall e, r = Throw e -> exists retries, e = ConnectionError retries)
  /\ (forall timeResult, r = Ok timeResult ->
        (reads p < reads q)%nat
        /\ NtpTimeResult.now timeResult
           = addMilliseconds (clock env (pred (reads q))) (NtpTimeResult.offset timeResult)).
Proof.
  intros Hinv H.
  destruct (cacheIsFresh_keeps options env force p) as (Hp & Hr & Hn).
  assert (Hreads := cacheIsFresh_reads options force p).
  destruct (fst (cacheIsFresh options env force p)) eqn:Hfresh.
  - rewrite (@getTime_cached options fuel force p Hfresh) in H. cbn zeta in H.
    assert (Hpolled := @cacheIsFresh_true_polled options force p Hfresh).
    remember (snd (cacheIsFresh options env force p)) as p0 eqn:Ep0.
    destruct (lastResult p0) as [[o pr] |] eqn:El.
    + injection H as <- <-. cbn [lastPoll lastResult reads].
      split; [intros _; discriminate |].
      split; [intros e He; discriminate |].
      intros timeResult Ht. injection Ht as <-.
      cbn [NtpTimeResult.now NtpTimeResult.offset Nat.pred].
      split; [lia | reflexivity].
    + exfalso. apply (Hinv Hpolled). symmetry. exact Hr.
  - rewrite (@getTime_fresh options env fuel force p Hfresh) in H. cbn zeta in H.
    remember (snd (cacheIsFresh options env force p)) as p0 eqn:Ep0.
    destruct (collectSamples options env fuel (sampleCount options) (rounds p0))
      as [[n [samples | e]] |] eqn:Ec; [| | discriminate].
    + injection H as <- <-. cbn [lastPoll lastResult reads].
      split; [intros _; discriminate |].
      split; [intros e He; discriminate |].
      intros timeResult Ht. injection Ht as <-.
      cbn [NtpTimeResult.now NtpTimeResult.offset Nat.pred].
      split; [lia | reflexivity].
    + injection H as <- <-. cbn [lastPoll lastResult reads].
      split; [rewrite Hp, Hr; exact Hinv |].
      split; [| intros timeResult Ht; discriminate].
      intros e' He. injection He as <-.
      eapply collectSamples_error; exact Ec.
Qed.

(** X3. A call of [getTime] resolves whenever every round brings at least
    [perRound] accepted replies (one or more): the retry loop of
    [collectSamples] then ends within
    [max(1, ceil(sampleCount / perRound))] rounds, whatever
    [maxRetries] is, and returns samples, so [getTime] neither rejects
    nor goes on for ever; with the four default servers all answering,
    two rounds give the eight samples. *)
Theorem getTime_resolves_with_progress
        (options : NtpTimeSyncOptions) (fuel : nat) (perRound : Z)
        (force : bool) (p : Process) :
  (1 <= perRound)%Z ->
  (forall round, (perRound <= len (accepted options env round))%Z) ->
  (Z.to_nat (Z.max 1 ((sampleCount options + perRound - 1) / perRound)) <= fuel)%nat ->
  (lastPoll p <> None -> lastResult p <> None) ->
  (forall start,
      exists n samples,
        collectSamples options env fuel (sampleCount options) start = Some (n, Ok samples)
        /\ (start < n
             <= start + Z.to_nat (Z.max 1 ((sampleCount options + perRound - 1) / perRound)))%nat)
  /\ exists timeResult q,
       getTime options env fuel force p = Some (Ok timeResult, q)
       /\ (rounds q
            <= rounds p + Z.to_nat (Z.max 1 ((sampleCount options + perRound - 1) / perRound)))%nat.
Proof.
  intros Hper Hacc Hfuel Hinv.
  assert (Hloop := fun start =>
            @collectSamples_progress options env (sampleCount options) start fuel perRound
              Hper Hacc Hfuel).
  split; [exact Hloop |].
  destruct (cacheIsFresh_keeps options env force p) as (Hp & Hr & Hn).
  destruct (fst (cacheIsFresh options env force p)) eqn:Hfresh.
  - rewrite (@getTime_cached options fuel force p Hfresh). cbn zeta.
    assert (Hpolled := @cacheIsFresh_true_polled options force p Hfresh).
    remember (snd (cacheIsFresh options env force p)) as p0 eqn:Ep0.
    destruct (lastResult p0) as [[o pr] |] eqn:El.
    + eexists; eexists. split; [reflexivity |]. cbn [rounds]. lia.
    + exfalso. apply (Hinv Hpolled). rewrite <- Hr. reflexivity.
  - rewrite (@getTime_fresh options env fuel force p Hfresh). cbn zeta.
    remember (snd (cacheIsFresh options env force p)) as p0 eqn:Ep0.
    destruct (Hloop (rounds p0)) as (n & samples & -> & Hrounds).
    eexists; eexists. split; [reflexivity |]. cbn [rounds]. lia.
Qed.

Lemma now_inv (options : NtpTimeSyncOptions) (fuel : nat) (force : bool)
      (p : Process) (r : result (option Z)) (q : Process) :
  now options env fuel force p = Some (r, q) ->
  exists r',
    getTime options env fuel force
            {| lastPoll := lastPoll p; lastResult := lastResult p;
               rounds := rounds p; reads := S (reads p) |} = Some (r', q)
    /\ r = match r' with
           | Ok timeResult =>
               Ok (addMilliseconds (clock env (reads p)) (NtpTimeResult.offset timeResult))
           | Throw e => Throw e
           end.
Proof.
  unfold now.
  destruct (getTime options env fuel force _) as [[[timeResult | e] q'] |];
    [| | discriminate]; intros H; injection H as <- <-; eexists; split; reflexivity.
Qed.

Lemma reachable_consistent (p : Process) :
  reachable env p -> lastPoll p <> None -> lastResult p <> None.
Proof.
  induction 1 as [| options fuel force p r q Hp IH Hg | options fuel force p r q Hp IH Hn].
  - cbn. intros H. contradiction.
  - exact (proj1 (@getTime_step options fuel force p r q IH Hg)).
  - destruct (@now_inv options fuel force p r q Hn) as (r' & Hg & _).
    exact (proj1 (@getTime_step options fuel force (entered p) r' q IH Hg)).
Qed.

(** X4. In every state that calls of [getTime] and [now] lead to, whatever
    the instances that make them, a stored [lastPoll] comes with a
    stored [lastResult]: serving the cache never reads an unset result.
    So the only error with which [getTime] or [now] rejects is the
    connection error of the retry loop. *)
Theorem getTime_rejects_with_connection_error_only (p : Process) :
  reachable env p ->
  (lastPoll p <> None -> lastResult p <> None)
  /\ forall options fuel force e q,
       getTime options env fuel force p = Some (Throw e, q)
       \/ now options env fuel force p = Some (Throw e, q) ->
       exists retries, e = ConnectionError retries.
Proof.
  intros Hreach. assert (Hinv := reachable_consistent Hreach).
  split; [exact Hinv |].
  intros options fuel force e q [Hg | Hn].
  - destruct (@getTime_step options fuel force p _ q Hinv Hg) as (_ & He & _).
    apply He. reflexivity.
  - destruct (@now_inv options fuel force p _ q Hn) as ([timeResult | e'] & Hg & Hr);
      [discriminate |].
    injection Hr as ->.
    destruct (@getTime_step options fuel force (entered p) _ q Hinv Hg) as (_ & He & _).
    apply He. reflexivity.
Qed.

(** X5. [now] returns the clock read on entry moved by the offset of the
    result of [getTime], whereas the [now] of that result is the last
    clock read of the call, a later one, moved by the same offset: with
    an integer offset [k] the two dates are [entry + k] and
    [last read + k].  [now] rejects with the error of [getTime]. *)
Theorem now_moves_the_entry_time (options : NtpTimeSyncOptions) (fuel : nat)
        (force : bool) (p : Process) (r : result NtpTimeResult.t) (q : Process) :
  (lastPoll p <> None -> lastResult p <> None) ->
  getTime options env fuel force
          {| lastPoll := lastPoll p; lastResult := lastResult p;
             rounds := rounds p; reads := S (reads p) |} = Some (r, q) ->
  match r with
  | Throw e => now options env fuel force p = Some (Throw e, q)
  | Ok timeResult =>
      now options env fuel force p
      = Some (Ok (addMilliseconds (clock env (reads p)) (NtpTimeResult.offset timeResult)), q)
      /\ NtpTimeResult.now timeResult
         = addMilliseconds (clock env (pred (reads q))) (NtpTimeResult.offset timeResult)
      /\ (reads p < pred (reads q))%nat
      /\ forall k, NtpTimeResult.offset timeResult = Num (inject_Z k) ->
           now options env fuel force p = Some (Ok (Some (clock env (reads p) + k)%Z), q)
           /\ NtpTimeResult.now timeResult = Some (clock env (pred (reads q)) + k)%Z
  end.
Proof.
  intros Hinv Hg.
  assert (Hnow : now options env fuel force p
                 = Some (match r with
                         | Ok timeResult =>
                             Ok (addMilliseconds (clock env (reads p))
                                                 (NtpTimeResult.offset timeResult))
                         | Throw e => Throw e
                         end, q)).
  { unfold now. rewrite Hg. destruct r; reflexivity. }
  destruct r as [timeResult | e]; [| exact Hnow].
  destruct (@getTime_step options fuel force (entered p) _ q Hinv Hg) as (_ & _ & Hok).
  destruct (Hok timeResult eq_refl) as (Hreads & Hdate). cbn [reads] in Hreads.
  split; [exact Hnow |]. split; [exact Hdate |]. split; [lia |].
  intros k Hk. rewrite Hnow, Hdate, Hk, !addMilliseconds_integer.
  split; reflexivity.
Qed.

End ProcessFacts.

(** ** [getInstance] *)

Section SingletonFacts.

Lemma new_spec (options : Value) (st : Registry) :
  match constructor options with
  | Ok v =>
      new options st
      = (Ok {| identity := allocated st; _options := v |},
         {| singleton := singleton st; allocated := S (allocated st) |})
  | Throw e => new options st = (Throw e, st)
  end.
Proof. unfold new. destruct (constructor options); reflexivity. Qed.

Lemma constructor_default (options : Value) :
  constructor (match options with VUndefined => VObject [] | _ => options end)
  = constructor options.
Proof. destruct options; reflexivity. Qed.

Lemma getInstance_spec (options : Value) (st : Registry) :
  getInstance options st
  = match singleton st with
    | Some instance => (Ok instance, st)
    | None =>
        match constructor options with
        | Ok v =>
            (Ok {| identity := allocated st; _options := v |},
             {| singleton := Some {| identity := allocated st; _options := v |};
                allocated := S (allocated st) |})
        | Throw e => (Throw e, st)
        end
    end.
Proof.
  unfold getInstance. destruct (singleton st) as [s |]; [reflexivity |].
  unfold new. rewrite constructor_default.
  destruct (constructor options); reflexivity.
Qed.

(** What a sequence of calls returns from a registry whose singleton, if
    any, was allocated before. *)
Lemma obtain_inv (calls : list Obtain) :
  forall st,
    (forall s, singleton st = Some s -> (identity s < allocated st)%nat) ->
    (forall o a, In (ByGetInstance o, Ok a) (obtain calls st) ->
       match singleton st with
       | Some s => a = s
       | None => (allocated st <= identity a)%nat
       end)
    /\ (forall o a o' a',
          In (ByGetInstance o, Ok a) (obtain calls st) ->
          In (ByGetInstance o', Ok a') (obtain calls st) -> a = a')
    /\ (forall o c, In (ByNew o, Ok c) (obtain calls st) ->
          (allocated st <= identity c)%nat)
    /\ (forall o a o' c,
          In (ByGetInstance o, Ok a) (obtain calls st) ->
          In (ByNew o', Ok c) (obtain calls st) -> identity a <> identity c).
Proof.
  induction calls as [| [options | options] calls IH]; intros st Hst.
  - cbn. repeat split; intros; contradiction.
  - cbn [obtain]. rewrite getInstance_spec.
    assert (IHst := IH st Hst).
    destruct (singleton st) as [s |] eqn:Es.
    + destruct IHst as (Hg & Hsame & Hn & Hdiff).
      assert (Hs := Hst s eq_refl).
      assert (Hall : forall o a,
                 In (ByGetInstance o, Ok a)
                    ((ByGetInstance options, Ok s) :: obtain calls st) -> a = s).
      { intros o a [H | H]; [congruence | exact (Hg o a H)]. }
      split; [exact Hall |].
      split; [intros o a o' a' H H'; rewrite (Hall o a H), (Hall o' a' H'); reflexivity |].
      split; [intros o c [H | H]; [discriminate | exact (Hn o c H)] |].
      intros o a o' c H [H' | H']; [discriminate |].
      rewrite (Hall o a H). assert (Hc := Hn o' c H'). lia.
    + destruct (constructor options) as [v | e].
      * set (a0 := {| identity := allocated st; _options := v |}).
        set (st' := {| singleton := Some a0; allocated := S (allocated st) |}).
        destruct (IH st') as (Hg & Hsame & Hn & Hdiff).
        { intros s Hs. cbn in Hs. injection Hs as <-. cbn. lia. }
        cbn [singleton st'] in Hg.
        assert (Hall : forall o a,
                   In (ByGetInstance o, Ok a)
                      ((ByGetInstance options, Ok a0) :: obtain calls st') -> a = a0).
        { intros o a [H | H]; [congruence | exact (Hg o a H)]. }
        split; [intros o a H; rewrite (Hall o a H); cbn; lia |].
        split; [intros o a o' a' H H'; rewrite (Hall o a H), (Hall o' a' H'); reflexivity |].
        split; [intros o c [H | H]; [discriminate |];
                assert (Hc := Hn o c H); cbn in Hc; lia |].
        intros o a o' c H [H' | H']; [discriminate |].
        rewrite (Hall o a H). assert (Hc := Hn o' c H'). cbn in Hc |- *. lia.
      * destruct IHst as (Hg & Hsame & Hn & Hdiff).
        split; [intros o a [H | H]; [discriminate | exact (Hg o a H)] |].
        split; [intros o a o' a' [H | H] [H' | H']; try discriminate;
                exact (Hsame o a o' a' H H') |].
        split; [intros o c [H | H]; [discriminate | exact (Hn o c H)] |].
        intros o a o' c [H | H] [H' | H']; try discriminate.
        exact (Hdiff o a o' c H H').
  - cbn [obtain]. assert (IHst := IH st Hst). generalize (new_spec options st).
    destruct (constructor options) as [v | e]; intros ->.
    + set (c0 := {| identity := allocated st; _options := v |}).
      set (st' := {| singleton := singleton st; allocated := S (allocated st) |}).
      destruct (IH st') as (Hg & Hsame & Hn & Hdiff).
      { intros s Hs. cbn in Hs |- *. assert (H := Hst s Hs). lia. }
      cbn [singleton allocated st'] in Hg.
      split.
      { intros o a [H | H]; [discriminate |].
        assert (Ha := Hg o a H). destruct (singleton st); [exact Ha | lia]. }
      split; [intros o a o' a' [H | H] [H' | H']; try discriminate;
              exact (Hsame o a o' a' H H') |].
      split.
      { intros o c [H | H]; [injection H as _ <-; cbn; lia |].
        assert (Hc := Hn o c H). cbn in Hc. lia. }
      intros o a o' c [H | H] [H' | H']; try discriminate.
      * injection H' as _ <-. cbn [identity c0].
        assert (Ha := Hg o a H).
        destruct (singleton st) as [s |] eqn:Es;
          [subst a; assert (Hs := Hst s eq_refl); lia | lia].
      * exact (Hdiff o a o' c H H').
    + destruct IHst as (Hg & Hsame & Hn & Hdiff).
      split; [intros o a [H | H]; [discriminate | exact (Hg o a H)] |].
      split; [intros o a o' a' [H | H] [H' | H']; try discriminate;
              exact (Hsame o a o' a' H H') |].
      split; [intros o c [H | H]; [discriminate | exact (Hn o c H)] |].
      intros o a o' c [H | H] [H' | H']; try discriminate.
      exact (Hdiff o a o' c H H').
Qed.

Lemma obtain_singleton_set (calls : list Obtain) :
  forall st s,
    singleton st = Some s ->
    forall o r, In (ByGetInstance o, r) (obtain calls st) -> r = Ok s.
Proof.
  induction calls as [| [options | options] calls IH]; intros st s Hs o r;
    cbn [obtain]; [contradiction | |].
  - rewrite getInstance_spec, Hs.
    intros [H | H]; [congruence | exact (IH st s Hs o r H)].
  - generalize (new_spec options st).
    destruct (constructor options) as [v | e]; intros ->.
    + intros [H | H]; [discriminate |].
      refine (IH _ s _ o r H). exact Hs.
    + intros [H | H]; [discriminate | exact (IH st s Hs o r H)].
Qed.

(** X6. Whatever calls of [getInstance] and [new NtpTimeSync] a program
    makes, in whatever order and with whatever options, all the calls of
    [getInstance] that return an instance return the same one, and no
    instance made by [new] is that one.  Once a first call of
    [getInstance] has built the singleton, every later call returns it
    with the options of the first call: the options passed later are
    ignored, even options the constructor would refuse. *)
Theorem getInstance_returns_one_instance (calls : list Obtain) :
  (forall o a o' a',
      In (ByGetInstance o, Ok a) (obtain calls emptyRegistry) ->
      In (ByGetInstance o', Ok a') (obtain calls emptyRegistry) -> a = a')
  /\ (forall o a o' c,
        In (ByGetInstance o, Ok a) (obtain calls emptyRegistry) ->
        In (ByNew o', Ok c) (obtain calls emptyRegistry) -> identity a <> identity c)
  /\ (forall first v,
        constructor first = Ok v ->
        forall o r,
          In (ByGetInstance o, r) (obtain (ByGetInstance first :: calls) emptyRegistry) ->
          r = Ok {| identity := 0; _options := v |}).
Proof.
  assert (Hempty : forall s, singleton emptyRegistry = Some s ->
                             (identity s < allocated emptyRegistry)%nat)
    by (intros s H; discriminate).
  destruct (@obtain_inv calls emptyRegistry Hempty) as (_ & Hsame & _ & Hdiff).
  split; [exact Hsame |]. split; [exact Hdiff |].
  intros first v Hv o r.
  cbn [obtain]. rewrite getInstance_spec. cbn [singleton emptyRegistry allocated].
  rewrite Hv.
  intros [H | H]; [congruence |].
  refine (@obtain_singleton_set calls _ _ _ o r H). reflexivity.
Qed.

End SingletonFacts.

(** ** [getNetworkTime]: the promise, the socket and the timer *)

Section ExchangeFacts.












End ExchangeFacts.

(** ** [pad] *)

Section PadFacts.

Lemma length_repeat_str (char : str) (n : nat) :
  length (concat (repeat char n)) = (n * length char)%nat.
Proof.
  induction n as [| n IH]; [reflexivity |].
  cbn [repeat concat]. rewrite length_app, IH. lia.
Qed.

Lemma padding_length (string char : str) (width : Z) :
  (0 <= width)%Z -> char <> [] ->
  len (substring0 (repeat_str char width) (width - len string))
  = Z.max 0 (width - len string).
Proof.
  intros Hw Hc. unfold substring0, repeat_str, len.
  rewrite length_firstn, length_repeat_str.
  assert (Hl : (1 <= length char)%nat) by (destruct char; [congruence | cbn; lia]).
  assert (Hn : (Z.to_nat width <= Z.to_nat width * length char)%nat) by nia.
  lia.
Qed.

(** X9. [pad] never shortens its argument: for a width that is not negative
    and a filling string that is not empty, the result has
    [max(width, string.length)] characters; with a one-character filling
    it is the string preceded (side [left]) or followed (side [right])
    by [width - string.length] copies of the character, and the string
    itself when it is [width] long or longer. *)
Theorem pad_never_truncates (string char : str) (width : Z) (side : Side) :
  (0 <= width)%Z ->
  char <> [] ->
  len (pad string width char side) = Z.max width (len string)
  /\ (forall c, char = [c] ->
        pad string width char Left = repeat c (Z.to_nat (width - len string)) ++ string
        /\ pad string width char Right = string ++ repeat c (Z.to_nat (width - len string)))
  /\ ((width <= len string)%Z -> pad string width char side = string).
Proof.
  intros Hw Hc.
  assert (Hp := padding_length string Hw Hc).
  split; [| split].
  - unfold pad. destruct side; unfold len in *; rewrite length_app; lia.
  - intros c ->. unfold pad, substring0. rewrite repeat_str_char.
    rewrite firstn_repeat_le by (unfold len; lia).
    replace (Z.to_nat (Z.max 0 (width - len string)))
      with (Z.to_nat (width - len string)) by lia.
    split; reflexivity.
  - intros Hle.
    assert (Hnil : substring0 (repeat_str char width) (width - len string) = []).
    { apply length_zero_iff_nil. unfold len in *. lia. }
    unfold pad. rewrite Hnil. destruct side; [reflexivity | apply app_nil_r].
Qed.

End PadFacts.

(** ** The host of a configured server *)

Section HostFacts.

Lemma split_head (sep : ascii) (s : str) :
  exists h t,
    split sep s = h :: t
    /\ ~ In sep h
    /\ ((t = [] /\ s = h) \/ exists rest, s = h ++ sep :: rest).
Proof.
  induction s as [| c s (h & t & Hs & Hh & Hrest)].
  - exists [], []. split; [reflexivity |]. split; [intros H; contradiction |].
    left. split; reflexivity.
  - cbn [split]. destruct (Ascii.eqb_spec c sep) as [-> | Hne].
    + exists [], (split sep s). split; [reflexivity |].
      split; [intros H; contradiction |].
      right. exists s. reflexivity.
    + rewrite Hs. exists (c :: h), t. split; [reflexivity |].
      split; [intros [H | H]; [congruence | contradiction] |].
      destruct Hrest as [[-> ->] | [rest ->]].
      * left. split; reflexivity.
      * right. exists rest. reflexivity.
Qed.

(** X10. The host of the endpoint resolved from a server string is the text
    before its first [:], so it never contains a [:]: a string that
    begins with [:] gets the empty host, and an address written with
    colons (an IPv6 literal) cannot be configured.  A server entry that
    is not a string makes the resolution throw a [TypeError]. *)
Theorem resolveServer_host (mergedConfig : Value) (s : str) (r : Value) :
  resolveServer mergedConfig (VString s) = Ok r ->
  (exists h p,
      r = endpoint h p
      /\ ~ In ":"%char h
      /\ (s = h \/ exists rest, s = h ++ ":"%char :: rest))
  /\ (forall v, (forall s', v <> VString s') ->
                resolveServer mergedConfig v = Throw TypeError).
Proof.
  intros H. split.
  - unfold resolveServer in H.
    destruct (split_head ":" s) as (h & t & Hs & Hh & Hrest).
    assert (Hhost : nth 0 (split_limit ":" 2 s) [] = h).
    { unfold split_limit. rewrite Hs. reflexivity. }
    rewrite Hhost in H.
    destruct (if truthy (Number_ (nth_error (split_limit ":" 2 s) 1))
              then Ok (VNumber (Number_ (nth_error (split_limit ":" 2 s) 1)))
              else ntpDefaultsPort mergedConfig) as [p | e]; [| discriminate].
    cbn [bind] in H. injection H as <-.
    exists h, p. split; [reflexivity |]. split; [exact Hh |].
    destruct Hrest as [[_ ->] | [rest ->]]; [left; reflexivity | right; exists rest; reflexivity].
  - intros v Hv. destruct v; try reflexivity. exfalso. exact (Hv s0 eq_refl).
Qed.

End HostFacts.

(** ** The merge of the options with the defaults *)

Section MergeFacts.

Lemma resolveEntry_key (defaults : Value) (key : str) (optionsKey : Value)
      (recur : result Value) (r : str * Value) :
  resolveEntry defaults key optionsKey recur = Ok r -> fst r = key.
Proof.
  unfold resolveEntry.
  destruct (in_ key defaults) as [known | e]; cbn [bind]; [| discriminate].
  destruct known; cbn [negb]; [| discriminate].
  destruct (isArray optionsKey); [intros H; injection H as <-; reflexivity |].
  destruct (isObject optionsKey); [| intros H; injection H as <-; reflexivity].
  destruct recur as [x | e]; cbn [bind]; [| discriminate].
  intros H; injection H as <-; reflexivity.
Qed.

Lemma mapM_fst {A} (f : str * A -> result (str * Value)) (l : list (str * A))
      (m : list (str * Value)) :
  (forall kv r, In kv l -> f kv = Ok r -> fst r = fst kv) ->
  mapM f l = Ok m -> map fst m = map fst l.
Proof.
  revert m. induction l as [| kv l IH]; intros m Hf; cbn [mapM].
  - intros H. injection H as <-. reflexivity.
  - destruct (f kv) as [r |] eqn:Er; cbn [bind]; [| discriminate].
    destruct (mapM f l) as [rs |] eqn:Ers; cbn [bind]; [| discriminate].
    intros H. injection H as <-. cbn [map]. f_equal.
    + apply Hf; [left; reflexivity | exact Er].
    + apply IH; [| reflexivity]. intros kv' r' Hin. apply Hf. right. exact Hin.
Qed.

(** X11. The object returned by [recursiveResolveOptions] has the keys of
    [defaults], in the order of [defaults], whatever the options are: a
    property of the options that [defaults] does not have is dropped,
    one that the options do not have is present. *)
Theorem recursiveResolveOptions_keys (options defaults : Value)
        (es merged : list (str * Value)) :
  entries defaults = Ok es ->
  recursiveResolveOptions options defaults = Ok (VObject merged) ->
  map fst merged = map fst es.
Proof.
  intros He.
  destruct options as [| | b | n | s | t | items | fields];
    cbn [recursiveResolveOptions]; rewrite He; cbn [bind];
    match goal with
    | |- context [mapM ?f es] => destruct (mapM f es) as [m | e] eqn:Hm
    end; cbn [bind]; try discriminate;
    intros H; injection H as <-;
    refine (@mapM_fst _ _ _ _ _ Hm); intros [key value] r Hin; cbn [fst]; try discriminate.
  - intros H. injection H as <-. reflexivity.
  - destruct (str_eqb key length_key); [apply resolveEntry_key |].
    clear Hm. generalize 0%nat. induction items as [| v items IH]; intros i.
    + intros H. injection H as <-. reflexivity.
    + destruct (str_eqb (index_key i) key); [apply resolveEntry_key | apply IH].
  - clear Hm. induction fields as [| [k v] fields IH].
    + intros H. injection H as <-. reflexivity.
    + destruct (str_eqb k key); [apply resolveEntry_key | exact IH].
Qed.

(** The search of [key] in an options object finds the first property
    of that name. *)
Lemma search_spec (defaults : Value) (key : str) (value : Value)
      (fields : list (str * Value)) :
  (fix search (fs : list (str * Value)) : result (str * Value) :=
     match fs with
     | [] => Ok (key, value)
     | (k, v) :: rest =>
         if str_eqb k key
         then resolveEntry defaults key v (recursiveResolveOptions v value)
         else search rest
     end) fields
  = if has_key key fields
    then resolveEntry defaults key (lookup key fields)
                      (recursiveResolveOptions (lookup key fields) value)
    else Ok (key, value).
Proof.
  unfold has_key, lookup.
  induction fields as [| [k v] fields IH]; [reflexivity |].
  cbn [existsb find fst]. destruct (str_eqb k key); [reflexivity | exact IH].
Qed.

Lemma lookup_head (key : str) (v : Value) (rest : list (str * Value)) :
  lookup key ((key, v) :: rest) = v.
Proof. unfold lookup. cbn [find fst]. rewrite str_eqb_refl. reflexivity. Qed.

Lemma lookup_tail (key k : str) (v : Value) (rest : list (str * Value)) :
  k <> key -> lookup key ((k, v) :: rest) = lookup key rest.
Proof.
  intros Hne. unfold lookup. cbn [find fst].
  destruct (str_eqb k key) eqn:E; [apply str_eqb_eq in E; contradiction | reflexivity].
Qed.

Lemma mapM_lookup (f : str * Value -> result (str * Value)) (l m : list (str * Value))
      (key : str) (value : Value) :
  (forall kv r, In kv l -> f kv = Ok r -> fst r = fst kv) ->
  NoDup (map fst l) ->
  In (key, value) l ->
  mapM f l = Ok m ->
  exists r, f (key, value) = Ok (key, r) /\ lookup key m = r.
Proof.
  revert m. induction l as [| kv l IH]; intros m Hf Hnd Hin; [contradiction |].
  cbn [mapM].
  destruct (f kv) as [[k r] |] eqn:Er; cbn [bind]; [| discriminate].
  destruct (mapM f l) as [rs |] eqn:Ers; cbn [bind]; [| discriminate].
  intros H. injection H as <-.
  assert (Hk : k = fst kv) by (apply (Hf kv (k, r)); [left; reflexivity | exact Er]).
  cbn [map] in Hnd. inversion Hnd as [| x xs Hnotin Hnd']; subst x xs.
  destruct Hin as [-> | Hin].
  - cbn [fst] in Hk. subst k. exists r. split; [exact Er | apply lookup_head].
  - assert (Hne : k <> key).
    { intros ->. apply Hnotin. rewrite <- Hk.
      change key with (fst (key, value)). apply in_map. exact Hin. }
    rewrite (lookup_tail _ _ Hne).
    apply IH; [| exact Hnd' | exact Hin | reflexivity].
    intros kv' r' Hin'. apply Hf. right. exact Hin'.
Qed.

Lemma has_key_in (key : str) (value : Value) (fields : list (str * Value)) :
  In (key, value) fields -> has_key key fields = true.
Proof.
  intros Hin. unfold has_key. apply existsb_exists.
  exists (key, value). split; [exact Hin | apply str_eqb_refl].
Qed.

(** The entry that the merge computes for a key of [defaults]. *)
Lemma merge_entry
      (options defaults merged : list (str * Value)) (key : str) (value : Value) :
  NoDup (map fst defaults) ->
  In (key, value) defaults ->
  recursiveResolveOptions (VObject options) (VObject defaults) = Ok (VObject merged) ->
  (if has_key key options
   then if isArray (lookup key options) then Ok (key, lookup key options)
        else if isObject (lookup key options)
             then r <- recursiveResolveOptions (lookup key options) value ;; Ok (key, r)
             else Ok (key, lookup key options)
   else Ok (key, value))
  = Ok (key, lookup key merged).
Proof.
  intros Hnd Hin H.
  rewrite recursiveResolveOptions_unfold in H. cbn [entries bind] in H.
  match type of H with
  | context [mapM ?f defaults] =>
      assert (Hf : forall kv r, In kv defaults -> f kv = Ok r -> fst r = fst kv);
      [| destruct (mapM f defaults) as [m |] eqn:Hm]
  end; cbn [bind] in H; [| | discriminate].
  { intros [k v] r _; cbn [fst]; rewrite search_spec.
    destruct (has_key k options);
      [apply resolveEntry_key | intros E; injection E as <-; reflexivity]. }
  injection H as <-.
  destruct (@mapM_lookup _ _ _ key value Hf Hnd Hin Hm) as (r & Hr & Hl).
  cbn beta iota in Hr. rewrite search_spec in Hr.
  unfold resolveEntry in Hr. cbn [in_ bind] in Hr.
  rewrite (has_key_in _ _ _ Hin) in Hr. cbn [negb] in Hr.
  rewrite Hl. exact Hr.
Qed.

Lemma merge_object
      (options defaults merged : list (str * Value)) (key : str) (value : Value) :
  NoDup (map fst defaults) ->
  In (key, value) defaults ->
  recursiveResolveOptions (VObject options) (VObject defaults) = Ok (VObject merged) ->
  has_key key options = true ->
  isArray (lookup key options) = false -> isObject (lookup key options) = true ->
  recursiveResolveOptions (lookup key options) value = Ok (lookup key merged).
Proof.
  intros Hnd Hin H Hyes Harr Hobj.
  assert (Hr := @merge_entry _ _ _ _ _ Hnd Hin H). rewrite Hyes, Harr, Hobj in Hr.
  destruct (recursiveResolveOptions (lookup key options) value) as [x |];
    cbn [bind] in Hr; [| discriminate].
  congruence.
Qed.

(** X12. The value that the merge gives to a key of [defaults] (an object
    without duplicate keys): the default value when the options object
    has no property of that name; the value of the options when it is an
    array or is not an object (arrays are not merged, and [null] and
    [undefined] are taken as they are); the merge of the two values when
    the value of the options is another object. *)
Theorem recursiveResolveOptions_lookup
        (options defaults merged : list (str * Value)) (key : str) (value : Value) :
  NoDup (map fst defaults) ->
  In (key, value) defaults ->
  recursiveResolveOptions (VObject options) (VObject defaults) = Ok (VObject merged) ->
  (has_key key options = false -> lookup key merged = value)
  /\ (has_key key options = true ->
      isArray (lookup key options) = true \/ isObject (lookup key options) = false ->
      lookup key merged = lookup key options)
  /\ (has_key key options = true ->
      isArray (lookup key options) = false -> isObject (lookup key options) = true ->
      recursiveResolveOptions (lookup key options) value = Ok (lookup key merged)).
Proof.
  intros Hnd Hin H.
  assert (Hr := @merge_entry _ _ _ _ _ Hnd Hin H).
  split; [| split].
  - intros Hno. rewrite Hno in Hr. congruence.
  - intros Hyes Hshape. rewrite Hyes in Hr.
    destruct (isArray (lookup key options)); [congruence |].
    destruct Hshape as [Hs | Hs]; [discriminate |].
    rewrite Hs in Hr. congruence.
  - exact (@merge_object _ _ _ _ _ Hnd Hin H).
Qed.

Lemma lookup_missing (key : str) (fields : list (str * Value)) :
  has_key key fields = false -> lookup key fields = VUndefined.
Proof.
  unfold has_key, lookup. induction fields as [| [k v] fields IH]; [reflexivity |].
  cbn [existsb find fst]. destruct (str_eqb k key); [discriminate | exact IH].
Qed.

Lemma lookup_withServers (key : str) (fields : list (str * Value)) (v : Value) :
  key <> prop "servers" ->
  lookup key (withServers fields v) = lookup key fields.
Proof.
  intros Hne. unfold withServers.
  assert (Hs : str_eqb (prop "servers") key = false).
  { destruct (str_eqb (prop "servers") key) eqn:E; [| reflexivity].
    apply str_eqb_eq in E. congruence. }
  destruct (has_key (prop "servers") fields).
  - unfold lookup. induction fields as [| [k x] fields IH]; [reflexivity |].
    cbn [map find fst].
    destruct (str_eqb k (prop "servers")) eqn:Ek; cbn [fst].
    + apply str_eqb_eq in Ek. subst k. rewrite Hs. exact IH.
    + destruct (str_eqb k key); [reflexivity | exact IH].
  - unfold lookup. induction fields as [| [k x] fields IH]; cbn [app find fst].
    + rewrite Hs. reflexivity.
    + destruct (str_eqb k key); [reflexivity | exact IH].
Qed.

Lemma readNtpDefaults_needs_date (v : Value) :
  field asDate "referenceDate" v = None -> readNtpDefaults v = None.
Proof.
  intros H. unfold readNtpDefaults. rewrite H.
  repeat match goal with
         | |- context [option_bind (field ?r ?n v) _] =>
             destruct (field r n v); cbn [option_bind]; try reflexivity
         end.
Qed.

(** X13. A reference date given in the options is lost: when the options
    have an object [ntpDefaults] whose [referenceDate] is a date, the
    merged [ntpDefaults.referenceDate] is an empty object, since a date
    is merged like an object and has no entry.  The options of the
    instance built from such options are then not of the declared type;
    in particular passing the default options themselves to the
    constructor does not give an instance with the default options. *)
Theorem given_referenceDate_is_lost
        (options group merged : list (str * Value)) (t : Z) :
  lookup (prop "ntpDefaults") options = VObject group ->
  lookup (prop "referenceDate") group = VDate t ->
  recursiveResolveOptions (VObject options) NtpTimeSyncDefaultOptions = Ok (VObject merged) ->
  (exists mergedGroup,
      lookup (prop "ntpDefaults") merged = VObject mergedGroup
      /\ lookup (prop "referenceDate") mergedGroup = VObject [])
  /\ (forall r, newNtpTimeSync (VObject options) = Ok r -> r = None).
Proof.
  intros Hgroup Hdate Hmerge.
  assert (Hkey : forall key fields v, lookup key fields = v -> v <> VUndefined ->
                                      has_key key fields = true).
  { intros key fields v Hl Hv. destruct (has_key key fields) eqn:E; [reflexivity |].
    rewrite (@lookup_missing _ _ E) in Hl. congruence. }
  assert (Hinner : exists mergedGroup,
             lookup (prop "ntpDefaults") merged = VObject mergedGroup
             /\ lookup (prop "referenceDate") mergedGroup = VObject []).
  { unfold NtpTimeSyncDefaultOptions in Hmerge.
    match type of Hmerge with
    | recursiveResolveOptions _ (VObject ?d) = _ =>
        assert (Hnd : NoDup (map fst d))
          by (repeat constructor; cbn; intuition discriminate);
        assert (Hin : In (prop "ntpDefaults", lookup (prop "ntpDefaults") d) d)
          by (cbn; tauto)
    end.
    assert (Hobj := @merge_object _ _ _ _ _ Hnd Hin Hmerge).
    rewrite Hgroup in Hobj.
    specialize (Hobj (Hkey _ _ _ Hgroup ltac:(discriminate)) eq_refl eq_refl).
    destruct (@recursiveResolveOptions_object _ _ _ Hobj) as [mergedGroup Hmg].
    exists mergedGroup. split; [exact Hmg |].
    rewrite Hmg in Hobj.
    match type of Hobj with
    | recursiveResolveOptions _ ?v = _ =>
        let v' := eval cbv in v in change v with v' in Hobj
    end.
    match type of Hobj with
    | recursiveResolveOptions _ (VObject ?d) = _ =>
        assert (Hnd' : NoDup (map fst d))
          by (repeat constructor; cbn; intuition discriminate);
        assert (Hin' : In (prop "referenceDate", lookup (prop "referenceDate") d) d)
          by (cbn; tauto)
    end.
    assert (Hd := @merge_object _ _ _ _ _ Hnd' Hin' Hobj).
    rewrite Hdate in Hd.
    specialize (Hd (Hkey _ _ _ Hdate ltac:(discriminate)) eq_refl eq_refl).
    change (Ok (VObject []) = Ok (lookup (prop "referenceDate") mergedGroup)) in Hd.
    injection Hd as Hd. symmetry. exact Hd. }
  split; [exact Hinner |].
  destruct Hinner as (mergedGroup & Hmg & Href).
  intros r. unfold newNtpTimeSync, constructor.
  cbn [get bind]. rewrite Hmerge. cbn [bind].
  set (d0 := get (prop "servers") NtpTimeSyncDefaultOptions).
  assert (Hd0 : exists d, d0 = Ok d) by (eexists; reflexivity).
  destruct Hd0 as [d ->]. cbn [bind].
  destruct (if truthy_value (lookup (prop "servers") options)
            then lookup (prop "servers") options
            else d) as [| | b | n | s | t' | items | fields];
    cbn [bind]; try discriminate.
  destruct (mapM (resolveServer (VObject merged)) items) as [eps | e];
    cbn [bind]; [| discriminate].
  intros H. injection H as <-.
  unfold readOptions.
  assert (Hn : field readNtpDefaults "ntpDefaults"
                     (VObject (withServers merged (VArray eps))) = None).
  { unfold field. cbn [get].
    rewrite lookup_withServers by (intros E; discriminate E).
    rewrite Hmg. apply readNtpDefaults_needs_date.
    unfold field. cbn [get]. rewrite Href. reflexivity. }
  rewrite Hn.
  repeat match goal with
         | |- context [option_bind (field ?f ?n ?v) _] =>
             destruct (field f n v); cbn [option_bind]; try reflexivity
         end.
Qed.

End MergeFacts.

(** ** The offset of a sample, the corrected date and the precision *)

Section EstimateFacts.

Variable options : NtpTimeSyncOptions.

(** X14. The offset computed for a reply against the mean of the two signed
    differences [receive - origin] and [transmit - destination], the
    clock offset of the protocol.  The two agree when the differences
    have the same sign, given that the sign of the offset is that of
    [transmit - destination] and is negative when that difference is
    zero.  When the differences are of opposite signs (the offset of the
    local clock is smaller than the travel time of a packet) the
    computed offset is the mean less [receive - origin].  Its magnitude
    is never below that of the mean. *)
Theorem sampleOf_offset_and_signed_mean (d : Packet.t) :
  let outbound := inject_Z (Packet.receiveTimestamp d - Packet.originTimestamp d) in
  let inbound := inject_Z (Packet.transmitTimestamp d - Packet.destinationTimestamp d) in
  let mean := (outbound + inbound) / 2 in
  ((0 <= outbound /\ 0 < inbound) \/ (outbound <= 0 /\ inbound <= 0) ->
   offset (sampleOf options d) == mean)
  /\ ((outbound < 0 /\ 0 < inbound) \/ (0 < outbound /\ inbound <= 0) ->
      offset (sampleOf options d) == mean - outbound)
  /\ Qabs mean <= Qabs (offset (sampleOf options d)).
Proof.
  cbn zeta. unfold sampleOf. cbn [offset].
  set (a := inject_Z (Packet.receiveTimestamp d - Packet.originTimestamp d)).
  set (b := inject_Z (Packet.transmitTimestamp d - Packet.destinationTimestamp d)).
  assert (Hsign : (Packet.transmitTimestamp d >? Packet.destinationTimestamp d)%Z = true
                  <-> 0 < b).
  { unfold b. rewrite Z.gtb_ltb, Z.ltb_lt.
    change 0 with (inject_Z 0). rewrite <- Zlt_Qlt. lia. }
  destruct (Packet.transmitTimestamp d >? Packet.destinationTimestamp d)%Z.
  - assert (Hb : 0 < b) by (apply Hsign; reflexivity).
    rewrite (Qabs_pos b) by lra.
    split; [| split].
    + intros [[Ha _] | [_ Hb']]; [| lra]. rewrite (Qabs_pos a) by lra. field.
    + intros [[Ha _] | [_ Hb']]; [| lra]. rewrite (Qabs_neg a) by lra. field.
    + apply (Qabs_case a); intros Ha;
        apply (Qabs_case ((a + b) / 2)); intros Hm;
        (apply Qabs_case; intros Ho);
        unfold Qdiv in *; change (/ 2) with (1 # 2) in *; lra.
  - assert (Hb : b <= 0).
    { apply Qnot_lt_le. intros H. apply Hsign in H. discriminate. }
    rewrite (Qabs_neg b) by lra.
    split; [| split].
    + intros [[_ Hb'] | [Ha _]]; [lra |]. rewrite (Qabs_neg a) by lra. field.
    + intros [[_ Hb'] | [Ha _]]; [lra |]. rewrite (Qabs_pos a) by lra. field.
    + apply (Qabs_case a); intros Ha;
        apply (Qabs_case ((a + b) / 2)); intros Hm;
        (apply Qabs_case; intros Ho);
        unfold Qdiv in *; change (/ 2) with (1 # 2) in *; lra.
Qed.

Lemma truncate_within_one (q : Q) : q - 1 < inject_Z (truncate q) < q + 1.
Proof.
  unfold truncate.
  assert (Hf := Qfloor_le q). assert (Hf' := Qlt_floor q).
  assert (Hc := Qle_ceiling q). assert (Hc' := Qceiling_lt q).
  rewrite inject_Z_plus in Hf'. rewrite inject_Z_sub in Hc'.
  change (inject_Z 1) with 1 in *.
  destruct (Qle_bool 0 q); split; lra.
Qed.

(** X15. The date moved by [setUTCMilliseconds]: with a finite offset (the
    date and the moved date within the range of [Date], 8.64e15 ms
    either side of the epoch) the result is less than one millisecond
    away from the date plus the offset, the sum of the milliseconds
    field and the offset being truncated towards zero, and it is the
    date plus the offset itself when the offset is an integer; with an
    offset that is [NaN] or infinite the date becomes invalid. *)
Theorem addMilliseconds_within_one (t : Z) (ms : Q) :
  (Z.abs t <= 8640000000000000)%Z ->
  Qabs (inject_Z t + ms) <= 8640000000000000 - 1 ->
  (exists moved,
      addMilliseconds t (Num ms) = Some moved
      /\ inject_Z t + ms - 1 < inject_Z moved < inject_Z t + ms + 1
      /\ (Z.abs moved <= 8640000000000000)%Z
      /\ (forall k, ms == inject_Z k -> moved = (t + k)%Z))
  /\ addMilliseconds t NaN = None
  /\ (forall negative, addMilliseconds t (Infinity negative) = None).
Proof.
  intros Hrange Hmoved.
  split; [| split; [reflexivity | intros negative; reflexivity]].
  unfold addMilliseconds. cbn [add].
  eexists. split; [reflexivity |].
  assert (Ht := truncate_within_one (inject_Z (t mod 1000) + ms)).
  assert (Hnear : inject_Z t + ms - 1
                  < inject_Z (t - t mod 1000 + truncate (inject_Z (t mod 1000) + ms))
                  < inject_Z t + ms + 1).
  { rewrite inject_Z_plus, inject_Z_sub. lra. }
  split; [exact Hnear |]. split.
  - set (moved := (t - t mod 1000 + truncate (inject_Z (t mod 1000) + ms))%Z) in *.
    assert (H1 : inject_Z moved < 8640000000000000
                 /\ - (8640000000000000) < inject_Z moved).
    { revert Hmoved. apply Qabs_case; intros Hs Hmoved; split; lra. }
    destruct H1 as [H1 H2].
    change 8640000000000000 with (inject_Z 8640000000000000) in H1.
    change (- (8640000000000000)) with (inject_Z (- 8640000000000000)) in H2.
    rewrite <- Zlt_Qlt in H1, H2. lia.
  - intros k Hk.
    assert (E : inject_Z (t mod 1000) + ms == inject_Z (t mod 1000 + k)).
    { rewrite inject_Z_plus, Hk. reflexivity. }
    unfold truncate.
    assert (Hb : Qle_bool 0 (inject_Z (t mod 1000) + ms)
                 = Qle_bool 0 (inject_Z (t mod 1000 + k))).
    { destruct (Qle_bool 0 (inject_Z (t mod 1000) + ms)) eqn:E1;
        destruct (Qle_bool 0 (inject_Z (t mod 1000 + k))) eqn:E2; try reflexivity.
      - apply Qle_bool_iff in E1. rewrite E in E1. apply Qle_bool_iff in E1. congruence.
      - apply Qle_bool_iff in E2. rewrite <- E in E2. apply Qle_bool_iff in E2. congruence. }
    destruct (Qle_bool 0 (inject_Z (t mod 1000) + ms)).
    + rewrite (Qfloor_comp _ _ E), Qfloor_Z. lia.
    + rewrite (Qceiling_comp _ _ E), Qceiling_Z. lia.
Qed.

Lemma sum_constant (c : Q) (l : list Q) :
  (forall x, In x l -> x == c) -> Spec.sum l == inject_Z (len l) * c.
Proof.
  induction l as [| x l IH]; intros H; unfold Spec.sum; cbn [fold_right].
  - unfold len. cbn. ring.
  - fold (Spec.sum l).
    assert (Hl : Spec.sum l == inject_Z (len l) * c)
      by (apply IH; intros y Hy; apply H; right; exact Hy).
    assert (Hx : x == c) by (apply H; left; reflexivity).
    unfold len in *. cbn [length].
    rewrite Nat2Z.inj_succ, <- Z.add_1_r, inject_Z_plus.
    change (inject_Z 1) with 1. rewrite Hl, Hx. ring.
Qed.

Lemma sum_squares_zero (m : Q) (l : list Q) :
  Spec.sum (map (fun x => (x - m) * (x - m)) l) == 0 ->
  forall x, In x l -> x == m.
Proof.
  induction l as [| y l IH]; intros H x Hin; [contradiction |].
  unfold Spec.sum in H. cbn [map fold_right] in H.
  fold (Spec.sum (map (fun x => (x - m) * (x - m)) l)) in H.
  assert (Hs := sum_squares_nonneg m l).
  assert (Hy : 0 <= (y - m) * (y - m)).
  { generalize (Qsqr_nonneg (y - m)). cbn. intros Hq. exact Hq. }
  assert (Hy0 : (y - m) * (y - m) == 0) by lra.
  assert (Hl0 : Spec.sum (map (fun x => (x - m) * (x - m)) l) == 0) by lra.
  destruct Hin as [<- | Hin]; [| exact (IH Hl0 x Hin)].
  apply Qmult_integral in Hy0. destruct Hy0; lra.
Qed.

Lemma variance_zero_iff (l : list Q) :
  l <> [] ->
  (Spec.variance l == 0 <-> forall x y, In x l -> In y l -> x == y).
Proof.
  intros Hne.
  assert (Hn : 0 < inject_Z (len l)).
  { change 0 with (inject_Z 0). rewrite <- Zlt_Qlt. apply len_pos, Hne. }
  assert (Hvar : Spec.variance l
                 == Spec.sum (map (fun x => (x - Spec.mean l) * (x - Spec.mean l)) l)
                    / inject_Z (len l)).
  { unfold Spec.variance. unfold Spec.mean at 1. rewrite len_map. reflexivity. }
  split.
  - intros Hv x y Hx Hy.
    assert (Hs : Spec.sum (map (fun x => (x - Spec.mean l) * (x - Spec.mean l)) l) == 0).
    { rewrite Hvar in Hv.
      setoid_replace (Spec.sum (map (fun x => (x - Spec.mean l) * (x - Spec.mean l)) l))
        with (Spec.sum (map (fun x => (x - Spec.mean l) * (x - Spec.mean l)) l)
              / inject_Z (len l) * inject_Z (len l))
        by (field; lra).
      rewrite Hv. ring. }
    assert (Ex := @sum_squares_zero _ _ Hs x Hx).
    assert (Ey := @sum_squares_zero _ _ Hs y Hy).
    rewrite Ex, Ey. reflexivity.
  - intros Hall. destruct l as [| c l']; [congruence |].
    set (l := c :: l') in *.
    assert (Hc : forall x, In x l -> x == c).
    { intros x Hx. apply Hall; [exact Hx | left; reflexivity]. }
    assert (Hm : Spec.mean l == c).
    { unfold Spec.mean. assert (E := @sum_constant c l Hc). rewrite E. field. lra. }
    assert (Hs : Spec.sum (map (fun x => (x - Spec.mean l) * (x - Spec.mean l)) l)
                 == inject_Z (len (map (fun x => (x - Spec.mean l) * (x - Spec.mean l)) l))
                    * 0).
    { apply sum_constant. intros z Hz. apply in_map_iff in Hz.
      destruct Hz as (x & <- & Hx). assert (Ex := Hc x Hx). rewrite Ex, Hm. ring. }
    rewrite Hvar, Hs. field. lra.
Qed.

Lemma Q2R_zero : Q2R 0 = 0%R.
Proof. unfold Q2R. cbn. apply Rmult_0_l. Qed.

(** X16. The precision returned by [getTime] is [stdDev] of the offsets of
    the samples: on a list of finite numbers that is not empty it is a
    real number that is not negative, and it is 0 exactly when all the
    numbers are equal; so a precision of 0 is what one sample alone
    gives. *)
Theorem stdDev_zero_iff_equal (values : list Q) :
  values <> [] ->
  (exists r, stdDev (map Num values) = RNum r /\ (0 <= r)%R)
  /\ (stdDev (map Num values) = RNum 0
      <-> forall x y, In x values -> In y values -> x == y).
Proof.
  intros Hne. rewrite (stdDev_Num Hne).
  split; [exists (Spec.stddev values); split; [reflexivity | apply stddev_nonneg] |].
  rewrite <- (variance_zero_iff Hne).
  unfold Spec.stddev. split.
  - intros H. injection H as H.
    apply sqrt_eq_0 in H.
    + apply eqR_Qeq. rewrite H, Q2R_zero. reflexivity.
    + rewrite <- Q2R_zero. apply Qle_Rle, variance_nonneg.
  - intros H. rewrite (Qeq_eqR _ _ H), Q2R_zero, sqrt_0. reflexivity.
Qed.

End EstimateFacts.

(** ** Where the selected samples come from *)

Section SampleOrigin.

Variable options : NtpTimeSyncOptions.
Variable env : Env.

Lemma notErrors_in (d : Packet.t) (l : list (result Packet.t)) :
  In d (notErrors l) -> In (Ok d) l.
Proof.
  induction l as [| [x | e] l IH]; cbn [notErrors]; [contradiction | |].
  - intros [-> | H]; [left; reflexivity | right; exact (IH H)].
  - intros H. right. exact (IH H).
Qed.

Lemma accepted_in (round : nat) (d : Packet.t) :
  In d (accepted options env round) ->
  exists server checkedAt,
    In server (servers options)
    /\ network env round server = Resolved d checkedAt
    /\ acceptResponse options checkedAt d = Ok tt.
Proof.
  unfold accepted. intros H. apply notErrors_in, in_map_iff in H.
  destruct H as (server & Ht & Hs). unfold timePromise in Ht.
  destruct (network env round server) as [e | d' checkedAt] eqn:En; [discriminate |].
  destruct (acceptResponse options checkedAt d') as [[] | e] eqn:Ea;
    cbn [bind] in Ht; [| discriminate].
  injection Ht as ->. exists server, checkedAt. repeat split; assumption.
Qed.

Lemma pool_in (start k : nat) (d : Packet.t) :
  In d (pool options env start k) ->
  exists j, (j < k)%nat /\ In d (accepted options env (start + j)).
Proof.
  induction k as [| k IH]; cbn [pool]; [contradiction |].
  intros H. apply in_app_or in H. destruct H as [H | H].
  - destruct (IH H) as (j & Hj & Hin). exists j. split; [lia | exact Hin].
  - exists k. split; [lia | exact H].
Qed.

(** X17. Every sample that [collectSamples] returns is computed from a reply
    that a configured server gave in one of the rounds of this call and
    that [acceptResponse] accepted: a reply that the validation rejects,
    or an exchange that failed, never contributes to the result. *)
Theorem collectSamples_uses_accepted_replies
        (fuel : nat) (numSamples : Z) (start n : nat) (samples : list SampleData) :
  collectSamples options env fuel numSamples start = Some (n, Ok samples) ->
  forall sample, In sample samples ->
    sample = sampleOf options (data sample)
    /\ exists round server checkedAt,
         (start <= round < n)%nat
         /\ In server (servers options)
         /\ network env round server = Resolved (data sample) checkedAt
         /\ acceptResponse options checkedAt (data sample) = Ok tt.
Proof.
  intros H sample Hin.
  destruct (@collectSamples_inv _ _ _ _ _ _ _ H) as (x & Hx & -> & Hr).
  destruct (@collectLoop_from_start _ _ _ _ _ _ Hx) as (k & Hk & -> & _).
  cbn [exitAfter ntpResults retry roundsDone] in *.
  destruct (len (pool options env start k) =? 0)%Z; [discriminate |].
  injection Hr as ->.
  assert (Hall : In sample (map (sampleOf options) (pool options env start k))).
  { apply (Permutation_in _ (sortByDelay_perm _)).
    unfold slice0 in Hin.
    destruct (numSamples <? 0)%Z; exact (in_firstn _ _ _ Hin). }
  apply in_map_iff in Hall. destruct Hall as (d & <- & Hd).
  split; [reflexivity |].
  destruct (pool_in _ _ _ Hd) as (j & Hj & Hacc).
  destruct (accepted_in _ _ Hacc) as (server & checkedAt & Hs & Hn & Ha).
  exists (start + j)%nat, server, checkedAt.
  cbn [sampleOf data]. repeat split; try assumption; lia.
Qed.

End SampleOrigin.

(** ** The endpoints of an instance *)

Section EndpointList.

Lemma lookup_servers_withServers (fields : list (str * Value)) (v : Value) :
  lookup (prop "servers") (withServers fields v) = v.
Proof.
  unfold withServers. destruct (has_key (prop "servers") fields) eqn:Hk.
  - unfold has_key in Hk. unfold lookup.
    induction fields as [| [k x] fields IH]; [discriminate |].
    cbn [existsb map find fst] in *.
    destruct (str_eqb k (prop "servers")) eqn:Ek; cbn [fst].
    + rewrite Ek. reflexivity.
    + rewrite Ek. cbn [orb] in Hk. exact (IH Hk).
  - unfold has_key in Hk. unfold lookup.
    induction fields as [| [k x] fields IH]; cbn [app find fst].
    + rewrite str_eqb_refl. reflexivity.
    + cbn [existsb fst] in Hk. apply orb_false_iff in Hk. destruct Hk as [Ek Hk].
      rewrite Ek. exact (IH Hk).
Qed.

Lemma mapM_nth {A B} (f : A -> result B) (l : list A) (m : list B) :
  mapM f l = Ok m ->
  length m = length l
  /\ forall i a, nth_error l i = Some a ->
                 exists b, nth_error m i = Some b /\ f a = Ok b.
Proof.
  revert m. induction l as [| x l IH]; intros m; cbn [mapM].
  - intros H. injection H as <-. split; [reflexivity |].
    intros [| i] a Ha; discriminate.
  - destruct (f x) as [y |] eqn:Ey; cbn [bind]; [| discriminate].
    destruct (mapM f l) as [ys |] eqn:Eys; cbn [bind]; [| discriminate].
    intros H. injection H as <-.
    destruct (IH ys eq_refl) as (Hlen & Hnth).
    split; [cbn; f_equal; exact Hlen |].
    intros [| i] a Ha; cbn [nth_error] in *.
    + injection Ha as <-. exists y. split; [reflexivity | exact Ey].
    + exact (Hnth i a Ha).
Qed.

(** X18. The instance built from an options object has one endpoint for each
    entry of the server list in use, in the order of the list: the list
    given as [servers] when that value is truthy (an empty array is: the
    instance then has no server at all), the default list otherwise.
    Each entry is a string, and the host of its endpoint is the text
    before the first [:] of the string; a server list that is not an
    array, or an entry that is not a string, makes the constructor
    throw. *)
Theorem constructor_endpoints (options : list (str * Value)) (v : Value) :
  constructor (VObject options) = Ok v ->
  exists items endpoints,
    (if truthy_value (lookup (prop "servers") options)
     then Ok (lookup (prop "servers") options)
     else get (prop "servers") NtpTimeSyncDefaultOptions) = Ok (VArray items)
    /\ get (prop "servers") v = Ok (VArray endpoints)
    /\ length endpoints = length items
    /\ forall i item, nth_error items i = Some item ->
         exists s port,
           item = VString s
           /\ nth_error endpoints i
              = Some (endpoint (nth 0 (split_limit ":" 2 s) []) port).
Proof.
  unfold constructor. cbn [get bind].
  set (d0 := get (prop "servers") NtpTimeSyncDefaultOptions).
  assert (Hd0 : exists d, d0 = Ok d) by (eexists; reflexivity).
  destruct Hd0 as [d Hd]. rewrite Hd. cbn [bind].
  destruct (recursiveResolveOptions (VObject options) NtpTimeSyncDefaultOptions)
    as [merged | e] eqn:Hm; cbn [bind]; [| discriminate].
  destruct (@recursiveResolveOptions_object _ _ _ Hm) as [fields ->].
  set (serverConfig := if truthy_value (lookup (prop "servers") options)
                       then lookup (prop "servers") options else d).
  intros H.
  destruct serverConfig as [| | b | n | s | t | items | fs] eqn:Esc;
    try discriminate H.
  destruct (mapM (resolveServer (VObject fields)) items) as [endpoints |] eqn:He;
    cbn [bind] in H; [| discriminate H].
  injection H as <-.
  exists items, endpoints.
  split.
  { unfold serverConfig in Esc.
    destruct (truthy_value (lookup (prop "servers") options)); rewrite Esc; reflexivity. }
  split; [cbn [get]; rewrite lookup_servers_withServers; reflexivity |].
  destruct (mapM_nth _ _ He) as (Hlen & Hnth).
  split; [exact Hlen |].
  intros i item Hi. destruct (Hnth i item Hi) as (b' & Hb & Hr).
  destruct item as [| | b | n | s | t | its | fs]; try discriminate Hr.
  unfold resolveServer in Hr.
  match type of Hr with
  | bind ?p _ = _ => destruct p as [port |]; cbn [bind] in Hr; [| discriminate Hr]
  end.
  injection Hr as <-. exists s, port. split; [reflexivity | exact Hb].
Qed.

End EndpointList.

(** ** The error that [acceptResponse] throws *)

Section VerdictFacts.

Variable options : NtpTimeSyncOptions.

(** X19. The checks of [acceptResponse] are made in a fixed order and the
    first that fails decides the error: a version above the configured
    one gives the format error that names both versions, whatever else
    is wrong with the reply; otherwise an unsynchronized server gives
    the stratum error; otherwise too large a root distance gives the
    distance error; otherwise an origin timestamp later than the local
    clock gives the error about the future.  The last check is the only
    one that reads the clock, so a reply accepted at one time is
    accepted at any later time. *)
Theorem acceptResponse_first_failure (now : Z) (d : Packet.t) :
  (Spec.versionTooHigh options d ->
   acceptResponse options now d
   = Throw (FormatVersion (NtpDefaults.version (ntpDefaults options)) (Packet.version d)))
  /\ (~ Spec.versionTooHigh options d -> Spec.unsynchronized options d ->
      acceptResponse options now d = Throw StratumError)
  /\ (~ Spec.versionTooHigh options d -> ~ Spec.unsynchronized options d ->
      Spec.tooDistant options d ->
      acceptResponse options now d = Throw DistanceError)
  /\ (~ Spec.versionTooHigh options d -> ~ Spec.unsynchronized options d ->
      ~ Spec.tooDistant options d -> Spec.originInFuture now d ->
      acceptResponse options now d = Throw OriginFromFuture)
  /\ (forall later, (now <= later)%Z ->
        acceptResponse options now d = Ok tt ->
        acceptResponse options later d = Ok tt).
Proof.
  unfold acceptResponse, Spec.versionTooHigh, Spec.unsynchronized,
    Spec.tooDistant, Spec.originInFuture, Spec.rootDelaySeconds,
    Spec.rootDispersionSeconds.
  assert (Hfar : Qle_bool (NtpDefaults.maxDispersion (ntpDefaults options))
                   (inject_Z (Packet.rootDelay d
                              - NtpDefaults.referenceDate (ntpDefaults options)) / 1000 / 2
                    + inject_Z (Packet.rootDispersion d
                                - NtpDefaults.referenceDate (ntpDefaults options)) / 1000)
                 = true
                 <-> NtpDefaults.maxDispersion (ntpDefaults options)
                     <= (inject_Z (Packet.rootDelay d)
                         - inject_Z (NtpDefaults.referenceDate (ntpDefaults options)))
                        / 1000 / 2
                        + (inject_Z (Packet.rootDispersion d)
                           - inject_Z (NtpDefaults.referenceDate (ntpDefaults options)))
                          / 1000).
  { rewrite Qle_bool_iff, !inject_Z_sub. reflexivity. }
  destruct (Z.gtb_spec (Packet.version d) (NtpDefaults.version (ntpDefaults options)))
    as [Hv | Hv].
  { repeat split; intros; try reflexivity; try discriminate; try lia; tauto. }
  destruct (Z.eqb_spec (Packet.leapIndicator d) 3) as [Hl | Hl]; cbn [orb].
  { repeat split; intros; try reflexivity; try discriminate; try lia; tauto. }
  destruct (Z.geb_spec (Packet.stratum d) (NtpDefaults.maxStratum (ntpDefaults options)))
    as [Hs | Hs].
  { repeat split; intros; try reflexivity; try discriminate; try lia;
      exfalso; match goal with H : ~ (_ \/ _) |- _ => apply H; right; lia end. }
  match goal with
  | |- context [Qle_bool ?a ?b] => destruct (Qle_bool a b) eqn:Hd
  end.
  { assert (Hd' := proj1 Hfar eq_refl).
    repeat split; intros; try reflexivity; try discriminate; try lia; tauto. }
  assert (Hd' : ~ NtpDefaults.maxDispersion (ntpDefaults options)
                  <= (inject_Z (Packet.rootDelay d)
                      - inject_Z (NtpDefaults.referenceDate (ntpDefaults options)))
                     / 1000 / 2
                     + (inject_Z (Packet.rootDispersion d)
                        - inject_Z (NtpDefaults.referenceDate (ntpDefaults options)))
                       / 1000).
  { intros H. apply Hfar in H. discriminate. }
  destruct (Z.gtb_spec (Packet.originTimestamp d) now) as [Ho | Ho].
  { repeat split; intros; try reflexivity; try discriminate; try lia; tauto. }
  repeat split; intros; try lia; try tauto.
  destruct (Z.gtb_spec (Packet.originTimestamp d) later); [lia | reflexivity].
Qed.

End VerdictFacts.

(** * The properties on concrete runs *)

(** C1, as stated, fails: with one server that always answers,
    [sampleCount = 8] and [maxRetries = 3], the first round yields one
    accepted sample and seven more rounds are run. *)
Lemma one_sample_of_eight_is_retried :
  sampleCount (oneServer 8 3) = 8%Z
  /\ len (accepted (oneServer 8 3) envUp 0) = 1%Z
  /\ exists x,
       collectLoop (oneServer 8 3) envUp 20 (sampleCount (oneServer 8 3)) 0 [] 0 = Some x
       /\ roundsDone x = 8%nat
       /\ roundsDone x <> 1%nat
       /\ len (ntpResults x) = 8%Z.
Proof.
  split; [reflexivity |]. split; [reflexivity |].
  eexists. split; [vm_compute; reflexivity |].
  cbn [roundsDone ntpResults]. repeat split; [discriminate].
Qed.

(** C1, a consequence of the loop condition: when only the first round
    yields a reply, the pool stays below [sampleCount] and the retry
    counter stays 0, so the loop is never left. *)
Lemma collectLoop_never_left_after_one_reply (fuel : nat) :
  collectLoop (oneServer 8 3) envOnce fuel 8 0 [] 0 = None.
Proof.
  assert (Hpool : forall k, pool (oneServer 8 3) envOnce 0 (S k) = [goodReply]).
  { induction k as [| k IH]; [reflexivity |].
    change (pool (oneServer 8 3) envOnce 0 (S (S k)))
      with (pool (oneServer 8 3) envOnce 0 (S k)
            ++ accepted (oneServer 8 3) envOnce (0 + S k)).
    rewrite IH. reflexivity. }
  assert (Hgo : forall k, continues (oneServer 8 3) envOnce 8 0 (S k) = true).
  { intros k. unfold continues.
    rewrite (@retries_nonempty (oneServer 8 3) envOnce 0 (S k))
      by (rewrite Hpool; discriminate).
    rewrite Hpool. reflexivity. }
  destruct (collectLoop (oneServer 8 3) envOnce fuel 8 0 [] 0) as [x |] eqn:E;
    [| reflexivity].
  apply (@collectLoop_sound (oneServer 8 3) envOnce 8 0 fuel 0 x) in E.
  destruct E as (k & Hk & _ & Hstop & _).
  destruct k as [| k]; [lia |]. rewrite Hgo in Hstop. discriminate.
Qed.

(** C1: the amended statement on the run above. *)
Lemma collectLoop_round_count_witness :
  collectLoop (oneServer 8 3) envUp 8 8 0 [] 0
  = Some (exitAfter (oneServer 8 3) envUp 0 8).
Proof.
  apply (proj1 (collectLoop_round_count (oneServer 8 3) envUp 8 0));
    [lia | | vm_compute; reflexivity | lia].
  intros j Hj.
  assert (E : (j = 1 \/ j = 2 \/ j = 3 \/ j = 4 \/ j = 5 \/ j = 6 \/ j = 7)%nat) by lia.
  repeat (destruct E as [E | E]); subst j; vm_compute; reflexivity.
Defined.

(** C2: an unknown option beside a known one. *)
Lemma unknown_option_is_ignored_witness :
  constructor (VObject [(prop "sampleCount", num 4); (prop "foo", num 1)])
  = constructor (VObject [(prop "sampleCount", num 4)]).
Proof.
  apply (proj1 (proj2 (@unknown_option_is_ignored
                         (prop "foo") (num 1) [(prop "sampleCount", num 4)] [] eq_refl))).
Defined.

(** C3, as stated, fails: with [maxRetries = 0] and no server answering,
    one round is run, not zero. *)
Lemma zero_maxRetries_runs_one_round :
  maxRetries (oneServer 8 0) = 0%Z
  /\ exists q,
       getTime (oneServer 8 0) envDown 5 true newProcess
       = Some (Throw (ConnectionError 1), q)
       /\ rounds q = 1%nat
       /\ Z.of_nat (rounds q) <> maxRetries (oneServer 8 0).
Proof.
  split; [reflexivity |].
  eexists. split; [vm_compute; reflexivity |].
  cbn [rounds]. split; [reflexivity | discriminate].
Qed.

(** C3: three rounds under the default [maxRetries]. *)
Lemma getTime_exhaustion_witness :
  exists q,
    getTime (oneServer 8 3) envDown 5 true newProcess
    = Some (Throw (ConnectionError 3), q)
    /\ rounds q = 3%nat.
Proof.
  destruct (@getTime_exhaustion (oneServer 8 3) envDown 5 true newProcess eq_refl)
    as [H _].
  destruct H as (q & Hq & Hr & _).
  - cbn. lia.
  - intros round server _. exists Timeout. reflexivity.
  - cbn. lia.
  - exists q. split; [exact Hq | exact Hr].
Defined.

(** C4: two calls in a row under the default options. *)
Lemma getTime_serves_cache_witness :
  exists r1 p1 r2 p2,
    getTime defaultOptions envUp 10 false newProcess = Some (Ok r1, p1)
    /\ getTime defaultOptions envUp 0 false p1 = Some (Ok r2, p2)
    /\ rounds p2 = rounds p1
    /\ NtpTimeResult.offset r2 = NtpTimeResult.offset r1
    /\ NtpTimeResult.precision r2 = NtpTimeResult.precision r1.
Proof.
  assert (Hmiss : fst (cacheIsFresh defaultOptions envUp false newProcess) = false)
    by reflexivity.
  assert (E : exists r1 p1,
             getTime defaultOptions envUp 10 false newProcess = Some (Ok r1, p1)
             /\ reads p1 = 2%nat).
  { rewrite (getTime_fresh defaultOptions envUp 10 false newProcess Hmiss). cbn zeta.
    match goal with
    | |- context [collectSamples ?a ?b ?c ?d ?e] =>
        let v := eval vm_compute in (collectSamples a b c d e) in
        change (collectSamples a b c d e) with v
    end.
    cbv beta iota. eexists. eexists. split; reflexivity. }
  destruct E as (r1 & p1 & E & Hreads).
  destruct (@getTime_serves_cache envUp defaultOptions defaultOptions 10 0 false
              newProcess p1 r1 Hmiss E)
    as (r2 & p2 & H2 & Hr & Ho & Hp & _).
  - cbn. discriminate.
  - rewrite Hreads. vm_compute. reflexivity.
  - exists r1, p1, r2, p2. repeat split; assumption.
Defined.

(** C5: a reply of stratum 16 under the default [maxStratum]. *)
Lemma acceptResponse_rejects_iff_witness :
  exists e, acceptResponse defaultOptions 1700000000021 stratum16Reply = Throw e.
Proof.
  apply (proj2 (proj2 (acceptResponse_rejects_iff defaultOptions 1700000000021
                         stratum16Reply))); reflexivity.
Defined.

(** C6, as stated, fails: with no sample, [stdDev] and [avg] divide 0 by
    0 and give [NaN], not 0; a call of [getTime] under [sampleCount = 0]
    selects no sample and returns these values. *)
Lemma stdDev_of_no_sample_is_NaN :
  stdDev [] = RNaN
  /\ stdDev [] <> RNum 0
  /\ avg [] = NaN
  /\ exists r q,
       getTime (oneServer 0 3) envUp 5 true newProcess = Some (Ok r, q)
       /\ collectSamples (oneServer 0 3) envUp 5 0 0 = Some (1%nat, Ok [])
       /\ NtpTimeResult.precision r = RNaN
       /\ NtpTimeResult.offset r = NaN.
Proof.
  assert (H : stdDev [] = RNaN) by reflexivity.
  split; [exact H |]. split; [rewrite H; discriminate |]. split; [reflexivity |].
  eexists. eexists. split; [reflexivity |].
  cbn [NtpTimeResult.precision NtpTimeResult.offset]. repeat split.
Qed.

(** C6: the eight samples of two rounds under the default options. *)
Lemma getTime_aggregate_witness :
  exists r q,
    getTime defaultOptions envUp 10 false newProcess = Some (Ok r, q)
    /\ exists m, NtpTimeResult.offset r = Num m /\ m == 51 # 2.
Proof.
  assert (H : exists samples,
             collectSamples defaultOptions envUp 10 (sampleCount defaultOptions)
               (rounds (snd (cacheIsFresh defaultOptions envUp false newProcess)))
             = Some (2%nat, Ok samples)
             /\ samples <> []
             /\ Spec.mean (map (@offset) samples) == 51 # 2).
  { eexists. split; [vm_compute; reflexivity |].
    split; [discriminate | vm_compute; reflexivity]. }
  destruct H as (samples & Hc & Hne & Hmean).
  destruct (@getTime_aggregate defaultOptions envUp 10 false newProcess 2 samples
              eq_refl Hc Hne)
    as (r & q & m & Hg & Ho & Hm & _).
  exists r, q. split; [exact Hg |]. exists m. split; [exact Ho |].
  rewrite Hm. exact Hmean.
Defined.

(** C8: the same run. *)
Lemma collectSamples_selects_prefix_witness :
  exists (samples : list SampleData) (accepted : list Packet.t),
    collectSamples defaultOptions envUp 10 8 0 = Some (2%nat, Ok samples)
    /\ len samples = Z.min 8 (len accepted).
Proof.
  assert (H : exists samples,
             collectSamples defaultOptions envUp 10 8 0 = Some (2%nat, Ok samples))
    by (eexists; vm_compute; reflexivity).
  destruct H as [samples H].
  destruct (@collectSamples_selects_prefix defaultOptions envUp 10 8 0 2 samples
              ltac:(lia) H)
    as (accepted & _ & _ & _ & _ & _ & Hlen & _).
  exists samples, accepted. split; assumption.
Defined.

(** C9, as stated, fails: at [sampleInstant] the eight timestamp bytes of
    the packet are not those of [(now - epoch) / 1000 * 2^32] rounded to
    an integer, whether to the nearest, downwards or upwards; and at
    [era1Instant], where that number is exactly 2^64, the string has 65
    digits and the bytes are those of 2^63. *)
Lemma createPacket_timestamp_is_not_rounded :
  firstn 8 (skipn 24 (createPacket defaultOptions sampleInstant None None None))
  = [236; 177; 29; 128; 0; 65; 136; 0]%Z
  /\ Spec.bigEndian 8 (Spec.timestampNearest sampleInstant referenceDate1900)
     = [236; 177; 29; 128; 0; 65; 137; 55]%Z
  /\ Spec.bigEndian 8 (Qfloor (Spec.timestampExact sampleInstant referenceDate1900))
     = [236; 177; 29; 128; 0; 65; 137; 55]%Z
  /\ Spec.bigEndian 8 (Qceiling (Spec.timestampExact sampleInstant referenceDate1900))
     = [236; 177; 29; 128; 0; 65; 137; 56]%Z
  /\ firstn 8 (skipn 24 (createPacket defaultOptions sampleInstant None None None))
     <> Spec.bigEndian 8 (Spec.timestampNearest sampleInstant referenceDate1900)
  /\ Spec.timestampExact era1Instant referenceDate1900 == inject_Z (2 ^ 64)
  /\ length (double_toString2 (ntpTimestampNumber defaultOptions era1Instant)) = 65%nat
  /\ firstn 8 (skipn 24 (createPacket defaultOptions era1Instant None None None))
     = Spec.bigEndian 8 (2 ^ 63)
  /\ firstn 8 (skipn 24 (createPacket defaultOptions era1Instant None None None))
     <> Spec.bigEndian 8 (Spec.timestampNearest era1Instant referenceDate1900).
Proof.
  assert (H1 : firstn 8 (skipn 24 (createPacket defaultOptions sampleInstant None None None))
               = [236; 177; 29; 128; 0; 65; 136; 0]%Z) by (vm_compute; reflexivity).
  assert (H2 : Spec.bigEndian 8 (Spec.timestampNearest sampleInstant referenceDate1900)
               = [236; 177; 29; 128; 0; 65; 137; 55]%Z) by (vm_compute; reflexivity).
  assert (H3 : firstn 8 (skipn 24 (createPacket defaultOptions era1Instant None None None))
               = [128; 0; 0; 0; 0; 0; 0; 0]%Z) by (vm_compute; reflexivity).
  assert (H4 : Spec.bigEndian 8 (Spec.timestampNearest era1Instant referenceDate1900)
               = [0; 0; 0; 0; 0; 0; 0; 0]%Z) by (vm_compute; reflexivity).
  split; [exact H1 |]. split; [exact H2 |].
  split; [vm_compute; reflexivity |]. split; [vm_compute; reflexivity |].
  split; [rewrite H1, H2; discriminate |].
  split; [vm_compute; reflexivity |]. split; [vm_compute; reflexivity |].
  split; [rewrite H3; vm_compute; reflexivity |].
  rewrite H3, H4. discriminate.
Qed.

(** C9: the packet at [sampleInstant]. *)
Lemma createPacket_layout_witness :
  firstn 1 (createPacket defaultOptions sampleInstant None None None) = [227%Z]
  /\ firstn 8 (skipn 24 (createPacket defaultOptions sampleInstant None None None))
     = Spec.bigEndian 8 (8327854345422897 * 2 ^ 11).
Proof.
  destruct (createPacket_layout defaultOptions sampleInstant None None None)
    as (_ & Hflags & Hts).
  split.
  - apply Hflags; cbn; lia.
  - apply (Hts 8327854345422897%positive 11%Z);
      [vm_compute; reflexivity | lia | vm_compute; reflexivity].
Defined.

(** C10: a server string without a port. *)
Lemma resolveServer_port_witness :
  resolveServer NtpTimeSyncDefaultOptions (VString (of_string "ntp.example.org"))
  = Ok (endpoint (of_string "ntp.example.org") (num 123)).
Proof.
  apply (proj1 (@resolveServer_port NtpTimeSyncDefaultOptions (num 123) eq_refl)).
  cbn. intros H.
  repeat (destruct H as [H | H]; [discriminate H |]). exact H.
Defined.

(** * The further properties on concrete runs *)

(** X1: one server that always answers, two samples asked for: two rounds,
    two samples. *)
Lemma collectSamples_exact_count_witness :
  exists samples,
    collectSamples (oneServer 2 3) envUp 5 2 0 = Some (2%nat, Ok samples)
    /\ len samples = 2%Z.
Proof.
  assert (H : exists samples,
             collectSamples (oneServer 2 3) envUp 5 2 0 = Some (2%nat, Ok samples))
    by (eexists; vm_compute; reflexivity).
  destruct H as [samples H].
  exists samples. split; [exact H |].
  exact (proj1 (@collectSamples_exact_count (oneServer 2 3) envUp 2 0 5 2 samples
                  ltac:(cbn; lia) ltac:(lia) H)).
Defined.

(** X2: a forced call in a new process polls. *)
Lemma getTime_polls_witness :
  exists r q,
    getTime defaultOptions envUp 10 true newProcess = Some (r, q)
    /\ (rounds newProcess < rounds q)%nat.
Proof.
  assert (Hmiss : fst (cacheIsFresh defaultOptions envUp true newProcess) = false)
    by reflexivity.
  assert (E : exists r q, getTime defaultOptions envUp 10 true newProcess = Some (r, q)).
  { rewrite (getTime_fresh defaultOptions envUp 10 true newProcess Hmiss). cbn zeta.
    match goal with
    | |- context [collectSamples ?a ?b ?c ?d ?e] =>
        let v := eval vm_compute in (collectSamples a b c d e) in
        change (collectSamples a b c d e) with v
    end.
    cbv beta iota. eexists. eexists. reflexivity. }
  destruct E as (r & q & E).
  exists r, q. split; [exact E |].
  exact (proj1 (@getTime_polls defaultOptions envUp 10 true newProcess r q E
                  (or_introl eq_refl))).
Defined.

(** X3: the four default servers, all answering: a forced call resolves
    within two rounds. *)
Lemma getTime_resolves_with_progress_witness :
  exists timeResult q,
    getTime defaultOptions envUp 2 true newProcess = Some (Ok timeResult, q)
    /\ (rounds q <= 0 + 2)%nat.
Proof.
  apply (proj2 (@getTime_resolves_with_progress envUp defaultOptions 2 4 true newProcess
                  ltac:(lia)
                  ltac:(intros round; vm_compute; discriminate)
                  ltac:(vm_compute; lia)
                  ltac:(intros H; exfalso; apply H; reflexivity))).
Defined.

(** X4: after a call that failed, with no server answering. *)
Lemma getTime_rejects_with_connection_error_only_witness :
  exists p,
    getTime (oneServer 1 1) envDown 3 false newProcess = Some (Throw (ConnectionError 1), p)
    /\ forall options fuel force e q,
         getTime options envDown fuel force p = Some (Throw e, q)
         \/ now options envDown fuel force p = Some (Throw e, q) ->
         exists retries, e = ConnectionError retries.
Proof.
  assert (E : exists p,
             getTime (oneServer 1 1) envDown 3 false newProcess
             = Some (Throw (ConnectionError 1), p))
    by (eexists; vm_compute; reflexivity).
  destruct E as [p E]. exists p. split; [exact E |].
  exact (proj2 (@getTime_rejects_with_connection_error_only envDown p
                  (@reachable_getTime envDown _ _ _ _ _ _ (reachable_start envDown) E))).
Defined.

(** X5: [now(true)] in a new process. *)
Lemma now_moves_the_entry_time_witness :
  exists timeResult q,
    now defaultOptions envUp 10 true newProcess
    = Some (Ok (addMilliseconds (clock envUp 0) (NtpTimeResult.offset timeResult)), q)
    /\ NtpTimeResult.now timeResult
       = addMilliseconds (clock envUp (pred (reads q))) (NtpTimeResult.offset timeResult).
Proof.
  set (entered := {| lastPoll := lastPoll newProcess; lastResult := lastResult newProcess;
                     rounds := rounds newProcess; reads := S (reads newProcess) |}).
  assert (Hmiss : fst (cacheIsFresh defaultOptions envUp true entered) = false)
    by reflexivity.
  assert (E : exists timeResult q,
             getTime defaultOptions envUp 10 true entered = Some (Ok timeResult, q)).
  { rewrite (getTime_fresh defaultOptions envUp 10 true entered Hmiss). cbn zeta.
    match goal with
    | |- context [collectSamples ?a ?b ?c ?d ?e] =>
        let v := eval vm_compute in (collectSamples a b c d e) in
        change (collectSamples a b c d e) with v
    end.
    cbv beta iota. eexists. eexists. reflexivity. }
  destruct E as (timeResult & q & E).
  exists timeResult, q.
  destruct (@now_moves_the_entry_time envUp defaultOptions 10 true newProcess
              (Ok timeResult) q ltac:(intros H; exfalso; apply H; reflexivity) E)
    as (Hnow & Hdate & _).
  split; [exact Hnow | exact Hdate].
Defined.

(** X9: three binary digits padded to a byte. *)
Lemma pad_never_truncates_witness :
  len (pad (of_string "101") 8 (of_string "0") Left) = Z.max 8 (len (of_string "101")).
Proof.
  exact (proj1 (@pad_never_truncates (of_string "101") (of_string "0") 8 Left
                  ltac:(lia) ltac:(discriminate))).
Defined.

(** X10: an IPv6 literal as a server string: the host is what precedes the
    first colon. *)
Lemma resolveServer_host_witness :
  exists h p,
    resolveServer NtpTimeSyncDefaultOptions (VString (of_string "2001:db8::1"))
    = Ok (endpoint h p)
    /\ ~ In ":"%char h.
Proof.
  assert (E : exists r,
             resolveServer NtpTimeSyncDefaultOptions (VString (of_string "2001:db8::1"))
             = Ok r)
    by (eexists; vm_compute; reflexivity).
  destruct E as [r E].
  destruct (proj1 (@resolveServer_host NtpTimeSyncDefaultOptions
                     (of_string "2001:db8::1") r E)) as (h & p & Hr & Hh & _).
  exists h, p. split; [rewrite <- Hr; exact E | exact Hh].
Defined.

(** X11: an unknown option and a known one. *)
Lemma recursiveResolveOptions_keys_witness :
  exists merged,
    recursiveResolveOptions (VObject [(prop "foo", num 1); (prop "sampleCount", num 4)])
                            NtpTimeSyncDefaultOptions = Ok (VObject merged)
    /\ map fst merged = map fst defaultFields.
Proof.
  assert (E : exists merged,
             recursiveResolveOptions
               (VObject [(prop "foo", num 1); (prop "sampleCount", num 4)])
               NtpTimeSyncDefaultOptions = Ok (VObject merged))
    by (eexists; vm_compute; reflexivity).
  destruct E as [merged E]. exists merged. split; [exact E |].
  exact (@recursiveResolveOptions_keys _ NtpTimeSyncDefaultOptions defaultFields merged
           eq_refl E).
Defined.

(** X12: [maxRetries] given, [sampleCount] not. *)
Lemma recursiveResolveOptions_lookup_witness :
  exists merged,
    recursiveResolveOptions (VObject [(prop "maxRetries", num 5)])
                            (VObject defaultFields) = Ok (VObject merged)
    /\ lookup (prop "sampleCount") merged = num 8.
Proof.
  assert (E : exists merged,
             recursiveResolveOptions (VObject [(prop "maxRetries", num 5)])
                                     (VObject defaultFields) = Ok (VObject merged))
    by (eexists; vm_compute; reflexivity).
  destruct E as [merged E]. exists merged. split; [exact E |].
  refine (proj1 (@recursiveResolveOptions_lookup
                   [(prop "maxRetries", num 5)] defaultFields merged
                   (prop "sampleCount") (num 8) _ _ E) eq_refl).
  - repeat constructor; cbn; intuition discriminate.
  - cbn. tauto.
Defined.

(** X13: the default options passed to the constructor. *)
Lemma given_referenceDate_is_lost_witness :
  exists r, newNtpTimeSync NtpTimeSyncDefaultOptions = Ok r /\ r = None.
Proof.
  assert (E : exists merged,
             recursiveResolveOptions (VObject defaultFields) NtpTimeSyncDefaultOptions
             = Ok (VObject merged))
    by (eexists; vm_compute; reflexivity).
  destruct E as [merged E].
  assert (N : exists r, newNtpTimeSync (VObject defaultFields) = Ok r)
    by (eexists; vm_compute; reflexivity).
  destruct N as [r N]. exists r. split; [exact N |].
  refine (proj2 (@given_referenceDate_is_lost defaultFields
                   (match lookup (prop "ntpDefaults") defaultFields with
                    | VObject group => group
                    | _ => []
                    end) merged referenceDate1900 _ _ E) r N);
    reflexivity.
Defined.

(** X15: a date of November 2025 moved by 25.5 ms. *)
Lemma addMilliseconds_within_one_witness :
  exists moved,
    addMilliseconds sampleInstant (Num (51 # 2)) = Some moved
    /\ inject_Z sampleInstant + (51 # 2) - 1 < inject_Z moved
        < inject_Z sampleInstant + (51 # 2) + 1.
Proof.
  destruct (proj1 (@addMilliseconds_within_one sampleInstant (51 # 2)
                     ltac:(vm_compute; discriminate)
                     ltac:(vm_compute; discriminate)))
    as (moved & Hm & Hnear & _).
  exists moved. split; [exact Hm | exact Hnear].
Defined.

(** X16: two equal offsets. *)
Lemma stdDev_zero_iff_equal_witness :
  stdDev (map Num [3; 3]) = RNum 0.
Proof.
  apply (proj2 (@stdDev_zero_iff_equal [3; 3] ltac:(discriminate))).
  intros x y Hx Hy. cbn in Hx, Hy.
  destruct Hx as [<- | [<- | []]]; destruct Hy as [<- | [<- | []]]; reflexivity.
Defined.

(** X17: one server, one sample. *)
Lemma collectSamples_uses_accepted_replies_witness :
  exists samples,
    collectSamples (oneServer 1 3) envUp 5 1 0 = Some (1%nat, Ok samples)
    /\ forall sample, In sample samples ->
         sample = sampleOf (oneServer 1 3) (data sample)
         /\ exists round server checkedAt,
              (0 <= round < 1)%nat
              /\ In server (servers (oneServer 1 3))
              /\ network envUp round server = Resolved (data sample) checkedAt
              /\ acceptResponse (oneServer 1 3) checkedAt (data sample) = Ok tt.
Proof.
  assert (E : exists samples,
             collectSamples (oneServer 1 3) envUp 5 1 0 = Some (1%nat, Ok samples))
    by (eexists; vm_compute; reflexivity).
  destruct E as [samples E]. exists samples. split; [exact E |].
  exact (@collectSamples_uses_accepted_replies (oneServer 1 3) envUp 5 1 0 1 samples E).
Defined.

(** X18: one server given with its port. *)
Lemma constructor_endpoints_witness :
  exists (v : Value) (items endpoints : list Value),
    constructor (VObject [(prop "servers", VArray [VString (of_string "ntp.example.org:1123")])])
    = Ok v
    /\ get (prop "servers") v = Ok (VArray endpoints)
    /\ length endpoints = length items.
Proof.
  assert (E : exists v,
             constructor
               (VObject [(prop "servers", VArray [VString (of_string "ntp.example.org:1123")])])
             = Ok v)
    by (eexists; vm_compute; reflexivity).
  destruct E as [v E].
  destruct (@constructor_endpoints _ v E) as (items & endpoints & _ & Hs & Hl & _).
  exists v, items, endpoints. split; [exact E |]. split; [exact Hs | exact Hl].
Defined.
